(** * BinderHub build-and-launch pipeline: a shallow embedding

    The definitions below follow [binderhub/builder.py] (the [BuildHandler]
    request handler) and [binderhub/launcher.py] (the [Launcher]).

    Conventions.
    - A Python [str] is a Rocq [string]; characters are ASCII, and
      [str.lower] is modelled on that range.
    - Python integers are [Z]; a slice bound is a [Z] and negative bounds
      count from the end of the string, as in Python.
    - Library functions ([hashlib.sha256], [base64.urlsafe_b64encode],
      [uuid.uuid4], [re.match]) are modelled by executable definitions that
      follow their published behaviour; oracles for the outside world (the
      hub, the registry, the client connection, the random source) are
      fields of a record the model takes as input. *)

From Stdlib Require Import ZArith List Bool Ascii String Lia Arith.
From Stdlib Require Import DecimalString.
Import ListNotations.

Local Open Scope string_scope.
Local Open Scope Z_scope.

(** ** Python strings *)

Module PyStr.

Definition is_upper (c : ascii) : bool :=
  let n := nat_of_ascii c in (65 <=? n)%nat && (n <=? 90)%nat.

Definition is_lower (c : ascii) : bool :=
  let n := nat_of_ascii c in (97 <=? n)%nat && (n <=? 122)%nat.

Definition is_digit (c : ascii) : bool :=
  let n := nat_of_ascii c in (48 <=? n)%nat && (n <=? 57)%nat.

(** [c.lower()] on one ASCII character. *)
Definition lower_char (c : ascii) : ascii :=
  if is_upper c then ascii_of_nat (nat_of_ascii c + 32) else c.

(** [s.lower()]. *)
Fixpoint lower (s : string) : string :=
  match s with
  | EmptyString => EmptyString
  | String c r => String (lower_char c) (lower r)
  end.

(** [s.replace(a, b)] for one-character [a] and [b]. *)
Fixpoint replace_char (a b : ascii) (s : string) : string :=
  match s with
  | EmptyString => EmptyString
  | String c r => String (if Ascii.eqb c a then b else c) (replace_char a b r)
  end.

Fixpoint take (n : nat) (s : string) : string :=
  match n, s with
  | O, _ => EmptyString
  | S _, EmptyString => EmptyString
  | S k, String c r => String c (take k r)
  end.

Fixpoint drop (n : nat) (s : string) : string :=
  match n, s with
  | O, _ => s
  | S _, EmptyString => EmptyString
  | S k, String _ r => drop k r
  end.

(** [s[:n]]: a negative bound counts from the end and is clamped at 0. *)
Definition slice_to (s : string) (n : Z) : string :=
  if 0 <=? n then take (Z.to_nat n) s
  else take (String.length s - Z.to_nat (- n)) s.

(** [s[n:]]. *)
Definition slice_from (s : string) (n : Z) : string :=
  if 0 <=? n then drop (Z.to_nat n) s
  else drop (String.length s - Z.to_nat (- n)) s.

Fixpoint forallb (p : ascii -> bool) (s : string) : bool :=
  match s with
  | EmptyString => true
  | String c r => p c && forallb p r
  end.

Fixpoint existsb (p : ascii -> bool) (s : string) : bool :=
  match s with
  | EmptyString => false
  | String c r => p c || existsb p r
  end.

Definition is_empty (s : string) : bool :=
  match s with EmptyString => true | _ => false end.

(** [s.startswith(p)]. *)
Fixpoint startswith (p s : string) : bool :=
  match p, s with
  | EmptyString, _ => true
  | String _ _, EmptyString => false
  | String a p', String c s' => Ascii.eqb a c && startswith p' s'
  end.

(** [s.endswith(p)]. *)
Definition endswith (p s : string) : bool :=
  (String.length p <=? String.length s)%nat
  && String.eqb (drop (String.length s - String.length p) s) p.

(** [p in s] for strings. *)
Fixpoint contains (p s : string) : bool :=
  startswith p s
  || match s with
     | EmptyString => false
     | String _ r => contains p r
     end.

(** [s.lstrip(chars)] and [s.rstrip(chars)], [chars] given as a predicate. *)
Fixpoint lstrip (p : ascii -> bool) (s : string) : string :=
  match s with
  | EmptyString => EmptyString
  | String c r => if p c then lstrip p r else s
  end.

Fixpoint rstrip (p : ascii -> bool) (s : string) : string :=
  match s with
  | EmptyString => EmptyString
  | String c r =>
      let r' := rstrip p r in
      if is_empty r' && p c then EmptyString else String c r'
  end.

Definition strip (p : ascii -> bool) (s : string) : string :=
  rstrip p (lstrip p s).

(** [s.split(sep, 1)] for a one-character [sep]: [None] when [sep] does not
    occur (the result list has one element), else the text before and
    after the first occurrence. *)
Fixpoint split1 (sep : ascii) (s : string) : option (string * string) :=
  match s with
  | EmptyString => None
  | String c r =>
      if Ascii.eqb c sep then Some (EmptyString, r)
      else match split1 sep r with
           | Some (a, b) => Some (String c a, b)
           | None => None
           end
  end.

End PyStr.

(** ** Regular expressions

    [re.compile(p).match(s)] succeeds when some prefix of [s] is in the
    language of [p]; a validation by a regular expression (as Kubernetes
    does for object names) asks for the whole string.  Both are decided by
    Brzozowski derivatives, and the matcher is proved to agree with the
    usual inductive reading of a pattern. *)

Module Regex.

Inductive re : Type :=
| Void
| Eps
| Sym (p : ascii -> bool)
| Cat (r s : re)
| Alt (r s : re)
| Star (r : re).

(** [r?] *)
Definition Opt (r : re) : re := Alt Eps r.

(** A literal character, and [.], which in Python matches anything but a
    newline. *)
Definition Chr (c : ascii) : re := Sym (Ascii.eqb c).
Definition newline : ascii := ascii_of_nat 10.
Definition Dot : re := Sym (fun c => negb (Ascii.eqb c newline)).

Inductive matches : re -> string -> Prop :=
| MEps : matches Eps EmptyString
| MSym p c : p c = true -> matches (Sym p) (String c EmptyString)
| MCat r s a b : matches r a -> matches s b -> matches (Cat r s) (a ++ b)
| MAltL r s a : matches r a -> matches (Alt r s) a
| MAltR r s a : matches s a -> matches (Alt r s) a
| MStar0 r : matches (Star r) EmptyString
| MStarS r a b : matches r a -> matches (Star r) b -> matches (Star r) (a ++ b).

Fixpoint nullable (r : re) : bool :=
  match r with
  | Void => false
  | Eps => true
  | Sym _ => false
  | Cat r s => nullable r && nullable s
  | Alt r s => nullable r || nullable s
  | Star _ => true
  end.

Fixpoint deriv (c : ascii) (r : re) : re :=
  match r with
  | Void => Void
  | Eps => Void
  | Sym p => if p c then Eps else Void
  | Cat r s =>
      if nullable r then Alt (Cat (deriv c r) s) (deriv c s)
      else Cat (deriv c r) s
  | Alt r s => Alt (deriv c r) (deriv c s)
  | Star r => Cat (deriv c r) (Star r)
  end.

(** The whole string is in the language of [r]. *)
Fixpoint fullmatch (r : re) (s : string) : bool :=
  match s with
  | EmptyString => nullable r
  | String c s' => fullmatch (deriv c r) s'
  end.

(** Python's [re.match]: some prefix of the string is in the language. *)
Fixpoint prefix_match (r : re) (s : string) : bool :=
  nullable r
  || match s with
     | EmptyString => false
     | String c s' => prefix_match (deriv c r) s'
     end.

End Regex.

(** ** SHA-256

    [hashlib.sha256(data).hexdigest()], following FIPS 180-4 on 32-bit
    words kept in [Z].  The round constants and the initial hash value are
    the fractional parts of the cube and square roots of the first primes,
    computed here as the standard defines them. *)

Module Sha256.

Definition w32 (x : Z) : Z := x mod 2 ^ 32.

Definition add32 (x y : Z) : Z := w32 (x + y).

Definition rotr (n x : Z) : Z :=
  w32 (Z.lor (Z.shiftr x n) (Z.shiftl x (32 - n))).

Definition shr (n x : Z) : Z := Z.shiftr x n.

Definition not32 (x : Z) : Z := 2 ^ 32 - 1 - x.

Definition Ch (x y z : Z) : Z := Z.lxor (Z.land x y) (Z.land (not32 x) z).
Definition Maj (x y z : Z) : Z :=
  Z.lxor (Z.lxor (Z.land x y) (Z.land x z)) (Z.land y z).
Definition Sigma0 (x : Z) : Z :=
  Z.lxor (Z.lxor (rotr 2 x) (rotr 13 x)) (rotr 22 x).
Definition Sigma1 (x : Z) : Z :=
  Z.lxor (Z.lxor (rotr 6 x) (rotr 11 x)) (rotr 25 x).
Definition sigma0 (x : Z) : Z :=
  Z.lxor (Z.lxor (rotr 7 x) (rotr 18 x)) (shr 3 x).
Definition sigma1 (x : Z) : Z :=
  Z.lxor (Z.lxor (rotr 17 x) (rotr 19 x)) (shr 10 x).

(** The primes, by trial division. *)
Fixpoint has_divisor (n : Z) (ps : list Z) : bool :=
  match ps with
  | [] => false
  | p :: ps' => (n mod p =? 0) || has_divisor n ps'
  end.

Fixpoint primes_from (fuel : nat) (n : Z) (count : nat) (acc : list Z)
  : list Z :=
  match fuel, count with
  | O, _ => rev acc
  | _, O => rev acc
  | S fuel', S count' =>
      if has_divisor n acc then primes_from fuel' (n + 1) count acc
      else primes_from fuel' (n + 1) count' (n :: acc)
  end.

Definition first_primes (count : nat) : list Z :=
  primes_from 400 2 count [].

(** The integer cube root, by bisection on [lo <= root < hi]. *)
Fixpoint icbrt_between (fuel : nat) (n lo hi : Z) : Z :=
  match fuel with
  | O => lo
  | S fuel' =>
      if hi - lo <=? 1 then lo
      else
        let mid := (lo + hi) / 2 in
        if mid * mid * mid <=? n then icbrt_between fuel' n mid hi
        else icbrt_between fuel' n lo mid
  end.

Definition icbrt (n : Z) : Z := icbrt_between 64 n 0 (2 ^ 40).

(** First 32 bits of the fractional part of the cube root of each of the
    first 64 primes. *)
Definition K : list Z :=
  Eval vm_compute in
    map (fun p => w32 (icbrt (p * 2 ^ 96))) (first_primes 64).

(** First 32 bits of the fractional part of the square root of each of the
    first 8 primes. *)
Definition H0 : list Z :=
  Eval vm_compute in
    map (fun p => w32 (Z.sqrt (p * 2 ^ 64))) (first_primes 8).

Fixpoint bytes_of_string (s : string) : list Z :=
  match s with
  | EmptyString => []
  | String c r => Z.of_nat (nat_of_ascii c) :: bytes_of_string r
  end.

(** Big-endian bytes of [x], [n] of them. *)
Fixpoint be_bytes (n : nat) (x : Z) : list Z :=
  match n with
  | O => []
  | S k => (Z.shiftr x (8 * Z.of_nat k)) mod 256 :: be_bytes k x
  end.

(** Padding: a [1] bit, zeros up to 56 modulo 64 bytes, then the length
    in bits on 64 bits. *)
Definition pad (msg : list Z) : list Z :=
  let len := Z.of_nat (List.length msg) in
  let zeros := Z.to_nat ((55 - len) mod 64) in
  msg ++ [128] ++ repeat 0 zeros ++ be_bytes 8 (8 * len).

Fixpoint words_of_bytes (fuel : nat) (bs : list Z) : list Z :=
  match fuel, bs with
  | S fuel', a :: b :: c :: d :: rest =>
      (((a * 256 + b) * 256 + c) * 256 + d) :: words_of_bytes fuel' rest
  | _, _ => []
  end.

Fixpoint blocks (fuel : nat) (ws : list Z) : list (list Z) :=
  match fuel, ws with
  | S fuel', _ :: _ => firstn 16 ws :: blocks fuel' (skipn 16 ws)
  | _, _ => []
  end.

(** The message schedule: 16 words of the block, then 48 derived ones. *)
Fixpoint extend (n : nat) (ws : list Z) : list Z :=
  match n with
  | O => ws
  | S k =>
      let t := List.length ws in
      let at_ (i : nat) := nth (t - i) ws 0 in
      extend k
        (ws ++ [add32 (add32 (sigma1 (at_ 2%nat)) (at_ 7%nat))
                      (add32 (sigma0 (at_ 15%nat)) (at_ 16%nat))])
  end.

Definition schedule (block : list Z) : list Z := extend 48 block.

Record regs := Regs { ra : Z; rb : Z; rc : Z; rd : Z;
                      re : Z; rf : Z; rg : Z; rh : Z }.

Definition round (s : regs) (kw : Z * Z) : regs :=
  let (k, w) := kw in
  let t1 := add32 (add32 (add32 (rh s) (Sigma1 (re s)))
                         (add32 (Ch (re s) (rf s) (rg s)) k)) w in
  let t2 := add32 (Sigma0 (ra s)) (Maj (ra s) (rb s) (rc s)) in
  Regs (add32 t1 t2) (ra s) (rb s) (rc s) (add32 (rd s) t1)
       (re s) (rf s) (rg s).

Definition regs_of_list (l : list Z) : regs :=
  Regs (nth 0 l 0) (nth 1 l 0) (nth 2 l 0) (nth 3 l 0)
       (nth 4 l 0) (nth 5 l 0) (nth 6 l 0) (nth 7 l 0).

Definition list_of_regs (s : regs) : list Z :=
  [ra s; rb s; rc s; rd s; re s; rf s; rg s; rh s].

Definition compress (h : regs) (block : list Z) : regs :=
  let s := fold_left round (combine K (schedule block)) h in
  Regs (add32 (ra h) (ra s)) (add32 (rb h) (rb s))
       (add32 (rc h) (rc s)) (add32 (rd h) (rd s))
       (add32 (re h) (re s)) (add32 (rf h) (rf s))
       (add32 (rg h) (rg s)) (add32 (rh h) (rh s)).

Definition digest_words (msg : list Z) : list Z :=
  let padded := pad msg in
  let ws := words_of_bytes (List.length padded) padded in
  list_of_regs
    (fold_left compress (blocks (List.length ws) ws) (regs_of_list H0)).

Definition hex_digit (d : Z) : ascii :=
  if d <? 10 then ascii_of_nat (Z.to_nat (48 + d mod 16))
  else ascii_of_nat (Z.to_nat (87 + d mod 16)).

(** [n] lowercase hexadecimal digits of [x], most significant first. *)
Fixpoint hex (n : nat) (x : Z) : string :=
  match n with
  | O => EmptyString
  | S k => String (hex_digit ((Z.shiftr x (4 * Z.of_nat k)) mod 16)) (hex k x)
  end.

Fixpoint concat_hex (ws : list Z) : string :=
  match ws with
  | [] => EmptyString
  | x :: r => hex 8 x ++ concat_hex r
  end.

(** [hashlib.sha256(s.encode('utf-8')).hexdigest()] *)
Definition hexdigest (s : string) : string :=
  concat_hex (digest_words (bytes_of_string s)).

End Sha256.

(** ** Effects

    Python code that calls the outside world is written in a state monad
    over the state of its object, with Python exceptions as a result.  A
    coroutine that awaits something that never arrives is [Blocked]: it
    neither returns nor raises. *)

Inductive exn : Type :=
| StreamClosedError                         (* tornado.iostream *)
| Finish                                    (* tornado.web.Finish *)
| ClientHTTPError (code : Z) (response : option string)
                                            (* tornado.httpclient.HTTPError *)
| WebHTTPError (status : Z) (message : string)
                                            (* tornado.web.HTTPError *)
| NameError (name : string)
| UnboundLocalError (name : string)
| IndexError
| TypeError (what : string)
| AttributeError (what : string)
| JSONDecodeError
| ImageNotFound                             (* docker.errors *)
| OtherError (what : string).

Inductive res (A : Type) : Type :=
| Ret (a : A)
| Raise (e : exn)
| Blocked.

Arguments Ret {A} a.
Arguments Raise {A} e.
Arguments Blocked {A}.

Definition M (S A : Type) : Type := S -> res A * S.

Definition ret {S A} (a : A) : M S A := fun s => (Ret a, s).

Definition raise {S A} (e : exn) : M S A := fun s => (Raise e, s).

Definition blocked {S A} : M S A := fun s => (Blocked, s).

Definition bind {S A B} (m : M S A) (k : A -> M S B) : M S B :=
  fun s =>
    match m s with
    | (Ret a, s') => k a s'
    | (Raise e, s') => (Raise e, s')
    | (Blocked, s') => (Blocked, s')
    end.

(** [try: m except: h] *)
Definition try_except {S A} (m : M S A) (h : exn -> M S A) : M S A :=
  fun s =>
    match m s with
    | (Raise e, s') => h e s'
    | r => r
    end.

(** [try: m finally: f], also the exit of a context manager: [f] runs
    when [m] returns and when it raises. *)
Definition finally {S A} (m : M S A) (f : M S unit) : M S A :=
  fun s =>
    match m s with
    | (Ret a, s') =>
        match f s' with
        | (Ret _, s'') => (Ret a, s'')
        | (Raise e, s'') => (Raise e, s'')
        | (Blocked, s'') => (Blocked, s'')
        end
    | (Raise e, s') =>
        match f s' with
        | (Ret _, s'') => (Raise e, s'')
        | (Raise e', s'') => (Raise e', s'')
        | (Blocked, s'') => (Blocked, s'')
        end
    | (Blocked, s') => (Blocked, s')
    end.

Definition get_state {S} : M S S := fun s => (Ret s, s).

Definition modify {S} (f : S -> S) : M S unit := fun s => (Ret tt, f s).

Declare Scope py_scope.
Delimit Scope py_scope with py.
Notation "x <- m ;; k" := (bind m (fun x => k))
  (at level 61, m at next level, right associativity) : py_scope.
Notation "m ;;; k" := (bind m (fun _ => k))
  (at level 61, right associativity) : py_scope.
Local Open Scope py_scope.

(** ** [binderhub/launcher.py] *)

Module Launcher.

Import PyStr.

(** [_ssh_repo_pat = re.compile(r'.*@.*\:')] *)
Definition _ssh_repo_pat : Regex.re :=
  Regex.Cat (Regex.Star Regex.Dot)
    (Regex.Cat (Regex.Chr "@")
       (Regex.Cat (Regex.Star Regex.Dot) (Regex.Chr ":"))).

(** [string.ascii_lowercase + string.digits] *)
Definition SUFFIX_CHARS : string := "abcdefghijklmnopqrstuvwxyz0123456789".
Definition SUFFIX_LENGTH : nat := 8.

Definition char_at (s : string) (i : nat) : ascii :=
  match String.get i s with
  | Some c => c
  | None => "a"%char
  end.

(** [random.choices(population, k=k)]: [k] draws with replacement.  The
    random source is [draw]: its [i]-th value, reduced modulo the size of
    the population, is the index drawn. *)
Fixpoint choices_from (population : string) (draw : nat -> nat) (i k : nat)
  : string :=
  match k with
  | O => EmptyString
  | S k' =>
      String (char_at population (draw i mod String.length population))
             (choices_from population draw (S i) k')
  end.

Definition choices (population : string) (draw : nat -> nat) (k : nat)
  : string :=
  choices_from population draw 0 k.

Definition is_slash (c : ascii) : bool := Ascii.eqb c "/".

(** [Launcher.username_from_repo].  [urlparse_path repo] stands for
    [urlparse(repo).path] of the standard library. *)
Definition username_from_repo
    (urlparse_path : string -> string) (draw : nat -> nat) (repo : string)
  : res string :=
  match
    (if negb (contains "://" repo) && Regex.prefix_match _ssh_repo_pat repo
     then
       (* repo.split(':', 1)[1] *)
       match split1 ":" repo with
       | Some (_, rest) => Ret rest
       | None => Raise IndexError
       end
     else Ret (urlparse_path repo))
  with
  | Ret path =>
      let prefix := lower (replace_char "/" "-" (strip is_slash path)) in
      let prefix :=
        if endswith ".git" prefix then slice_to prefix (-4) else prefix in
      let prefix :=
        if (32 <? String.length prefix)%nat
        then slice_to prefix 15 ++ "-" ++ slice_from prefix (-15)
        else prefix in
      Ret (prefix ++ "-" ++ choices SUFFIX_CHARS draw SUFFIX_LENGTH)
  | Raise e => Raise e
  | Blocked => Blocked
  end.

(** *** The token *)

(** [uuid.UUID(bytes=os.urandom(16), version=4).int], as CPython's
    [uuid.py] sets the variant and version fields; [r] is the integer of
    the sixteen random bytes. *)
Definition uuid4_int (r : Z) : Z :=
  let i := r mod 2 ^ 128 in
  let i := Z.land i (Z.lnot (Z.shiftl 0xc000 48)) in
  let i := Z.lor i (Z.shiftl 0x8000 48) in
  let i := Z.land i (Z.lnot (Z.shiftl 0xf000 64)) in
  Z.lor i (Z.shiftl 4 76).

(** [UUID.bytes]: the integer on sixteen bytes, most significant first. *)
Definition uuid_bytes (i : Z) : list Z := Sha256.be_bytes 16 i.

Definition b64url_alphabet : string :=
  "ABCDEFGHIJKLMNOPQRSTUVWXYZabcdefghijklmnopqrstuvwxyz0123456789-_".

Definition b64_char (n : Z) : ascii :=
  char_at b64url_alphabet (Z.to_nat (n mod 64)).

(** [base64.urlsafe_b64encode]. *)
Fixpoint urlsafe_b64encode (bs : list Z) : string :=
  match bs with
  | [] => EmptyString
  | [a] =>
      String (b64_char (Z.shiftr a 2))
        (String (b64_char (Z.shiftl (Z.land a 3) 4)) "==")
  | [a; b] =>
      String (b64_char (Z.shiftr a 2))
        (String (b64_char (Z.lor (Z.shiftl (Z.land a 3) 4) (Z.shiftr b 4)))
           (String (b64_char (Z.shiftl (Z.land b 15) 2)) "="))
  | a :: b :: c :: rest =>
      String (b64_char (Z.shiftr a 2))
        (String (b64_char (Z.lor (Z.shiftl (Z.land a 3) 4) (Z.shiftr b 4)))
           (String (b64_char (Z.lor (Z.shiftl (Z.land b 15) 2) (Z.shiftr c 6)))
              (String (b64_char (Z.land c 63)) (urlsafe_b64encode rest))))
  end.

Definition is_pad (c : ascii) : bool :=
  Ascii.eqb c "=" || Ascii.eqb c Regex.newline.

(** [base64.urlsafe_b64encode(u.bytes).decode('ascii').rstrip('=\n')] for
    the UUID of integer [i]. *)
Definition token_of_uuid (i : Z) : string :=
  rstrip is_pad (urlsafe_b64encode (uuid_bytes i)).

(** The token [Launcher.launch] mints, from the random bytes [r]. *)
Definition mint_token (r : Z) : string := token_of_uuid (uuid4_int r).

(** *** The hub API *)

Inductive method : Type := GET | POST | DELETE.

Inductive body : Type :=
| NoBody
| EmptyBody                                  (* b'' *)
| JsonBody (fields : list (string * string)). (* json.dumps({...}) *)

Record request : Type := Request {
  req_url : string;
  req_method : method;
  req_authorization : string;
  req_body : body
}.

(** What [AsyncHTTPClient().fetch] does with a request: a response, or
    [HTTPError] (with or without a response). *)
Inductive reply : Type :=
| Response (code : Z) (resp_body : string)
| FetchError (code : Z) (response : option string).

(** The launcher's configuration and its outside world: the hub answers
    the [n]-th request of a launch by [hub n request]; [abort_future] is
    the future the caller passed ([None] when it passed none), read as
    "done when [n] requests have been made"; [urandom] is the integer of
    the sixteen bytes [os.urandom] returns to [uuid4]. *)
Record world : Type := World {
  hub_api_token : string;
  hub_url : string;
  hub : nat -> request -> reply;
  abort_future : option (nat -> bool);
  urandom : Z
}.

(** The requests made so far, oldest first. *)
Definition state : Type := list request.

Section WithWorld.

Variable w : world.

(** [Launcher.api_request] *)
Definition api_request (url : string) (m : method) (b : body)
  : M state reply :=
  fun calls =>
    let req := Request (hub_url w ++ "hub/api/" ++ url) m
                       ("token " ++ hub_api_token w) b in
    match hub w (List.length calls) req with
    | Response code resp_body =>
        (Ret (Response code resp_body), (calls ++ [req])%list)
    | FetchError code response =>
        (Raise (ClientHTTPError code response), (calls ++ [req])%list)
    end.

Definition code_of (r : reply) : Z :=
  match r with
  | Response code _ => code
  | FetchError code _ => code
  end.

(** [Launcher.abort_launch].  When the hub answers 202 the source calls
    [exponential_backoff(check, fail_message=... % (image, username),
    timeout=self.settings.get(...))]: [exponential_backoff] is neither
    imported nor defined in the module and [image] is no name in scope
    of this method, so evaluating the call raises [NameError] before
    [check] ever runs. *)
Definition abort_launch (username : string) (server : bool)
  : M state unit :=
  (if server then
     resp <- api_request ("users/" ++ username ++ "/server") DELETE NoBody ;;
     if code_of resp =? 202
     then raise (NameError "exponential_backoff")
     else ret tt
   else ret tt) ;;;
  api_request ("users/" ++ username) DELETE NoBody ;;;
  ret tt.

(** [should_abort()]: [abort_future and abort_future.done()] *)
Definition should_abort : M state bool :=
  fun calls =>
    match abort_future w with
    | Some done => (Ret (done (List.length calls)), calls)
    | None => (Ret false, calls)
    end.

(** [Launcher.launch]: [Ret None] is the bare [return] of an aborted
    launch, [Ret (Some info)] the dictionary with [url] and [token]. *)
Definition launch (image username : string)
  : M state (option (list (string * string))) :=
  try_except
    (api_request ("users/" ++ username) POST EmptyBody ;;; ret tt)
    (fun e =>
       match e with
       | ClientHTTPError _ _ =>
           raise (WebHTTPError 500
                    ("Failed to create temporary user for " ++ image))
       | _ => raise e
       end) ;;;
  abort <- should_abort ;;
  if abort : bool then
    abort_launch username false ;;; ret None
  else
    let token := mint_token (urandom w) in
    try_except
      (resp <- api_request ("users/" ++ username ++ "/server") POST
                 (JsonBody [("token", token); ("image", image)]) ;;
       if code_of resp =? 202
       then raise (NameError "exponential_backoff")
       else ret tt)
      (fun e =>
         match e with
         | ClientHTTPError _ _ =>
             raise (WebHTTPError 500 ("Failed to launch image " ++ image))
         | _ => raise e
         end) ;;;
    abort <- should_abort ;;
    if abort : bool then
      abort_launch username true ;;; ret None
    else
      ret (Some [("url", hub_url w ++ "user/" ++ username ++ "/");
                 ("token", token)]).

End WithWorld.

End Launcher.

(** ** [binderhub/builder.py] *)

Module BuildHandler.

Import PyStr.

(** The one-character string of a line feed. *)
Definition nl : string := String Regex.newline EmptyString.

(** *** Names *)

(** [BuildHandler._generate_build_name] *)
Definition _generate_build_name
    (build_slug ref : string) (limit hash_length ref_length : Z) : string :=
  let build_slug_hash := Sha256.hexdigest build_slug in
  lower (slice_to build_slug (limit - hash_length - ref_length - 2)
         ++ "-" ++ slice_to build_slug_hash hash_length
         ++ "-" ++ slice_to ref ref_length).

(** The build name as [get] computes it, with the default limits. *)
Definition build_name_of (build_slug ref : string) : string :=
  replace_char "_" "-" (_generate_build_name build_slug ref 63 6 6).

(** The image name as [get] computes it. *)
Definition image_name_of (prefix build_slug ref : string) : string :=
  lower (replace_char "_" "-" (prefix ++ build_slug ++ ":" ++ ref)).

(** The Kubernetes name validation pattern quoted in the docstring of
    [_generate_build_name]:
    [[a-z0-9]([-a-z0-9]*[a-z0-9])?(\.[a-z0-9]([-a-z0-9]*[a-z0-9])?)*] *)
Definition alnum : Regex.re :=
  Regex.Sym (fun c => is_lower c || is_digit c).
Definition alnum_dash : Regex.re :=
  Regex.Sym (fun c => Ascii.eqb c "-" || is_lower c || is_digit c).
Definition dns_label : Regex.re :=
  Regex.Cat alnum (Regex.Opt (Regex.Cat (Regex.Star alnum_dash) alnum)).
Definition k8s_name_pat : Regex.re :=
  Regex.Cat dns_label (Regex.Star (Regex.Cat (Regex.Chr ".") dns_label)).

(** *** Data *)

(** A JSON value held in a dictionary: a scalar, or an array or object
    kept as its text. *)
Inductive json : Type :=
| JNull
| JBool (b : bool)
| JNum (n : Z)
| JStr (s : string)
| JNested (text : string).

Definition dict : Type := list (string * json).

(** What [json.loads] returns: an object by its members, or a value that
    is no object. *)
Inductive parsed : Type :=
| Object (d : dict)
| NotObject (j : json).

(** What [emit] is given: a dictionary, or a string that is already
    serialised. *)
Inductive data : Type :=
| Dict (d : dict)
| Str (s : string).

(** One write on the response body: ['data: {}\n\n'.format(serialized)]
    or the comment [':keepalive\n\n']. *)
Inductive frame : Type :=
| DataFrame (d : data)
| KeepaliveFrame.

(** An item of the progress queue: a dictionary with [kind] and
    [payload]. *)
Record progress : Type := Progress {
  kind : string;
  payload : string
}.

Inductive gauge : Type := BUILDS_INPROGRESS | LAUNCHES_INPROGRESS.
Inductive histogram : Type := BUILD_TIME | LAUNCH_TIME.
Inductive status : Type := success | failure.

(** The two methods of a build handed to the pool. *)
Inductive job : Type := submit | stream_logs.

(** The arguments [BuildClass(...)] is constructed with; [b_fake] tells
    [FakeBuild] from [Build]. *)
Record build : Type := Build {
  b_fake : bool;
  b_name : string;
  b_namespace : string;
  b_git_url : string;
  b_ref : string;
  b_image_name : string;
  b_push_secret : option string;
  b_builder_image : string
}.

(** What a request does to the outside, newest first in [events]. *)
Inductive action : Type :=
| SetHeader (name value : string)
| SpawnKeepAlive
| Sent (f : frame)               (* written and flushed to the client *)
| StreamClosed (f : frame)       (* the write met StreamClosedError *)
| RegistryLookup (repo tag : string)
| DockerLookup (image : string)
| NewQueue
| NewBuild (b : build)
| PoolSubmit (j : job)
| Inc (g : gauge)
| Dec (g : gauge)
| Observe (h : histogram) (st : status)
| HubRequest (r : Launcher.request)
| SendError (status_code : Z)
| OnFinish.

Record provider : Type := Provider {
  get_repo_url : string;
  get_build_slug : string;
  get_resolved_ref : res (option string)
}.

Record settings : Type := Settings {
  repo_providers : list string;
  use_registry : bool;
  docker_image_prefix : string;
  docker_push_secret : string;
  build_namespace : string;
  builder_image_spec : string;
  fake_build : bool
}.

(** The configuration and the outside world of one request.
    - [get_provider prefix spec]: [BaseHandler.get_provider];
    - [get_image_manifest repo tag]: the registry's answer ([None] or a
      manifest, a JSON object given by its members);
    - [docker_images_get image]: [docker_client.images.get];
    - [queue]: the items [q.get()] delivers, in order; after the last one
      [q.get()] never completes;
    - [json_loads]: [json.loads] of the standard library;
    - [closes_after]: [Some n] when the client connection is gone once
      [n] frames have been flushed, [None] when it stays open;
    - [launcher]: [settings['launcher']], with the hub behind it;
    - [urlparse_path], [draw]: [urlparse(_).path] and the random source
      of [Launcher.username_from_repo];
    - [extract_message], [responses]: [BaseHandler.extract_message] and
      [http.client.responses], read by [send_error]. *)
Record world : Type := World {
  config : settings;
  get_provider : string -> string -> res provider;
  get_image_manifest : string -> string -> res (option dict);
  docker_images_get : string -> res unit;
  queue : list progress;
  json_loads : string -> res parsed;
  closes_after : option nat;
  launcher : Launcher.world;
  urlparse_path : string -> string;
  draw : nat -> nat;
  extract_message : exn -> string;
  responses : Z -> option string
}.

(** The handler object and the process-wide gauges. *)
Record state : Type := State {
  _keepalive : option bool;       (* [None]: the attribute is not set *)
  _build_finished : bool;
  _abort_launch : option bool;    (* [None], or a future and whether it is done *)
  repo : option string;
  image_name : option string;
  flushed : nat;
  inprogress_builds : Z;
  inprogress_launches : Z;
  events : list action
}.

Definition initial : state :=
  State None false None None None 0 0 0 [].

(** The actions of a request, oldest first. *)
Definition trace (s : state) : list action := rev (events s).

(** The state after one more action. *)
Definition push (a : action) (s : state) : state :=
  State (_keepalive s) (_build_finished s) (_abort_launch s) (repo s)
        (image_name s) (flushed s) (inprogress_builds s)
        (inprogress_launches s) (a :: events s).

(** The state after a frame reached the client. *)
Definition delivered (f : frame) (s : state) : state :=
  State (_keepalive s) (_build_finished s) (_abort_launch s) (repo s)
        (image_name s) (S (flushed s)) (inprogress_builds s)
        (inprogress_launches s) (Sent f :: events s).

Definition record (a : action) : M state unit := modify (push a).

Definition set_keepalive (b : bool) : M state unit :=
  modify (fun s =>
    State (Some b) (_build_finished s) (_abort_launch s) (repo s)
          (image_name s) (flushed s) (inprogress_builds s)
          (inprogress_launches s) (events s)).

Definition set_build_finished (b : bool) : M state unit :=
  modify (fun s =>
    State (_keepalive s) b (_abort_launch s) (repo s)
          (image_name s) (flushed s) (inprogress_builds s)
          (inprogress_launches s) (events s)).

Definition set_abort_launch (f : option bool) : M state unit :=
  modify (fun s =>
    State (_keepalive s) (_build_finished s) f (repo s)
          (image_name s) (flushed s) (inprogress_builds s)
          (inprogress_launches s) (events s)).

Definition set_repo (r : string) : M state unit :=
  modify (fun s =>
    State (_keepalive s) (_build_finished s) (_abort_launch s) (Some r)
          (image_name s) (flushed s) (inprogress_builds s)
          (inprogress_launches s) (events s)).

Definition set_image_name (i : string) : M state unit :=
  modify (fun s =>
    State (_keepalive s) (_build_finished s) (_abort_launch s) (repo s)
          (Some i) (flushed s) (inprogress_builds s)
          (inprogress_launches s) (events s)).

Definition add_gauge (g : gauge) (d : Z) : M state unit :=
  modify (fun s =>
    match g with
    | BUILDS_INPROGRESS =>
        State (_keepalive s) (_build_finished s) (_abort_launch s) (repo s)
              (image_name s) (flushed s) (inprogress_builds s + d)
              (inprogress_launches s) (events s)
    | LAUNCHES_INPROGRESS =>
        State (_keepalive s) (_build_finished s) (_abort_launch s) (repo s)
              (image_name s) (flushed s) (inprogress_builds s)
              (inprogress_launches s + d) (events s)
    end).

(** A result obtained from the outside world. *)
Definition call {A} (r : res A) : M state A := fun s => (r, s).

(** [with g.track_inprogress(): body] *)
Definition track_inprogress {A} (g : gauge) (body : M state A) : M state A :=
  add_gauge g 1 ;;; record (Inc g) ;;;
  finally body (add_gauge g (-1) ;;; record (Dec g)).

(** [h.labels(status=st).observe(time.perf_counter() - start)] *)
Definition observe (h : histogram) (st : status) : M state unit :=
  record (Observe h st).

Section WithWorld.

Variable w : world.

(** *** The event stream *)

Definition stream_open (s : state) : bool :=
  match closes_after w with
  | Some n => (flushed s <? n)%nat
  | None => true
  end.

(** [self.write(f); await self.flush()] *)
Definition write_flush (f : frame) : M state unit :=
  fun s =>
    if stream_open s then (Ret tt, delivered f s)
    else (Raise StreamClosedError, push (StreamClosed f) s).

(** [BuildHandler.emit] *)
Definition emit (d : data) : M state unit :=
  try_except (write_flush (DataFrame d))
    (fun e =>
       match e with
       | StreamClosedError => raise Finish
       | _ => raise e
       end).

(** [BuildHandler.on_finish] *)
Definition on_finish : M state unit :=
  record OnFinish ;;;
  set_keepalive false ;;;
  set_build_finished true ;;;
  s <- get_state ;;
  match _abort_launch s with
  | Some _ => set_abort_launch (Some true)
  | None => ret tt
  end.

(** The start of [BuildHandler.keep_alive]: [self._keepalive = True]. *)
Definition keep_alive_start : M state unit := set_keepalive true.

(** One turn of the loop of [keep_alive], after the sleep: [Ret true]
    when the loop goes on, [Ret false] when the coroutine returns. *)
Definition keep_alive_turn : M state bool :=
  s <- get_state ;;
  match _keepalive s with
  | Some true =>
      try_except (write_flush KeepaliveFrame ;;; ret true)
        (fun e =>
           match e with
           | StreamClosedError => ret false
           | _ => raise e
           end)
  | Some false => ret false
  | None => raise (AttributeError "_keepalive")
  end.

(** [BuildHandler.send_error] *)
Definition send_error (status_code : Z) (exc_info : option exn)
  : M state unit :=
  let message :=
    match exc_info with
    | Some e => extract_message w e
    | None => EmptyString
    end in
  let message :=
    if is_empty message then
      match responses w status_code with
      | Some m => m
      | None => "Unknown HTTP Error"
      end
    else message in
  record (SendError status_code) ;;;
  try_except
    (write_flush
       (DataFrame (Dict [("phase", JStr "failed");
                         ("status_code", JNum status_code);
                         ("message", JStr (message ++ nl))])))
    (fun _ => ret tt) ;;;
  on_finish.

(** [BuildHandler.fail] *)
Definition fail (message : string) : M state unit :=
  emit (Dict [("phase", JStr "failed"); ("message", JStr (message ++ nl))]).

(** ['%d' % n] *)
Definition decimal (n : Z) : string := NilZero.string_of_int (Z.to_int n).

(** [str(e)] for an [HTTPError] of tornado: ["HTTP %d: %s"] of the
    status and of its reason phrase in [table], which stands for
    [httputil.responses] (it is [http.client.responses]); [Unknown] when
    the status has none. *)
Definition http_error_line (table : Z -> option string) (status : Z)
  : string :=
  "HTTP " ++ decimal status ++ ": "
  ++ match table status with
     | Some reason => reason
     | None => "Unknown"
     end.

(** [str(e)] of an exception, for the messages of [fail]; [table] is
    [http.client.responses].
    - [tornado.web.HTTPError(status, message)], made without [reason] and
      without arguments for the message: the line above, followed by the
      message in parentheses when there is one;
    - [tornado.httpclient.HTTPError(code, response=...)], made without a
      message: the line above;
    - [Finish()] and [StreamClosedError()]: the empty text, and the text
      tornado gives the latter;
    - [TypeError(message)]: the message;
    - the other exceptions: the text CPython gives them where the
      interpreter raises them; for an exception that comes from elsewhere
      the text is not known from what the model keeps of it. *)
Definition str_of_exn (table : Z -> option string) (e : exn) : string :=
  match e with
  | WebHTTPError status m =>
      if is_empty m then http_error_line table status
      else http_error_line table status ++ " (" ++ m ++ ")"
  | ClientHTTPError code _ => http_error_line table code
  | NameError n => "name '" ++ n ++ "' is not defined"
  | UnboundLocalError n => "local variable '" ++ n ++ "' referenced before assignment"
  | TypeError m | AttributeError m | OtherError m => m
  | StreamClosedError => "Stream is closed"
  | Finish => EmptyString
  | IndexError => "list index out of range"
  | JSONDecodeError => "Expecting value"
  | ImageNotFound => "image not found"
  end.

(** *** Launch *)

(** [d.update(other)] on dictionaries kept as association lists. *)
Fixpoint dict_set (k : string) (v : json) (d : dict) : dict :=
  match d with
  | [] => [(k, v)]
  | (k', v') :: r =>
      if String.eqb k k' then (k, v) :: r else (k', v') :: dict_set k v r
  end.

Fixpoint dict_update (d other : dict) : dict :=
  match other with
  | [] => d
  | (k, v) :: r => dict_update (dict_set k v d) r
  end.

(** [d[k]] of a dictionary with string values. *)
Fixpoint lookup (k : string) (d : list (string * string)) : option string :=
  match d with
  | [] => None
  | (k', v) :: r => if String.eqb k k' then Some v else lookup k r
  end.

Definition launching_frame : data :=
  Dict [("phase", JStr "launching");
        ("message", JStr ("Launching server..." ++ nl))].

(** [launcher.launch(image=..., username=..., abort_future=self._abort_launch)]:
    the launcher reads the handler's future, and its requests to the hub
    are recorded in the order it makes them. *)
Definition launcher_launch (image username : string)
  : M state (option (list (string * string))) :=
  fun s =>
    let done :=
      match _abort_launch s with
      | Some d => Some (fun _ : nat => d)
      | None => None
      end in
    let lw := Launcher.World (Launcher.hub_api_token (launcher w))
                (Launcher.hub_url (launcher w)) (Launcher.hub (launcher w))
                done (Launcher.urandom (launcher w)) in
    let (r, calls) := Launcher.launch lw image username [] in
    (r, fold_left (fun s' c => push (HubRequest c) s') calls s).

Definition attribute {A} (name : string) (v : option A) : M state A :=
  match v with
  | Some a => ret a
  | None => raise (AttributeError name)
  end.

(** The [try] block of [launch] with its bare [except]: [Ret None] is
    the [return] of an aborted launch, [Ret (Some server_info)] the fall
    through. *)
Definition launch_try (s : state) (username : string)
  : M state (option (option (list (string * string)))) :=
  try_except
    (image <- attribute "image_name" (image_name s) ;;
     server_info <- launcher_launch image username ;;
     s' <- get_state ;;
     if match _abort_launch s' with Some d => d | None => false end
     then ret None
     else observe LAUNCH_TIME success ;;; ret (Some server_info))
    (fun e => observe LAUNCH_TIME failure ;;; raise e).

(** [BuildHandler.launch] *)
Definition launch : M state unit :=
  emit launching_frame ;;;
  s <- get_state ;;
  repo_url <- attribute "repo" (repo s) ;;
  username <- call (Launcher.username_from_repo
                      (urlparse_path w) (draw w) repo_url) ;;
  set_abort_launch (Some false) ;;;
  r <- launch_try s username ;;
  match r with
  | None => ret tt
  | Some None => raise (TypeError "'NoneType' object is not subscriptable")
  | Some (Some server_info) =>
      match lookup "url" server_info with
      | None => raise (OtherError "KeyError: 'url'")
      | Some url =>
          emit (Dict (dict_update
                  [("phase", JStr "ready");
                   ("message", JStr ("server running at " ++ url ++ nl))]
                  (map (fun kv => (fst kv, JStr (snd kv))) server_info)))
      end
  end.

(** *** The consume loop of the build *)

Definition built_frame (image : string) : data :=
  Dict [("phase", JStr "built");
        ("message", JStr ("Built image, launching..." ++ nl));
        ("imageName", JStr image)].

(** [payload.get('phase', None) == 'failure'] on what [json.loads] gave:
    the last member named [phase] counts, as in a Python dictionary. *)
Fixpoint member (k : string) (d : dict) : option json :=
  match d with
  | [] => None
  | (k', v) :: r =>
      match member k r with
      | Some v' => Some v'
      | None => if String.eqb k k' then Some v else None
      end
  end.

Definition phase_is_failure (j : parsed) : res bool :=
  match j with
  | Object d =>
      match member "phase" d with
      | Some (JStr p) => Ret (String.eqb p "failure")
      | _ => Ret false
      end
  | NotObject _ => Raise (AttributeError "get")
  end.

(** The [while not done] loop of [get], on the items the queue will
    deliver.  [log_future] tells whether the log stream was started,
    [failed] is the flag of the same name, [event] the local variable of
    that name ([None] while unbound).  The result is [failed] at the exit
    of the loop. *)
Fixpoint consume (image : string) (items : list progress)
    (log_future failed : bool) (event : option data) : M state bool :=
  match items with
  | [] => blocked
  | p :: rest =>
      if String.eqb (kind p) "pod.phasechange" then
        if String.eqb (payload p) "Pending" then
          consume image rest log_future failed event
        else if String.eqb (payload p) "Deleted" then
          emit (built_frame image) ;;; ret failed
        else if String.eqb (payload p) "Running" then
          (if log_future then ret tt else record (PoolSubmit stream_logs)) ;;;
          consume image rest true failed event
        else if String.eqb (payload p) "Succeeded" then
          consume image rest log_future failed event
        else
          let ev := Dict [("phase", JStr (payload p))] in
          emit ev ;;; consume image rest log_future failed (Some ev)
      else if String.eqb (kind p) "log" then
        let ev := Str (payload p) in
        parsed <- call (json_loads w (payload p)) ;;
        is_failure <- call (phase_is_failure parsed) ;;
        (if is_failure : bool then observe BUILD_TIME failure else ret tt) ;;;
        emit ev ;;;
        consume image rest log_future (failed || is_failure) (Some ev)
      else
        match event with
        | None => raise (UnboundLocalError "event")
        | Some ev =>
            emit ev ;;; consume image rest log_future failed event
        end
  end.

(** *** The request *)

Definition found_frame (image : string) : data :=
  Dict [("phase", JStr "built");
        ("imageName", JStr image);
        ("message", JStr ("Found built image, launching..." ++ nl))].

Definition waiting_frame : data :=
  Dict [("phase", JStr "waiting");
        ("message", JStr ("Waiting for build to start..." ++ nl))].

(** Lines 175-188 of [get]: is the image already there? *)
Definition image_found (image : string) : M state bool :=
  if use_registry (config w) then
    (* image_name.split('/', 1)[1].split(':', 1) *)
    match split1 "/" image with
    | None => raise IndexError
    | Some (_, rest) =>
        match split1 ":" rest with
        | None =>
            raise (TypeError "get_image_manifest() missing 1 required positional argument")
        | Some (repo_name, tag) =>
            record (RegistryLookup repo_name tag) ;;;
            manifest <- call (get_image_manifest w repo_name tag) ;;
            ret (match manifest with
                 | Some (_ :: _) => true
                 | _ => false
                 end)
        end
    end
  else
    record (DockerLookup image) ;;;
    try_except (call (docker_images_get w image) ;;; ret true)
      (fun e =>
         match e with
         | ImageNotFound => ret false
         | _ => raise e
         end).

(** Lines 199-277 of [get]: build, then launch. *)
Definition build_and_launch (build_name image repo_url ref : string)
  : M state unit :=
  record NewQueue ;;;
  let push_secret :=
    if use_registry (config w) then Some (docker_push_secret (config w))
    else None in
  record (NewBuild (Build (fake_build (config w)) build_name
                      (build_namespace (config w)) repo_url ref image
                      push_secret (builder_image_spec (config w)))) ;;;
  failed <- track_inprogress BUILDS_INPROGRESS
              (record (PoolSubmit submit) ;;;
               emit waiting_frame ;;;
               consume image (queue w) false false None) ;;
  if failed : bool then ret tt
  else
    observe BUILD_TIME success ;;;
    track_inprogress LAUNCHES_INPROGRESS launch.

(** [BuildHandler.get] *)
Definition get (provider_prefix spec : string) : M state unit :=
  record (SetHeader "content-type" "text/event-stream") ;;;
  record (SetHeader "cache-control" "no-cache") ;;;
  if negb (List.existsb (String.eqb provider_prefix)
             (repo_providers (config w)))
  then fail ("No provider found for prefix " ++ provider_prefix)
  else
    record SpawnKeepAlive ;;; keep_alive_start ;;;
    let key := provider_prefix ++ ":" ++ spec in
    p <- try_except
           (p <- call (get_provider w provider_prefix spec) ;; ret (Some p))
           (fun e => fail (str_of_exn (responses w) e) ;;; ret None) ;;
    match p with
    | None => ret tt
    | Some p =>
        set_repo (get_repo_url p) ;;;
        r <- try_except
               (r <- call (get_resolved_ref p) ;; ret (Some r))
               (fun e =>
                  fail ("Error resolving ref for " ++ key ++ ": "
                        ++ str_of_exn (responses w) e) ;;; ret None) ;;
        match r with
        | None => ret tt
        | Some None =>
            fail ("Could not resolve ref for " ++ key
                  ++ ". Double check your URL.")
        | Some (Some ref) =>
            let build_name := build_name_of (get_build_slug p) ref in
            let image :=
              image_name_of (docker_image_prefix (config w))
                            (get_build_slug p) ref in
            set_image_name image ;;;
            found <- image_found image ;;
            if found : bool then
              emit (found_frame image) ;;;
              launch
            else
              build_and_launch build_name image (get_repo_url p) ref
        end
    end.

(** What [tornado.web.RequestHandler] does around [get]: when [get]
    returns, or raises [Finish], the request is finished and [on_finish]
    runs; any other exception goes to [send_error], with the status of a
    [tornado.web.HTTPError] and 500 otherwise. *)
Definition execute (provider_prefix spec : string) : M state unit :=
  fun s =>
    match get provider_prefix spec s with
    | (Ret _, s') => on_finish s'
    | (Raise Finish, s') => on_finish s'
    | (Raise (WebHTTPError code m), s') =>
        send_error code (Some (WebHTTPError code m)) s'
    | (Raise e, s') => send_error 500 (Some e) s'
    | (Blocked, s') => (Blocked, s')
    end.

End WithWorld.

End BuildHandler.

(** ** Scenarios and readings

    Concrete worlds the properties below are evaluated on, and the
    readings of the specification that the code is compared with. *)

Module Scenario.

Import PyStr.

(** The username prefix as the specification words it for an ssh
    repository: the text after the first colon, lowercased, slashes
    replaced by hyphens, a trailing [.git] removed, shortened when longer
    than 32 characters. *)
Definition strip_dot_git (p : string) : string :=
  if endswith ".git" p then slice_to p (-4) else p.

Definition shorten (p : string) : string :=
  if (32 <? String.length p)%nat
  then slice_to p 15 ++ "-" ++ slice_from p (-15)
  else p.

Definition prefix_as_claimed (after_colon : string) : string :=
  shorten (strip_dot_git (replace_char "/" "-" (lower after_colon))).

(** The same, with leading and trailing slashes removed first. *)
Definition prefix_of_path (path : string) : string :=
  shorten (strip_dot_git
             (replace_char "/" "-" (lower (strip Launcher.is_slash path)))).

(** The two requests of a teardown. *)
Definition delete_server (w : Launcher.world) (username : string)
  : Launcher.request :=
  Launcher.Request
    (Launcher.hub_url w ++ "hub/api/" ++ "users/" ++ username ++ "/server")
    Launcher.DELETE ("token " ++ Launcher.hub_api_token w) Launcher.NoBody.

Definition delete_user (w : Launcher.world) (username : string)
  : Launcher.request :=
  Launcher.Request
    (Launcher.hub_url w ++ "hub/api/" ++ "users/" ++ username)
    Launcher.DELETE ("token " ++ Launcher.hub_api_token w) Launcher.NoBody.

(** A hub that answers 202 to the first request and 204 to the others. *)
Definition hub_accepts_first (n : nat) (_ : Launcher.request)
  : Launcher.reply :=
  match n with
  | O => Launcher.Response 202 EmptyString
  | S _ => Launcher.Response 204 EmptyString
  end.

(** A hub that creates the user and the server at once (201), and
    answers 202 to every later request. *)
Definition hub_slow_to_stop (n : nat) (_ : Launcher.request)
  : Launcher.reply :=
  match n with
  | 0%nat | 1%nat => Launcher.Response 201 EmptyString
  | _ => Launcher.Response 202 EmptyString
  end.

(** A hub that answers 201 to everything. *)
Definition hub_ready (n : nat) (_ : Launcher.request) : Launcher.reply :=
  Launcher.Response 201 EmptyString.

(** A random source for the examples: the [i]-th draw is [5 * i]. *)
Definition draw_fives (i : nat) : nat := (5 * i)%nat.

(** *** Requests *)

Import BuildHandler.

(** The double quote, for JSON texts. *)
Definition dq : string := String (ascii_of_nat 34) EmptyString.

(** The log line [{"phase": "failure"}]. *)
Definition failure_line : string :=
  "{" ++ dq ++ "phase" ++ dq ++ ": " ++ dq ++ "failure" ++ dq ++ "}".

(** The log line [{"message": "Step 1/3"}]. *)
Definition step_line : string :=
  "{" ++ dq ++ "message" ++ dq ++ ": " ++ dq ++ "Step 1/3" ++ dq ++ "}".

(** [json.loads] on the two lines above; anything else is no JSON. *)
Definition loads (s : string) : res parsed :=
  if String.eqb s failure_line then Ret (Object [("phase", JStr "failure")])
  else if String.eqb s step_line then
    Ret (Object [("message", JStr "Step 1/3")])
  else Raise JSONDecodeError.

Definition config_registry : settings :=
  Settings ["gh"] true "registry.example/binder-" "push-secret" "builds"
           "builder:1" false.

Definition example_provider : provider :=
  Provider "https://github.com/minrk/binder-example"
           "minrk-binder-example" (Ret (Some "0123456789abcdef")).

Definition example_image : string :=
  "registry.example/binder-minrk-binder-example:0123456789abcdef".

Definition example_launcher : Launcher.world :=
  Launcher.World "secret" "http://hub/" hub_ready None 0.

Definition phase (name : string) : progress :=
  Progress "pod.phasechange" name.

Definition log_line (text : string) : progress := Progress "log" text.

(** A request for [gh/minrk/binder-example] with a registry: [manifest]
    is the registry's answer, [items] the progress queue, [closes] when
    the client goes away. *)
Definition request_world
    (manifest : res (option dict)) (items : list progress)
    (closes : option nat) : world :=
  World config_registry (fun _ _ => Ret example_provider)
        (fun _ _ => manifest) (fun _ => Raise ImageNotFound)
        items loads closes example_launcher
        (fun _ => "/minrk/binder-example") draw_fives
        (fun e => str_of_exn (fun _ => None) e) (fun _ => None).

(** The registry has the image. *)
Definition cache_hit : world :=
  request_world (Ret (Some [("schemaVersion", JNum 2)])) [] None.

(** The registry has no image; the build runs and succeeds. *)
Definition build_succeeds : world :=
  request_world (Ret None)
    [phase "Pending"; phase "Running"; log_line step_line;
     phase "Succeeded"; phase "Deleted"] None.

(** The build reports a failure in its log, then the pod goes through a
    phase the handler does not know and is deleted. *)
Definition build_fails : world :=
  request_world (Ret None)
    [phase "Pending"; phase "Running"; log_line failure_line;
     phase "FailedUnrecoverable"; phase "Deleted"] None.

(** The pod goes into the phase [name] and is deleted; the log reports
    no failure. *)
Definition pod_ends_in (name : string) : world :=
  request_world (Ret None)
    [phase "Pending"; phase "Running"; phase name; phase "Deleted"] None.

(** The registry lookup raises. *)
Definition registry_down : world :=
  request_world (Raise (ClientHTTPError 599 None))
    [phase "Pending"; phase "Running"; phase "Deleted"] None.

(** The client goes away once [n] frames were flushed. *)
Definition client_leaves (n : nat) : world :=
  request_world (Ret None)
    [phase "Pending"; phase "Running"; log_line step_line;
     phase "Succeeded"; phase "Deleted"] (Some n).

(** *** Readings of the consume loop *)

(** The only item on which the loop sets [done]. *)
Definition deleted : progress := Progress "pod.phasechange" "Deleted".

(** A phase change the handler has no case for: it is forwarded as
    [{phase: <string>}]. *)
Definition unrecognized (p : progress) : bool :=
  String.eqb (kind p) "pod.phasechange"
  && negb (String.eqb (payload p) "Pending")
  && negb (String.eqb (payload p) "Deleted")
  && negb (String.eqb (payload p) "Running")
  && negb (String.eqb (payload p) "Succeeded").

(** A log line whose parsed payload has [phase == "failure"]. *)
Definition failure_log (w : world) (p : progress) : bool :=
  String.eqb (kind p) "log"
  && match json_loads w (payload p) with
     | Ret j =>
         match phase_is_failure j with
         | Ret b => b
         | _ => false
         end
     | _ => false
     end.

(** *** Readings of the record of a request *)

(** The attempt to emit [d]: the frame reached the client, or the write
    met a closed stream. *)
Definition attempt (d : data) (a : action) : Prop :=
  a = Sent (DataFrame d) \/ a = StreamClosed (DataFrame d).

(** Creating the progress queue, instantiating a build, handing one of
    its methods to the pool. *)
Definition is_build_action (a : action) : bool :=
  match a with
  | NewQueue | NewBuild _ | PoolSubmit _ => true
  | _ => false
  end.

Definition is_lookup (a : action) : bool :=
  match a with
  | RegistryLookup _ _ | DockerLookup _ => true
  | _ => false
  end.

(** The [ready] frame of a launch. *)
Definition ready_frame (url token : string) : data :=
  Dict [("phase", JStr "ready");
        ("message", JStr ("server running at " ++ url ++ nl));
        ("url", JStr url);
        ("token", JStr token)].


(** The state of a fresh handler when [get] reaches the image lookup. *)
Definition at_lookup (repo_url image : string) : state :=
  State (Some true) false None (Some repo_url) (Some image) 0 0 0
        [SpawnKeepAlive;
         SetHeader "cache-control" "no-cache";
         SetHeader "content-type" "text/event-stream"].

(** Gauge changes and attempts to emit the [launching] frame. *)
Definition is_gauge_or_launching (a : action) : bool :=
  match a with
  | Inc _ | Dec _ => true
  | Sent (DataFrame (Dict ((_, JStr p) :: _)))
  | StreamClosed (DataFrame (Dict ((_, JStr p) :: _))) =>
      String.eqb p "launching"
  | _ => false
  end.

(** Requests to the hub and observations of the launch time. *)
Definition hub_or_observe (a : action) : Prop :=
  (exists c, a = HubRequest c) \/ (exists st, a = Observe LAUNCH_TIME st).

(** What the consume loop forwards: a log line as it is, or
    [{phase: <string>}]. *)
Definition forwardable (d : data) : Prop :=
  (exists line, d = Str line) \/ (exists p, d = Dict [("phase", JStr p)]).

(** What the consume loop does before it ends: it forwards frames, starts
    the log stream, records a failure. *)
Definition loop_event (a : action) : Prop :=
  (exists d, forwardable d /\ a = Sent (DataFrame d))
  \/ a = PoolSubmit stream_logs
  \/ a = Observe BUILD_TIME failure.

(** The attempt to emit the [launching] frame: the start of a launch. *)
Definition is_launch_attempt (a : action) : bool :=
  match a with
  | Sent (DataFrame (Dict [(k1, JStr v1); (k2, JStr v2)]))
  | StreamClosed (DataFrame (Dict [(k1, JStr v1); (k2, JStr v2)])) =>
      String.eqb k1 "phase" && String.eqb v1 "launching"
      && String.eqb k2 "message"
      && String.eqb v2 ("Launching server..." ++ nl)
  | _ => false
  end.

(** The [built] frame of the consume loop reached the client: the build
    session ran to completion. *)
Definition is_build_done (a : action) : bool :=
  match a with
  | Sent (DataFrame (Dict [(k1, JStr v1); (k2, _); (k3, _)])) =>
      String.eqb k1 "phase" && String.eqb v1 "built"
      && String.eqb k2 "message" && String.eqb k3 "imageName"
  | _ => false
  end.

(** The build was recorded as failed. *)
Definition is_build_failure (a : action) : bool :=
  match a with
  | Observe BUILD_TIME failure => true
  | _ => false
  end.

Definition launch_attempts (l : list action) : nat :=
  List.length (filter is_launch_attempt l).

Definition build_done (l : list action) : bool :=
  List.existsb is_build_done l.

Definition build_failed (l : list action) : bool :=
  List.existsb is_build_failure l.

(** What the client is sent, and the timings recorded. *)
Definition is_frame_or_timing (a : action) : bool :=
  match a with
  | Sent (DataFrame _) | StreamClosed (DataFrame _) | Observe _ _ => true
  | _ => false
  end.

(** A write that met a closed stream. *)
Definition is_closed (a : action) : bool :=
  match a with
  | StreamClosed _ => true
  | _ => false
  end.

(** Bookkeeping at the exit of a request: gauges, timings, [on_finish]. *)
Definition is_bookkeeping (a : action) : bool :=
  match a with
  | Dec _ | Observe _ _ | OnFinish => true
  | _ => false
  end.

(** What [launch] adds to the record, newest first.  The attempt of the
    [launching] frame comes first; when it meets a closed stream nothing
    follows; otherwise requests to the hub and the observation of the
    launch time follow, and, when the launcher returned the server, the
    attempt of the [ready] frame. *)
Inductive launch_record : list action -> res unit -> Prop :=
| LaunchingClosed :
    launch_record [StreamClosed (DataFrame launching_frame)] (Raise Finish)
| LaunchStopped mid r :
    Forall hub_or_observe mid ->
    launch_record (mid ++ [Sent (DataFrame launching_frame)])%list r
| LaunchReady mid url token :
    Forall hub_or_observe mid ->
    launch_record (Sent (DataFrame (ready_frame url token))
                   :: mid ++ [Sent (DataFrame launching_frame)])%list
                  (Ret tt)
| ReadyClosed mid url token :
    Forall hub_or_observe mid ->
    launch_record (StreamClosed (DataFrame (ready_frame url token))
                   :: mid ++ [Sent (DataFrame launching_frame)])%list
                  (Raise Finish).

(** What the consume loop adds to the record, newest first, when it
    starts with the flag [failed]: it ends with the [built] frame and
    returns the flag; or a frame met a closed stream; or it stopped
    otherwise (an exception, or the queue stays empty). *)
Inductive loop_record (image : string) (failed : bool)
  : list action -> res bool -> Prop :=
| LoopDone ext :
    Forall loop_event ext ->
    loop_record image failed
      (Sent (DataFrame (built_frame image)) :: ext)
      (Ret (failed || List.existsb is_build_failure ext))
| LoopClosed d ext :
    forwardable d \/ d = built_frame image ->
    Forall loop_event ext ->
    loop_record image failed (StreamClosed (DataFrame d) :: ext)
                (Raise Finish)
| LoopStopped ext r :
    Forall loop_event ext -> (forall f, r <> Ret f) ->
    loop_record image failed ext r.

(** An event that is no launch attempt, no completed build and no
    recorded failure. *)
Definition neutral (a : action) : Prop :=
  is_launch_attempt a = false /\ is_build_done a = false
  /\ is_build_failure a = false.

(** The launch after the build, on what a request adds to its record
    (newest first): when the build session ran to completion, the record
    splits at the [built] frame of the loop; no launch was attempted
    before it, and after it one launch is attempted if no failure was
    recorded before it, none otherwise. *)
Definition launch_follows_build (l : list action) : Prop :=
  build_done l = true ->
  exists post image pre,
    l = (post ++ Sent (DataFrame (built_frame image)) :: pre)%list
    /\ launch_attempts pre = 0%nat /\ build_done pre = false
    /\ build_done post = false
    /\ launch_attempts post = if build_failed pre then 0%nat else 1%nat.

End Scenario.

(** ** Readings for the coverage of the code *)

Module HubRequests.

Import PyStr Launcher.

(** The two requests of a launch: [POST users/<username>] with an empty
    body, and [POST users/<username>/server] with the token and the
    image. *)
Definition create_user (w : world) (username : string) : request :=
  Request (hub_url w ++ "hub/api/" ++ "users/" ++ username)
          POST ("token " ++ hub_api_token w) EmptyBody.

Definition start_server (w : world) (username image : string) : request :=
  Request (hub_url w ++ "hub/api/" ++ "users/" ++ username ++ "/server")
          POST ("token " ++ hub_api_token w)
          (JsonBody [("token", mint_token (urandom w)); ("image", image)]).

(** The requests [Launcher.launch] can make for [username] and [image]. *)
Definition of_launch (w : world) (username image : string) : list request :=
  [create_user w username; start_server w username image;
   Scenario.delete_server w username; Scenario.delete_user w username].

(** A character a username may hold: no slash, no uppercase letter. *)
Definition username_char (c : ascii) : bool :=
  negb (Ascii.eqb c "/") && negb (is_upper c).

(** A hub that refuses everything. *)
Definition hub_down (_ : nat) (_ : request) : reply := FetchError 599 None.

(** A hub that creates the user and fails to start the server. *)
Definition hub_no_server (n : nat) (_ : request) : reply :=
  match n with
  | O => Response 201 EmptyString
  | S _ => FetchError 500 (Some "spawn failed")
  end.

(** The launcher of the examples in front of [hub_no_server]. *)
Definition failing_launcher : world :=
  World "secret" "http://hub/" hub_no_server None 0.

(** The launcher of the examples with a future that is done once two
    requests were made. *)
Definition aborting_launcher : world :=
  World "secret" "http://hub/" Scenario.hub_ready
        (Some (fun n => (2 <=? n)%nat)) 0.

(** [urlparse(repo).path] of the repository in the docstring of
    [username_from_repo]. *)
Definition docstring_path (_ : string) : string :=
  "/minrk/binder-example.git".

End HubRequests.

Module Requests.

Import PyStr BuildHandler Scenario.

(** The frame of [fail(message)]. *)
Definition failed_frame (message : string) : data :=
  Dict [("phase", JStr "failed"); ("message", JStr (message ++ nl))].

(** The two headers [get] sets first. *)
Definition headers : list action :=
  [SetHeader "content-type" "text/event-stream";
   SetHeader "cache-control" "no-cache"].

(** The state of a fresh handler after [get] has set the headers. *)
Definition with_headers : state :=
  State None false None None None 0 0 0 (rev headers).

(** The state of a fresh handler once [get] has spawned [keep_alive]
    (and [keep_alive] has started). *)
Definition spawned : state :=
  State (Some true) false None None None 0 0 0
        (SpawnKeepAlive :: rev headers).

(** The same, after [self.repo = provider.get_repo_url()]. *)
Definition with_repo (repo_url : string) : state :=
  State (Some true) false None (Some repo_url) None 0 0 0
        (SpawnKeepAlive :: rev headers).

(** ['%s:%s' % (provider_prefix, spec)] *)
Definition key_of (provider_prefix spec : string) : string :=
  provider_prefix ++ ":" ++ spec.

(** A provider whose reference does not resolve. *)
Definition dangling_provider : provider :=
  Provider "https://github.com/minrk/binder-example"
           "minrk-binder-example" (Ret None).

(** A provider whose reference cannot be asked for. *)
Definition unreachable_provider : provider :=
  Provider "https://github.com/minrk/binder-example"
           "minrk-binder-example"
           (Raise (WebHTTPError 502 "GitHub is not answering")).

(** Some entries of [http.client.responses]. *)
Definition reason_phrase (status : Z) : option string :=
  if status =? 200 then Some "OK"
  else if status =? 400 then Some "Bad Request"
  else if status =? 403 then Some "Forbidden"
  else if status =? 404 then Some "Not Found"
  else if status =? 500 then Some "Internal Server Error"
  else if status =? 502 then Some "Bad Gateway"
  else None.

(** The exceptions whose text follows from what the model keeps of them:
    [web.HTTPError(status, message)] and [TypeError(message)]. *)
Definition text_is_known (e : exn) : bool :=
  match e with
  | WebHTTPError _ _ | TypeError _ => true
  | _ => false
  end.

(** A request for a repository whose provider cannot be made, one whose
    reference does not resolve, and one whose reference cannot be asked
    for. *)
Definition no_provider : world :=
  World config_registry (fun _ _ => Raise (WebHTTPError 404 "no such repo"))
        (fun _ _ => Ret None) (fun _ => Raise ImageNotFound)
        [] loads None example_launcher
        (fun _ => "/minrk/binder-example") draw_fives
        (fun e => str_of_exn reason_phrase e) reason_phrase.

Definition no_ref : world :=
  World config_registry (fun _ _ => Ret dangling_provider)
        (fun _ _ => Ret None) (fun _ => Raise ImageNotFound)
        [] loads None example_launcher
        (fun _ => "/minrk/binder-example") draw_fives
        (fun e => str_of_exn reason_phrase e) reason_phrase.

Definition no_answer : world :=
  World config_registry (fun _ _ => Ret unreachable_provider)
        (fun _ _ => Ret None) (fun _ => Raise ImageNotFound)
        [] loads None example_launcher
        (fun _ => "/minrk/binder-example") draw_fives
        (fun e => str_of_exn reason_phrase e) reason_phrase.

(** The end of a path of [get] that fails with one frame and returns. *)
Definition failing (w : world) (message : string) (s : state)
  : res unit * state :=
  match fail w message s with
  | (Ret _, s') => (Ret tt, s')
  | (Raise e, s') => (Raise e, s')
  | (Blocked, s') => (Blocked, s')
  end.

(** The image name of a request, and what [get] does from the lookup
    on. *)
Definition image_of (w : world) (p : provider) (ref : string) : string :=
  image_name_of (docker_image_prefix (config w)) (get_build_slug p) ref.

Definition from_lookup (w : world) (p : provider) (ref : string)
  : M state unit :=
  found <- image_found w (image_of w p ref) ;;
  if found : bool then
    emit w (found_frame (image_of w p ref)) ;;; launch w
  else
    build_and_launch w (build_name_of (get_build_slug p) ref)
                     (image_of w p ref) (get_repo_url p) ref.

(** The build [get] instantiates. *)
Definition build_of (w : world) (p : provider) (ref : string) : build :=
  Build (fake_build (config w)) (build_name_of (get_build_slug p) ref)
        (build_namespace (config w)) (get_repo_url p) ref (image_of w p ref)
        (if use_registry (config w)
         then Some (docker_push_secret (config w)) else None)
        (builder_image_spec (config w)).

(** A deployment without a registry: images are looked up in the local
    Docker daemon, which has none. *)
Definition config_local : settings :=
  Settings ["gh"] false "binder-" "push-secret" "builds" "builder:1" false.

Definition local_build : world :=
  World config_local (fun _ _ => Ret example_provider)
        (fun _ _ => Ret None) (fun _ => Raise ImageNotFound)
        [phase "Pending"; phase "Deleted"] loads None example_launcher
        (fun _ => "/minrk/binder-example") draw_fives
        (fun e => str_of_exn (fun _ => None) e) (fun _ => None).

(** The registry answers with an empty manifest. *)
Definition empty_manifest : world :=
  request_world (Ret (Some [])) [phase "Pending"; phase "Deleted"] None.

(** What [get] says when the reference does not resolve: [None] came
    back, or an exception whose text is known. *)
Definition unresolved_message (w : world) (key : string)
    (ref : res (option string)) : option string :=
  match ref with
  | Ret None =>
      Some ("Could not resolve ref for " ++ key ++ ". Double check your URL.")
  | Raise e =>
      if text_is_known e
      then Some ("Error resolving ref for " ++ key ++ ": "
                 ++ str_of_exn (responses w) e)
      else None
  | _ => None
  end.

(** The local Docker daemon cannot be reached. *)
Definition docker_down : world :=
  World config_local (fun _ _ => Ret example_provider)
        (fun _ _ => Ret None) (fun _ => Raise (OtherError "APIError"))
        [phase "Pending"; phase "Deleted"] loads None example_launcher
        (fun _ => "/minrk/binder-example") draw_fives
        (fun e => str_of_exn (fun _ => None) e) (fun _ => None).

(** A registry deployment whose image prefix has no slash. *)
Definition config_flat : settings :=
  Settings ["gh"] true "binder-" "push-secret" "builds" "builder:1" false.

Definition flat_prefix : world :=
  World config_flat (fun _ _ => Ret example_provider)
        (fun _ _ => Ret None) (fun _ => Raise ImageNotFound)
        [phase "Pending"; phase "Deleted"] loads None example_launcher
        (fun _ => "/minrk/binder-example") draw_fives
        (fun e => str_of_exn (fun _ => None) e) (fun _ => None).

Definition is_gauge (a : action) : bool :=
  match a with
  | Inc _ | Dec _ => true
  | _ => false
  end.

End Requests.

Module Streams.

Import PyStr BuildHandler Scenario.

(** An exit of a gauge. *)
Definition is_dec (a : action) : bool :=
  match a with
  | Dec _ => true
  | _ => false
  end.

(** No write of the record met a closed stream. *)
Definition quiet (l : list action) : bool := negb (List.existsb is_closed l).

(** What a cancelled computation adds to the record, newest first: one
    write met a closed stream, nothing but exits of gauges came after it,
    and the computation raised [Finish]. *)
Definition cancelled {A} (ext : list action) (r : res A) : Prop :=
  quiet ext = true
  \/ (r = Raise Finish
      /\ exists post f pre,
           ext = (post ++ StreamClosed f :: pre)%list
           /\ List.forallb is_dec post = true /\ quiet pre = true).

(** What a computation that ends leaves as it found it: the two
    process-wide gauges; and it does not complete the abort future. *)
Definition settled (s s' : state) : Prop :=
  inprogress_builds s' = inprogress_builds s
  /\ inprogress_launches s' = inprogress_launches s
  /\ (_abort_launch s <> Some true -> _abort_launch s' <> Some true).

(** The client goes away while the launch is under way: two frames are
    delivered (the [built] frame of a cache hit and [launching]). *)
Definition leaves_at_launch : world :=
  request_world (Ret (Some [("schemaVersion", JNum 2)])) [] (Some 2%nat).

End Streams.

Module Loops.

Import PyStr BuildHandler Scenario.

(** [pool.submit(build.stream_logs)] *)
Definition is_stream_logs (a : action) : bool :=
  match a with
  | PoolSubmit stream_logs => true
  | _ => false
  end.

Definition log_streams (l : list action) : nat :=
  List.length (filter is_stream_logs l).

(** A progress item that is neither a phase change nor a log line. *)
Definition unknown_kind (p : progress) : bool :=
  negb (String.eqb (kind p) "pod.phasechange")
  && negb (String.eqb (kind p) "log").

(** What [json.loads(event)] and [payload.get('phase', None)] raise on a
    log line, if they do. *)
Definition log_error (w : world) (p : progress) : option exn :=
  match json_loads w (payload p) with
  | Ret j =>
      match phase_is_failure j with
      | Raise e => Some e
      | _ => None
      end
  | Raise e => Some e
  | Blocked => None
  end.

(** The pod is reported running three times. *)
Definition restarting : world :=
  request_world (Ret None)
    [phase "Running"; log_line step_line; phase "Running"; phase "Running";
     phase "Deleted"] None.

End Loops.

Module Lifecycle.

Import PyStr BuildHandler Scenario.

(** The loop of [BuildHandler.keep_alive], woken [n] times from its
    sleep: [Blocked] when it sleeps again after the last of them. *)
Fixpoint keep_alive_turns (w : world) (n : nat) : M state unit :=
  match n with
  | O => blocked
  | S k =>
      go <- keep_alive_turn w ;;
      if go : bool then keep_alive_turns w k else ret tt
  end.

(** [BuildHandler.keep_alive] *)
Definition keep_alive (w : world) (n : nat) : M state unit :=
  keep_alive_start ;;; keep_alive_turns w n.

(** The message of [send_error]: the text of the exception, else the
    reason phrase of the status, else [Unknown HTTP Error]. *)
Definition error_message (w : world) (status_code : Z) (exc_info : option exn)
  : string :=
  match exc_info with
  | Some e =>
      if is_empty (extract_message w e)
      then match responses w status_code with
           | Some m => m
           | None => "Unknown HTTP Error"
           end
      else extract_message w e
  | None =>
      match responses w status_code with
      | Some m => m
      | None => "Unknown HTTP Error"
      end
  end.

Definition error_frame (w : world) (status_code : Z) (exc_info : option exn)
  : frame :=
  DataFrame (Dict [("phase", JStr "failed");
                   ("status_code", JNum status_code);
                   ("message",
                    JStr (error_message w status_code exc_info ++ nl))]).

(** The launcher as [BuildHandler.launch] calls it: with a fresh future,
    which is not done. *)
Definition launcher_of (w : world) : Launcher.world :=
  Launcher.World (Launcher.hub_api_token (launcher w))
                 (Launcher.hub_url (launcher w)) (Launcher.hub (launcher w))
                 (Some (fun _ : nat => false))
                 (Launcher.urandom (launcher w)).

(** The client is gone after three frames; nothing else is written. *)
Definition idle (closes : option nat) : world :=
  request_world (Ret None) [] closes.

(** A state in which a launch has started. *)
Definition launching : state :=
  State (Some true) false (Some false) (Some "https://github.com/minrk/binder-example")
        (Some example_image) 0 0 0 [].

(** A request whose hub refuses to make the user. *)
Definition hub_refuses (_ : nat) (_ : Launcher.request) : Launcher.reply :=
  Launcher.FetchError 403 None.

Definition refused : world :=
  World config_registry (fun _ _ => Ret example_provider)
        (fun _ _ => Ret (Some [("schemaVersion", JNum 2)]))
        (fun _ => Raise ImageNotFound)
        [] loads None
        (Launcher.World "secret" "http://hub/" hub_refuses None 0)
        (fun _ => "/minrk/binder-example") draw_fives
        (fun e => str_of_exn (fun _ => None) e) (fun _ => None).

End Lifecycle.

Module Names.

Import PyStr.

(** A character of a build or image name: no uppercase letter, no
    underscore. *)
Definition name_char (c : ascii) : bool :=
  negb (is_upper c) && negb (Ascii.eqb c "_").

(** A string of ASCII characters: on these [str.lower] changes the
    letters [A-Z] only and keeps the length. *)
Definition is_ascii (c : ascii) : bool := (nat_of_ascii c <? 128)%nat.

Definition ascii_only (s : string) : bool := forallb is_ascii s.

End Names.

Module Counts.

Import PyStr BuildHandler Scenario.

(** How many events of a record [f] selects. *)
Definition count (f : action -> bool) (l : list action) : nat :=
  List.length (filter f l).

(** [BuildClass(...)]: a build is instantiated. *)
Definition is_new_build (a : action) : bool :=
  match a with
  | NewBuild _ => true
  | _ => false
  end.

End Counts.

Module Outcomes.

Import PyStr BuildHandler Scenario Requests.


End Outcomes.

(** * Properties *)

(** ** Facts about strings *)

Module PyStrFacts.

Import PyStr.

Lemma lower_length s : String.length (lower s) = String.length s.
Proof. induction s as [|c r IH]; simpl; congruence. Qed.

Lemma replace_char_length a b s :
  String.length (replace_char a b s) = String.length s.
Proof. induction s as [|c r IH]; simpl; congruence. Qed.

Lemma take_length n s : (String.length (take n s) <= n)%nat.
Proof.
  revert s; induction n as [|k IH]; intros [|c r]; simpl; try lia.
  specialize (IH r); lia.
Qed.

Lemma take_length_le n s : (String.length (take n s) <= String.length s)%nat.
Proof.
  revert s; induction n as [|k IH]; intros [|c r]; simpl; try lia.
  specialize (IH r); lia.
Qed.

Lemma append_length a b :
  String.length (a ++ b) = (String.length a + String.length b)%nat.
Proof. induction a as [|c r IH]; simpl; congruence. Qed.

Lemma slice_to_length s n :
  0 <= n -> (String.length (slice_to s n) <= Z.to_nat n)%nat.
Proof.
  intros Hn. unfold slice_to.
  destruct (0 <=? n) eqn:E; [apply take_length | apply Z.leb_gt in E; lia].
Qed.

Lemma lower_char_not_upper c : is_upper (lower_char c) = false.
Proof.
  destruct c as [[] [] [] [] [] [] [] []]; reflexivity.
Qed.

Lemma lower_no_upper s : forallb (fun c => negb (is_upper c)) (lower s) = true.
Proof.
  induction s as [|c r IH]; simpl; [reflexivity|].
  now rewrite lower_char_not_upper, IH.
Qed.

Lemma lower_append a b : lower (a ++ b) = lower a ++ lower b.
Proof. induction a as [|c r IH]; simpl; congruence. Qed.

Lemma forallb_append p a b :
  forallb p (a ++ b) = forallb p a && forallb p b.
Proof.
  induction a as [|c r IH]; simpl; [reflexivity|].
  now rewrite IH, andb_assoc.
Qed.

Lemma forallb_impl (p q : ascii -> bool) s :
  (forall c, p c = true -> q c = true) ->
  forallb p s = true -> forallb q s = true.
Proof.
  intros H; induction s as [|c r IH]; simpl; [reflexivity|].
  rewrite !andb_true_iff; intros [Hc Hr]; auto.
Qed.

Lemma forallb_take p n s : forallb p s = true -> forallb p (take n s) = true.
Proof.
  revert s; induction n as [|k IH]; intros [|c r]; simpl; auto.
  rewrite !andb_true_iff; intros [Hc Hr]; auto.
Qed.

Lemma forallb_drop p n s : forallb p s = true -> forallb p (drop n s) = true.
Proof.
  revert s; induction n as [|k IH]; intros [|c r]; simpl; auto.
  rewrite !andb_true_iff; intros [Hc Hr]; auto.
Qed.

Lemma split1_some sep s :
  existsb (Ascii.eqb sep) s = true -> exists a b, split1 sep s = Some (a, b).
Proof.
  induction s as [|c r IH]; simpl; [discriminate|].
  rewrite (Ascii.eqb_sym sep c).
  destruct (Ascii.eqb c sep); simpl; [eauto|].
  intros H; destruct (IH H) as (a & b & ->); eauto.
Qed.

End PyStrFacts.

(** ** The matcher agrees with the language of a pattern *)

Module RegexFacts.

Import Regex.

Lemma app_empty_r (a : string) : a ++ EmptyString = a.
Proof. induction a as [|c r IH]; simpl; congruence. Qed.

Lemma app_assoc (a b c : string) : (a ++ b) ++ c = a ++ (b ++ c).
Proof. induction a as [|x r IH]; simpl; congruence. Qed.

Lemma app_eq_empty (a b : string) :
  a ++ b = EmptyString -> a = EmptyString /\ b = EmptyString.
Proof. destruct a; simpl; [auto | discriminate]. Qed.

Lemma nullable_spec r : nullable r = true <-> matches r EmptyString.
Proof.
  split.
  - induction r as [| |p|r IHr s IHs|r IHr s IHs|r IHr]; simpl; intros H;
      try discriminate.
    + constructor.
    + apply andb_true_iff in H as [H1 H2].
      change EmptyString with (EmptyString ++ EmptyString).
      constructor; auto.
    + apply orb_true_iff in H as [H|H]; [apply MAltL | apply MAltR]; auto.
    + constructor.
  - intros H. remember EmptyString as e eqn:E.
    induction H as [|p c Hc|r s a b Ha IHa Hb IHb|r s a Ha IHa|r s a Ha IHa
                   |r|r a b Ha IHa Hb IHb]; simpl; try discriminate; auto.
    + apply app_eq_empty in E as [-> ->]. now rewrite IHa, IHb.
    + now rewrite IHa.
    + rewrite IHa by assumption. apply orb_true_r.
Qed.

(** A non-empty word of [r*] starts with a non-empty word of [r]. *)
Lemma star_cons r c s :
  matches (Star r) (String c s) ->
  exists a b, s = a ++ b /\ matches r (String c a) /\ matches (Star r) b.
Proof.
  intros H. remember (Star r) as q eqn:Q. remember (String c s) as w eqn:W.
  revert c s W.
  induction H as [|p x Hx|r1 s1 a b Ha IHa Hb IHb|r1 s1 a Ha IHa|r1 s1 a Ha IHa
                 |r1|r1 a b Ha IHa Hb IHb]; intros c s W; try discriminate.
  injection Q as ->.
  destruct a as [|x a'].
  - simpl in W. apply IHb; auto.
  - simpl in W. injection W as -> <-. exists a', b. auto.
Qed.

Lemma deriv_spec c r : forall s, matches (deriv c r) s <-> matches r (String c s).
Proof.
  induction r as [| |p|r IHr q IHq|r IHr q IHq|r IHr]; intros s; simpl.
  - split; intros H; inversion H.
  - split; intros H; inversion H.
  - destruct (p c) eqn:E; split; intros H; inversion H; subst.
    + now constructor.
    + constructor.
    + congruence.
  - assert (Hcat : matches (Cat (deriv c r) q) s ->
                   matches (Cat r q) (String c s)).
    { intros H; inversion H; subst.
      change (String c (a ++ b)) with (String c a ++ b).
      constructor; [apply IHr|]; assumption. }
    assert (Hsplit : matches (Cat r q) (String c s) ->
                     (exists a b, s = a ++ b /\ matches r (String c a)
                                  /\ matches q b)
                     \/ (matches r EmptyString /\ matches q (String c s))).
    { intros H; inversion H as [| |r' s' a b Ha Hb| | | |]; subst.
      destruct a as [|x a'].
      - right. simpl in *. subst. auto.
      - left. simpl in *.
        match goal with E : String _ _ = String _ _ |- _ =>
          injection E as -> <- end.
        eauto. }
    destruct (nullable r) eqn:N.
    + split.
      * intros H; inversion H; subst; [auto|].
        change (String c s) with (EmptyString ++ String c s).
        constructor; [apply nullable_spec; assumption | apply IHq; assumption].
      * intros H. destruct (Hsplit H) as [(a & b & -> & Ha & Hb)|[_ Hq]].
        -- apply MAltL. constructor; [apply IHr|]; assumption.
        -- apply MAltR. apply IHq; assumption.
    + split; [exact Hcat|].
      intros H. destruct (Hsplit H) as [(a & b & -> & Ha & Hb)|[Hr _]].
      * constructor; [apply IHr|]; assumption.
      * apply nullable_spec in Hr. congruence.
  - split; intros H; inversion H; subst.
    + apply MAltL, IHr; assumption.
    + apply MAltR, IHq; assumption.
    + apply MAltL, IHr; assumption.
    + apply MAltR, IHq; assumption.
  - split.
    + intros H; inversion H; subst.
      change (String c (a ++ b)) with (String c a ++ b).
      constructor; [apply IHr|]; assumption.
    + intros H. apply star_cons in H as (a & b & -> & Ha & Hb).
      constructor; [apply IHr|]; assumption.
Qed.

Lemma fullmatch_spec s : forall r, fullmatch r s = true <-> matches r s.
Proof.
  induction s as [|c s IH]; intros r; simpl.
  - apply nullable_spec.
  - rewrite IH. apply deriv_spec.
Qed.

Lemma prefix_match_spec s :
  forall r, prefix_match r s = true <->
            exists a b, s = a ++ b /\ matches r a.
Proof.
  induction s as [|c s IH]; intros r; simpl.
  - rewrite orb_false_r, nullable_spec. split.
    + intros H. exists EmptyString, EmptyString. auto.
    + intros (a & b & E & H). symmetry in E.
      apply app_eq_empty in E as [-> _]. exact H.
  - rewrite orb_true_iff, nullable_spec, IH. split.
    + intros [H|(a & b & -> & H)].
      * exists EmptyString, (String c s). auto.
      * exists (String c a), b. split; [reflexivity|].
        apply deriv_spec; assumption.
    + intros (a & b & E & H). destruct a as [|x a'].
      * left; assumption.
      * right. simpl in E. injection E as <- ->.
        exists a', b. split; [reflexivity|]. apply deriv_spec; assumption.
Qed.

End RegexFacts.

(** ** SHA-256: the standard's test vectors *)

Module Sha256Facts.

Import Sha256.

Example hexdigest_empty :
  hexdigest EmptyString
  = "e3b0c44298fc1c149afbf4c8996fb92427ae41e4649b934ca495991b7852b855".
Proof. vm_compute. reflexivity. Qed.

Example hexdigest_abc :
  hexdigest "abc"
  = "ba7816bf8f01cfea414140de5dae2223b00361a396177a9cb410ff61f20015ad".
Proof. vm_compute. reflexivity. Qed.

Example hexdigest_two_blocks :
  hexdigest "abcdbcdecdefdefgefghfghighijhijkijkljklmklmnlmnomnopnopq"
  = "248d6a61d20638b8e5c026930c3e6039a33ce45964ff2167f6ecedd419db06c1".
Proof. vm_compute. reflexivity. Qed.

End Sha256Facts.

(** ** The launcher *)

Module LauncherFacts.

Import PyStr PyStrFacts Launcher.

(** *** The token *)

Definition is_b64url_char (c : ascii) : bool :=
  is_upper c || is_lower c || is_digit c
  || Ascii.eqb c "-" || Ascii.eqb c "_".

Lemma below_64 (P : nat -> Prop) :
  (forall k, (k < 64)%nat -> P k) -> forall n, P (Z.to_nat (n mod 64)).
Proof.
  intros H n. apply H.
  pose proof (Z.mod_pos_bound n 64 ltac:(lia)). lia.
Qed.

Lemma b64_char_url n : is_b64url_char (b64_char n) = true.
Proof.
  unfold b64_char. apply (below_64 (fun k =>
    is_b64url_char (char_at b64url_alphabet k) = true)).
  intros k Hk.
  do 64 (destruct k as [|k]; [reflexivity|]). lia.
Qed.

Lemma b64_char_not_pad n : is_pad (b64_char n) = false.
Proof.
  unfold b64_char. apply (below_64 (fun k =>
    is_pad (char_at b64url_alphabet k) = false)).
  intros k Hk.
  do 64 (destruct k as [|k]; [reflexivity|]). lia.
Qed.

Lemma b64_char_A n : b64_char n = "A"%char -> n mod 64 = 0.
Proof.
  unfold b64_char.
  pose proof (Z.mod_pos_bound n 64 ltac:(lia)) as Hb.
  remember (Z.to_nat (n mod 64)) as k eqn:Ek.
  assert (Hk : (k < 64)%nat) by lia.
  intros H.
  destruct k as [|k]; [lia|].
  exfalso. revert H.
  do 63 (destruct k as [|k]; [discriminate|]). lia.
Qed.

Lemma rstrip_keep p c s :
  p c = false -> rstrip p (String c s) = String c (rstrip p s).
Proof. intros H. simpl. rewrite H, andb_false_r. reflexivity. Qed.

(** The padding is the two [=] a 16-byte input ends with: the token is the
    first 22 characters of the encoding. *)
Lemma token_of_uuid_take i :
  token_of_uuid i = take 22 (urlsafe_b64encode (uuid_bytes i)).
Proof.
  unfold token_of_uuid, uuid_bytes.
  cbn [Sha256.be_bytes urlsafe_b64encode].
  rewrite !rstrip_keep by apply b64_char_not_pad.
  reflexivity.
Qed.

Lemma token_of_uuid_length i : String.length (token_of_uuid i) = 22%nat.
Proof.
  rewrite token_of_uuid_take. unfold uuid_bytes.
  cbn [Sha256.be_bytes urlsafe_b64encode]. reflexivity.
Qed.

Lemma token_of_uuid_alphabet i :
  forallb is_b64url_char (token_of_uuid i) = true.
Proof.
  rewrite token_of_uuid_take. unfold uuid_bytes.
  cbn [Sha256.be_bytes urlsafe_b64encode take forallb].
  rewrite !b64_char_url. reflexivity.
Qed.

(** The masks of [uuid4_int], bit by bit. *)
Lemma shifted_bit m k i :
  0 <= k -> 0 <= i ->
  Z.testbit (Z.shiftl m k) i = Z.testbit m (i - k).
Proof. intros Hk Hi. apply Z.shiftl_spec; assumption. Qed.

Lemma variant_mask_bit i :
  0 <= i -> Z.testbit (Z.shiftl 0xc000 48) i = (i =? 62) || (i =? 63).
Proof.
  intros Hi. change (Z.shiftl 0xc000 48) with (Z.shiftl 3 62).
  rewrite shifted_bit by lia.
  destruct (Z.eq_dec i 62) as [->|N62]; [reflexivity|].
  destruct (Z.eq_dec i 63) as [->|N63]; [reflexivity|].
  apply Z.eqb_neq in N62 as E62; apply Z.eqb_neq in N63 as E63.
  rewrite E62, E63. simpl.
  destruct (Z_lt_le_dec i 62).
  - apply Z.testbit_neg_r; lia.
  - apply Z.bits_above_log2; [lia | simpl; lia].
Qed.

Lemma variant_bit i :
  0 <= i -> Z.testbit (Z.shiftl 0x8000 48) i = (i =? 63).
Proof.
  intros Hi. change (Z.shiftl 0x8000 48) with (Z.shiftl 1 63).
  rewrite shifted_bit by lia.
  destruct (Z.eq_dec i 63) as [->|N63]; [reflexivity|].
  apply Z.eqb_neq in N63 as E63. rewrite E63.
  destruct (Z_lt_le_dec i 63).
  - apply Z.testbit_neg_r; lia.
  - apply Z.bits_above_log2; [lia | simpl; lia].
Qed.

Lemma version_mask_bit i :
  0 <= i ->
  Z.testbit (Z.shiftl 0xf000 64) i = (76 <=? i) && (i <? 80).
Proof.
  intros Hi. change (Z.shiftl 0xf000 64) with (Z.shiftl (Z.ones 4) 76).
  rewrite shifted_bit by lia.
  destruct (Z_lt_le_dec i 76).
  - rewrite Z.testbit_neg_r by lia.
    symmetry. apply andb_false_iff. left. apply Z.leb_gt. lia.
  - rewrite Z.testbit_ones by lia.
    replace (0 <=? i - 76) with true by (symmetry; apply Z.leb_le; lia).
    replace (76 <=? i) with true by (symmetry; apply Z.leb_le; lia).
    simpl. destruct (Z.ltb_spec (i - 76) 4), (Z.ltb_spec i 80);
      try reflexivity; lia.
Qed.

Lemma version_bit i :
  0 <= i -> Z.testbit (Z.shiftl 4 76) i = (i =? 78).
Proof.
  intros Hi. change (Z.shiftl 4 76) with (Z.shiftl 1 78).
  rewrite shifted_bit by lia.
  destruct (Z.eq_dec i 78) as [->|N]; [reflexivity|].
  apply Z.eqb_neq in N as E. rewrite E.
  destruct (Z_lt_le_dec i 78).
  - apply Z.testbit_neg_r; lia.
  - apply Z.bits_above_log2; [lia | simpl; lia].
Qed.

Lemma random_bit r i :
  0 <= i ->
  Z.testbit (r mod 2 ^ 128) i = (i <? 128) && Z.testbit r i.
Proof.
  intros Hi. destruct (Z.ltb_spec i 128).
  - apply Z.mod_pow2_bits_low; lia.
  - apply Z.mod_pow2_bits_high; lia.
Qed.

(** Every bit of the UUID: the variant and version fields are fixed, the
    other 122 bits are those of the random bytes. *)
Lemma uuid4_int_testbit r i :
  0 <= i ->
  Z.testbit (uuid4_int r) i =
    if (i =? 63) || (i =? 78) then true
    else if (i =? 62) || ((76 <=? i) && (i <? 80)) then false
    else (i <? 128) && Z.testbit r i.
Proof.
  intros Hi. unfold uuid4_int. cbv zeta.
  rewrite Z.lor_spec, Z.land_spec, Z.lor_spec, Z.land_spec.
  rewrite !Z.lnot_spec by assumption.
  rewrite variant_mask_bit, variant_bit, version_mask_bit, version_bit,
    random_bit by assumption.
  destruct (Z.eqb_spec i 62), (Z.eqb_spec i 63), (Z.eqb_spec i 78),
    (Z.leb_spec 76 i), (Z.ltb_spec i 80), (Z.ltb_spec i 128);
    try lia; simpl; rewrite ?andb_true_r, ?orb_false_r, ?andb_false_r;
    try reflexivity.
Qed.

Lemma uuid4_int_range r : 0 <= uuid4_int r < 2 ^ 128.
Proof.
  assert (N : 0 <= uuid4_int r).
  { apply Z.bits_iff_nonneg_ex. exists 128. intros m Hm.
    rewrite uuid4_int_testbit by lia.
    destruct (Z.eqb_spec m 63), (Z.eqb_spec m 78), (Z.eqb_spec m 62),
      (Z.leb_spec 76 m), (Z.ltb_spec m 80), (Z.ltb_spec m 128);
      try lia; reflexivity. }
  split; [exact N|].
  destruct (Z.eq_dec (uuid4_int r) 0) as [E|E]; [rewrite E; lia|].
  apply Z.log2_lt_pow2; [lia|].
  destruct (Z_lt_le_dec (Z.log2 (uuid4_int r)) 128) as [L|L]; [exact L|].
  exfalso.
  assert (B : Z.testbit (uuid4_int r) (Z.log2 (uuid4_int r)) = true)
    by (apply Z.bit_log2; lia).
  rewrite uuid4_int_testbit in B by lia.
  destruct (Z.eqb_spec (Z.log2 (uuid4_int r)) 63),
    (Z.eqb_spec (Z.log2 (uuid4_int r)) 78),
    (Z.eqb_spec (Z.log2 (uuid4_int r)) 62),
    (Z.leb_spec 76 (Z.log2 (uuid4_int r))),
    (Z.ltb_spec (Z.log2 (uuid4_int r)) 80),
    (Z.ltb_spec (Z.log2 (uuid4_int r)) 128);
    try lia; simpl in B; discriminate.
Qed.

Lemma mint_token_eq r : mint_token r = token_of_uuid (uuid4_int r).
Proof. reflexivity. Qed.

Lemma zero_token_char8 : String.get 8 (token_of_uuid 0) = Some "A"%char.
Proof. vm_compute. reflexivity. Qed.

Lemma token_char8 i :
  String.get 8 (token_of_uuid i)
  = Some (b64_char (Z.shiftr (Z.shiftr i 72 mod 256) 2)).
Proof. rewrite token_of_uuid_take. reflexivity. Qed.

(** The ninth character of a token carries the version field: it is
    never [A]. *)
Lemma version_char r :
  b64_char (Z.shiftr (Z.shiftr (uuid4_int r) 72 mod 256) 2) <> "A"%char.
Proof.
  intros Hr. apply b64_char_A in Hr.
  assert (B : Z.testbit
                (Z.shiftr (Z.shiftr (uuid4_int r) 72 mod 256) 2 mod 64) 4
              = true).
  { change 64 with (2 ^ 6). rewrite Z.mod_pow2_bits_low by lia.
    rewrite Z.shiftr_spec by lia.
    change 256 with (2 ^ 8). rewrite Z.mod_pow2_bits_low by lia.
    rewrite Z.shiftr_spec by lia.
    rewrite uuid4_int_testbit by lia. reflexivity. }
  rewrite Hr in B. discriminate.
Qed.

(** C7, as stated, would make every 128-bit value a possible token.  The
    all-zero value is none: the version field of a UUID4 is never 0. *)
Lemma mint_token_misses_values :
  ~ (forall v, 0 <= v < 2 ^ 128 -> exists r, mint_token r = token_of_uuid v).
Proof.
  intros H.
  assert (R : 0 <= 0 < 2 ^ 128) by (split; [lia | reflexivity]).
  destruct (H 0 R) as [r Hr].
  rewrite mint_token_eq in Hr.
  assert (E : String.get 8 (token_of_uuid (uuid4_int r))
              = String.get 8 (token_of_uuid 0)) by (rewrite Hr; reflexivity).
  rewrite token_char8, zero_token_char8 in E.
  injection E as E.
  exact (version_char r E).
Qed.

(** C7, amended: the token is the unpadded URL-safe base64 text (22
    characters) of the 128 bits of a version-4 UUID: the variant and version
    fields are fixed, the other 122 bits are the random ones. *)
Theorem mint_token_is_uuid4_base64 r :
  mint_token r = take 22 (urlsafe_b64encode (uuid_bytes (uuid4_int r)))
  /\ String.length (mint_token r) = 22%nat
  /\ forallb is_b64url_char (mint_token r) = true
  /\ 0 <= uuid4_int r < 2 ^ 128
  /\ Z.testbit (uuid4_int r) 63 = true
  /\ Z.testbit (uuid4_int r) 62 = false
  /\ Z.shiftr (uuid4_int r) 76 mod 16 = 4
  /\ (forall i, 0 <= i < 128 -> i <> 62 -> i <> 63 -> ~ 76 <= i < 80 ->
      Z.testbit (uuid4_int r) i = Z.testbit r i).
Proof.
  rewrite mint_token_eq.
  split; [apply token_of_uuid_take|].
  split; [apply token_of_uuid_length|].
  split; [apply token_of_uuid_alphabet|].
  split; [apply uuid4_int_range|].
  split; [rewrite uuid4_int_testbit by lia; reflexivity|].
  split; [rewrite uuid4_int_testbit by lia; reflexivity|].
  split.
  - apply Z.bits_inj'. intros n Hn.
    change 16 with (2 ^ 4).
    destruct (Z_lt_le_dec n 4) as [L|L].
    + rewrite Z.mod_pow2_bits_low, Z.shiftr_spec by lia.
      rewrite uuid4_int_testbit by lia.
      assert (C : n = 0 \/ n = 1 \/ n = 2 \/ n = 3) by lia.
      destruct C as [->|[->|[->| ->]]]; reflexivity.
    + rewrite Z.mod_pow2_bits_high by lia.
      symmetry. apply Z.bits_above_log2; [lia | simpl; lia].
  - intros i Hi N62 N63 Nv.
    rewrite uuid4_int_testbit by lia.
    destruct (Z.eqb_spec i 63), (Z.eqb_spec i 78), (Z.eqb_spec i 62),
      (Z.leb_spec 76 i), (Z.ltb_spec i 80), (Z.ltb_spec i 128);
      try lia; reflexivity.
Qed.

(** *** Teardown *)

Lemma abort_launch_without_server w username calls :
  abort_launch w username false calls
  = match api_request w ("users/" ++ username) DELETE NoBody calls with
    | (Ret _, calls') => (Ret tt, calls')
    | (Raise e, calls') => (Raise e, calls')
    | (Blocked, calls') => (Blocked, calls')
    end.
Proof.
  unfold abort_launch, bind, ret.
  destruct (api_request w ("users/" ++ username) DELETE NoBody calls)
    as [[?|?|] ?]; reflexivity.
Qed.

(** When the hub reports the server stopped (any code but 202), teardown
    deletes the server and then the user. *)
Lemma abort_launch_server_stopped w username calls code b code' b' :
  hub w (List.length calls) (Scenario.delete_server w username)
  = Response code b ->
  code <> 202 ->
  hub w (S (List.length calls)) (Scenario.delete_user w username)
  = Response code' b' ->
  abort_launch w username true calls
  = (Ret tt,
     (calls ++ [Scenario.delete_server w username;
                Scenario.delete_user w username])%list).
Proof.
  intros H1 Hc H2.
  unfold abort_launch, bind, api_request.
  fold (Scenario.delete_server w username). rewrite H1.
  cbn [code_of]. apply Z.eqb_neq in Hc. rewrite Hc.
  unfold ret. fold (Scenario.delete_user w username).
  rewrite List.length_app. cbn [List.length]. rewrite Nat.add_1_r, H2.
  rewrite <- List.app_assoc. reflexivity.
Qed.

(** C8 at the failing input: the hub answers 202 to
    [DELETE users/u1/server]; the code raises [NameError] at the call of
    [exponential_backoff], so it polls nothing and never issues
    [DELETE users/u1]. *)
Theorem abort_launch_accepted_stop_skips_user_delete :
  abort_launch
    (World "secret" "http://hub/" Scenario.hub_accepts_first None 0)
    "u1" true []
  = (Raise (NameError "exponential_backoff"),
     [Request "http://hub/hub/api/users/u1/server" DELETE "token secret"
              NoBody])
  /\ launch
       (World "secret" "http://hub/" Scenario.hub_slow_to_stop
              (Some (fun n => (2 <=? n)%nat)) 0)
       "image:1" "u1" []
     = (Raise (NameError "exponential_backoff"),
        [Request "http://hub/hub/api/users/u1" POST "token secret" EmptyBody;
         Request "http://hub/hub/api/users/u1/server" POST "token secret"
                 (JsonBody [("token", "AAAAAAAAQACAAAAAAAAAAA");
                            ("image", "image:1")]);
         Request "http://hub/hub/api/users/u1/server" DELETE "token secret"
                 NoBody]).
Proof. split; vm_compute; reflexivity. Qed.

(** *** Usernames of ssh repositories *)

Lemma existsb_append p a b :
  existsb p (a ++ b) = existsb p a || existsb p b.
Proof.
  induction a as [|c r IH]; simpl; [reflexivity|].
  now rewrite IH, orb_assoc.
Qed.

Lemma matches_chr c s :
  Regex.matches (Regex.Chr c) s -> s = String c EmptyString.
Proof.
  unfold Regex.Chr. intros H. inversion H as [|p x Hx| | | | |]; subst.
  apply Ascii.eqb_eq in Hx. now subst.
Qed.

(** A repository that matches [.*@.*\:] has a colon: [split(':', 1)[1]]
    does not raise. *)
Lemma ssh_match_colon repo :
  Regex.prefix_match _ssh_repo_pat repo = true ->
  existsb (Ascii.eqb ":") repo = true.
Proof.
  intros H. apply RegexFacts.prefix_match_spec in H as (a & b & -> & H).
  unfold _ssh_repo_pat in H.
  inversion H as [| |r1 s1 a1 b1 _ H1| | | |]; subst.
  inversion H1 as [| |r2 s2 a2 b2 _ H2| | | |]; subst.
  inversion H2 as [| |r3 s3 a3 b3 _ H3| | | |]; subst.
  apply matches_chr in H3 as ->.
  rewrite !existsb_append. simpl.
  rewrite !orb_true_r. reflexivity.
Qed.

Lemma lower_replace_slash s :
  lower (replace_char "/" "-" s) = replace_char "/" "-" (lower s).
Proof.
  induction s as [|c r IH]; simpl; [reflexivity|].
  rewrite IH. f_equal.
  destruct c as [[] [] [] [] [] [] [] []]; reflexivity.
Qed.

Lemma choices_from_length population draw i k :
  String.length (choices_from population draw i k) = k.
Proof.
  revert i; induction k as [|k IH]; intros i; simpl; [reflexivity|].
  now rewrite IH.
Qed.

Lemma suffix_char n :
  (fun c => is_lower c || is_digit c)
    (char_at SUFFIX_CHARS (n mod String.length SUFFIX_CHARS)) = true.
Proof.
  change (String.length SUFFIX_CHARS) with 36%nat.
  assert (H : (n mod 36 < 36)%nat) by (apply Nat.mod_upper_bound; lia).
  remember (n mod 36)%nat as k eqn:E. clear E.
  do 36 (destruct k as [|k]; [reflexivity|]). lia.
Qed.

Lemma choices_from_suffix_chars draw i k :
  forallb (fun c => is_lower c || is_digit c)
          (choices_from SUFFIX_CHARS draw i k) = true.
Proof.
  revert i; induction k as [|k IH]; intros i; [reflexivity|].
  cbn [choices_from forallb]. rewrite IH, andb_true_r. apply suffix_char.
Qed.

(** C10, as stated, at [git@github.com:/minrk/binder-example.git]: the
    text after the first colon starts with a slash, which the code strips
    and the claimed derivation turns into a leading hyphen. *)
Lemma username_ssh_leading_slash :
  contains "://" "git@github.com:/minrk/binder-example.git" = false
  /\ Regex.prefix_match _ssh_repo_pat
       "git@github.com:/minrk/binder-example.git" = true
  /\ split1 ":" "git@github.com:/minrk/binder-example.git"
     = Some ("git@github.com", "/minrk/binder-example.git")
  /\ username_from_repo (fun s => s) Scenario.draw_fives
       "git@github.com:/minrk/binder-example.git"
     = Ret "minrk-binder-example-afkpuz49"
  /\ Scenario.prefix_as_claimed "/minrk/binder-example.git"
     = "-minrk-binder-example"
  /\ username_from_repo (fun s => s) Scenario.draw_fives
       "git@github.com:/minrk/binder-example.git"
     <> Ret (Scenario.prefix_as_claimed "/minrk/binder-example.git" ++ "-"
             ++ choices SUFFIX_CHARS Scenario.draw_fives SUFFIX_LENGTH).
Proof.
  repeat split; try (vm_compute; reflexivity).
  vm_compute. discriminate.
Qed.

(** C10, amended: for a repository with no [://] that matches the ssh
    pattern, the username is derived from the text after the first colon
    with its leading and trailing slashes removed, lowercased, slashes
    replaced by hyphens, a trailing [.git] removed, shortened to
    first 15 - last 15 when longer than 32 characters, and followed by a
    hyphen and 8 random characters of [a-z0-9]. *)
Theorem username_from_repo_ssh urlparse_path draw repo :
  contains "://" repo = false ->
  Regex.prefix_match _ssh_repo_pat repo = true ->
  exists host path,
    split1 ":" repo = Some (host, path)
    /\ username_from_repo urlparse_path draw repo
       = Ret (Scenario.prefix_of_path path ++ "-"
              ++ choices SUFFIX_CHARS draw SUFFIX_LENGTH)
    /\ String.length (choices SUFFIX_CHARS draw SUFFIX_LENGTH) = 8%nat
    /\ forallb (fun c => is_lower c || is_digit c)
               (choices SUFFIX_CHARS draw SUFFIX_LENGTH) = true.
Proof.
  intros Hurl Hssh.
  destruct (split1_some ":" repo (ssh_match_colon repo Hssh))
    as (host & path & Hsplit).
  exists host, path. split; [exact Hsplit|]. split.
  - unfold username_from_repo. rewrite Hurl, Hssh, Hsplit.
    cbn [negb andb]. cbv zeta.
    unfold Scenario.prefix_of_path, Scenario.shorten, Scenario.strip_dot_git.
    rewrite lower_replace_slash. reflexivity.
  - split; [apply choices_from_length | apply choices_from_suffix_chars].
Qed.

Lemma username_from_repo_ssh_witness :
  contains "://" "git@github.com:minrk/binder-example.git" = false
  /\ Regex.prefix_match _ssh_repo_pat
       "git@github.com:minrk/binder-example.git" = true
  /\ exists host path,
       split1 ":" "git@github.com:minrk/binder-example.git"
       = Some (host, path)
       /\ username_from_repo (fun s => s) Scenario.draw_fives
            "git@github.com:minrk/binder-example.git"
          = Ret (Scenario.prefix_of_path path ++ "-"
                 ++ choices SUFFIX_CHARS Scenario.draw_fives SUFFIX_LENGTH)
       /\ String.length
            (choices SUFFIX_CHARS Scenario.draw_fives SUFFIX_LENGTH) = 8%nat
       /\ forallb (fun c => is_lower c || is_digit c)
            (choices SUFFIX_CHARS Scenario.draw_fives SUFFIX_LENGTH) = true.
Proof.
  split; [vm_compute; reflexivity|].
  split; [vm_compute; reflexivity|].
  apply (username_from_repo_ssh (fun s => s) Scenario.draw_fives
           "git@github.com:minrk/binder-example.git");
    vm_compute; reflexivity.
Defined.

End LauncherFacts.

(** ** Build and image names *)

Module NameFacts.

Import PyStr PyStrFacts BuildHandler.

Lemma hex_length n x : String.length (Sha256.hex n x) = n.
Proof. induction n as [|k IH]; simpl; congruence. Qed.

(** The digest is 64 characters long. *)
Lemma hexdigest_length s : String.length (Sha256.hexdigest s) = 64%nat.
Proof.
  unfold Sha256.hexdigest, Sha256.digest_words, Sha256.list_of_regs.
  cbn [Sha256.concat_hex].
  rewrite !append_length, !hex_length. reflexivity.
Qed.

Lemma slice_to_length_le s n : (String.length (slice_to s n) <= String.length s)%nat.
Proof. unfold slice_to. destruct (0 <=? n); apply take_length_le. Qed.

Lemma generate_build_name_length build_slug ref limit hash_length ref_length :
  0 <= hash_length -> 0 <= ref_length ->
  hash_length + ref_length + 2 <= limit ->
  (Z.of_nat (String.length
     (_generate_build_name build_slug ref limit hash_length ref_length))
   <= limit).
Proof.
  intros Hh Hr Hl. unfold _generate_build_name. cbv zeta.
  rewrite lower_length, !append_length. cbn [String.length].
  pose proof (slice_to_length build_slug
                (limit - hash_length - ref_length - 2) ltac:(lia)).
  pose proof (slice_to_length (Sha256.hexdigest build_slug) hash_length Hh).
  pose proof (slice_to_length ref ref_length Hr).
  lia.
Qed.

(** The name [get] derives is at most 63 characters long. *)
Lemma build_name_length build_slug ref :
  (String.length (build_name_of build_slug ref) <= 63)%nat.
Proof.
  unfold build_name_of. rewrite replace_char_length.
  pose proof (generate_build_name_length build_slug ref 63 6 6
                ltac:(lia) ltac:(lia) ltac:(lia)).
  lia.
Qed.

Lemma replace_char_forallb p a b s :
  p b = true -> forallb p s = true -> forallb p (replace_char a b s) = true.
Proof.
  intros Hb. induction s as [|c r IH]; simpl; [reflexivity|].
  rewrite !andb_true_iff. intros [Hc Hr].
  split; [destruct (Ascii.eqb c a); assumption | auto].
Qed.

(** The name has no uppercase letter and no underscore. *)
Lemma build_name_lowercase build_slug ref :
  forallb (fun c => negb (is_upper c)) (build_name_of build_slug ref) = true.
Proof.
  unfold build_name_of, _generate_build_name. cbv zeta.
  apply replace_char_forallb; [reflexivity | apply lower_no_upper].
Qed.

Lemma replace_char_removes a b s :
  Ascii.eqb b a = false ->
  forallb (fun c => negb (Ascii.eqb c a)) (replace_char a b s) = true.
Proof.
  intros Hab. induction s as [|c r IH]; simpl; [reflexivity|].
  rewrite IH, andb_true_r.
  destruct (Ascii.eqb c a) eqn:E; [rewrite Hab | rewrite E]; reflexivity.
Qed.

Lemma build_name_no_underscore build_slug ref :
  forallb (fun c => negb (Ascii.eqb c "_")) (build_name_of build_slug ref)
  = true.
Proof. unfold build_name_of. apply replace_char_removes. reflexivity. Qed.

(** C2 at two failing inputs.  The slug of the repository [.github] of
    user [a] gives a name whose first label ends in a hyphen; a slug that
    starts with an underscore gives a name that starts with a hyphen.
    Neither name is in the language of the Kubernetes pattern the
    docstring of [_generate_build_name] asks for, although both are
    within 63 characters and lowercase. *)
Theorem build_name_breaks_k8s_pattern :
  build_name_of "a-.github" "0123456789abcdef" = "a-.github-3a3d70-012345"
  /\ Regex.fullmatch k8s_name_pat
       (build_name_of "a-.github" "0123456789abcdef") = false
  /\ build_name_of "_x" "0123456789abcdef" = "-x-a01e47-012345"
  /\ Regex.fullmatch k8s_name_pat
       (build_name_of "_x" "0123456789abcdef") = false
  /\ Regex.prefix_match k8s_name_pat
       (build_name_of "_x" "0123456789abcdef") = false
  /\ Regex.fullmatch k8s_name_pat "a.github-3a3d70-012345" = true.
Proof. repeat split; vm_compute; reflexivity. Qed.

End NameFacts.

(** ** The request handler *)

Module HandlerFacts.

Import PyStr BuildHandler.

(** *** What a computation adds to the record of a request

    [spec Q m]: whenever [m] ends in a result [r], the events of the state
    grew by some [ext] (newest first) with [Q ext r]. *)

Definition spec {A} (Q : list action -> res A -> Prop) (m : M state A)
  : Prop :=
  forall s r s', m s = (r, s') ->
    exists ext, events s' = (ext ++ events s)%list /\ Q ext r.

Lemma spec_weaken {A} (Q Q' : list action -> res A -> Prop) m :
  spec Q m -> (forall ext r, Q ext r -> Q' ext r) -> spec Q' m.
Proof.
  intros H HQ s r s' E. destruct (H s r s' E) as (ext & E' & HQ').
  exists ext. auto.
Qed.

Lemma bind_inv {A B} (m : M state A) (k : A -> M state B) s r s' :
  bind m k s = (r, s') ->
  (exists a s1, m s = (Ret a, s1) /\ k a s1 = (r, s'))
  \/ (exists e, m s = (Raise e, s') /\ r = Raise e)
  \/ (m s = (Blocked, s') /\ r = Blocked).
Proof.
  unfold bind. destruct (m s) as [[a|e|] s1]; intros H.
  - left. eauto.
  - right. left. injection H as <- <-. eauto.
  - right. right. injection H as <- <-. auto.
Qed.

Lemma try_except_inv {A} (m : M state A) (h : exn -> M state A) s r s' :
  try_except m h s = (r, s') ->
  (exists e s1, m s = (Raise e, s1) /\ h e s1 = (r, s'))
  \/ (m s = (r, s') /\ forall e, r <> Raise e).
Proof.
  unfold try_except. destruct (m s) as [[a|e|] s1]; intros H.
  - right. injection H as <- <-. split; [reflexivity | discriminate].
  - left. eauto.
  - right. injection H as <- <-. split; [reflexivity | discriminate].
Qed.

Lemma finally_inv {A} (m : M state A) (f : M state unit) s r s' :
  (forall s0, exists s1, f s0 = (Ret tt, s1)) ->
  finally m f s = (r, s') ->
  (m s = (Blocked, s') /\ r = Blocked)
  \/ (exists s1, m s = (r, s1) /\ f s1 = (Ret tt, s') /\ r <> Blocked).
Proof.
  intros Hf. unfold finally. destruct (m s) as [[a|e|] s1]; intros H.
  - right. destruct (Hf s1) as (s2 & E). rewrite E in H.
    injection H as <- <-. exists s1. repeat split; auto; discriminate.
  - right. destruct (Hf s1) as (s2 & E). rewrite E in H.
    injection H as <- <-. exists s1. repeat split; auto; discriminate.
  - left. injection H as <- <-. auto.
Qed.

(** The primitives. *)

Definition adds {A} (ext0 : list action) (r0 : res A) : M state A -> Prop :=
  spec (fun ext r => ext = ext0 /\ r = r0).

Lemma adds_ret {A} (a : A) : adds [] (Ret a) (ret a).
Proof.
  intros s r s' H. injection H as <- <-. exists []. auto.
Qed.

Lemma adds_raise {A} e : adds [] (@Raise A e) (raise e).
Proof. intros s r s' H. injection H as <- <-. exists []. auto. Qed.

Lemma adds_blocked {A} : adds [] (@Blocked A) blocked.
Proof. intros s r s' H. injection H as <- <-. exists []. auto. Qed.

Lemma adds_call {A} (r0 : res A) : adds [] r0 (call r0).
Proof. intros s r s' H. injection H as <- <-. exists []. auto. Qed.

Lemma adds_record a : adds [a] (Ret tt) (record a).
Proof. intros s r s' H. injection H as <- <-. exists [a]. auto. Qed.

Lemma adds_observe h st : adds [Observe h st] (Ret tt) (observe h st).
Proof. apply adds_record. Qed.

Lemma adds_set_keepalive b : adds [] (Ret tt) (set_keepalive b).
Proof. intros s r s' H. injection H as <- <-. exists []. auto. Qed.

Lemma adds_set_build_finished b : adds [] (Ret tt) (set_build_finished b).
Proof. intros s r s' H. injection H as <- <-. exists []. auto. Qed.

Lemma adds_set_abort_launch b : adds [] (Ret tt) (set_abort_launch b).
Proof. intros s r s' H. injection H as <- <-. exists []. auto. Qed.

Lemma adds_set_repo x : adds [] (Ret tt) (set_repo x).
Proof. intros s r s' H. injection H as <- <-. exists []. auto. Qed.

Lemma adds_set_image_name x : adds [] (Ret tt) (set_image_name x).
Proof. intros s r s' H. injection H as <- <-. exists []. auto. Qed.

Lemma adds_add_gauge g d : adds [] (Ret tt) (add_gauge g d).
Proof.
  intros s r s' H. injection H as <- <-. exists []. destruct g; auto.
Qed.

Lemma spec_get_state :
  spec (fun ext r => ext = [] /\ exists s, r = Ret s) get_state.
Proof. intros s r s' H. injection H as <- <-. exists []. eauto. Qed.

Lemma adds_attribute {A} name (v : option A) :
  spec (fun ext r => ext = []) (attribute name v).
Proof.
  destruct v; intros s r s' H; injection H as <- <-; exists []; auto.
Qed.

Section WithWorld.

Variable w : world.

Lemma emit_cases d s :
  (stream_open w s = true
   /\ emit w d s = (Ret tt, delivered (DataFrame d) s))
  \/ (stream_open w s = false
      /\ emit w d s = (Raise Finish, push (StreamClosed (DataFrame d)) s)).
Proof.
  unfold emit, try_except, write_flush.
  destruct (stream_open w s); [left | right]; auto.
Qed.

Lemma spec_emit d :
  spec (fun ext r =>
          (ext = [Sent (DataFrame d)] /\ r = Ret tt)
          \/ (ext = [StreamClosed (DataFrame d)] /\ r = Raise Finish))
       (emit w d).
Proof.
  intros s r s' H.
  destruct (emit_cases d s) as [[_ E]|[_ E]]; rewrite E in H;
    injection H as <- <-.
  - exists [Sent (DataFrame d)]. auto.
  - exists [StreamClosed (DataFrame d)]. auto.
Qed.

Lemma launcher_launch_events image username s r s' :
  launcher_launch w image username s = (r, s') ->
  exists calls,
    events s' = (rev (map HubRequest calls) ++ events s)%list.
Proof.
  unfold launcher_launch.
  destruct (Launcher.launch _ image username []) as [r0 calls].
  intros H. injection H as <- <-. exists calls.
  revert s. induction calls as [|c calls IH]; intros s; [reflexivity|].
  cbn [fold_left map rev]. rewrite IH. cbn [push events].
  rewrite <- List.app_assoc. reflexivity.
Qed.

(** *** The footprint of a computation: every event it adds is in [P] *)

Definition emits {A} (P : action -> Prop) (m : M state A) : Prop :=
  spec (fun ext _ => Forall P ext) m.

Lemma emits_adds {A} (P : action -> Prop) ext0 (r0 : res A) m :
  adds ext0 r0 m -> Forall P ext0 -> emits P m.
Proof.
  intros H HP. eapply spec_weaken; [exact H|].
  intros ext r [-> _]. exact HP.
Qed.

Lemma emits_silent {A} (P : action -> Prop) (m : M state A) :
  spec (fun ext _ => ext = []) m -> emits P m.
Proof.
  intros H. eapply spec_weaken; [exact H|]. intros ext r ->. constructor.
Qed.

Lemma emits_weaken {A} (P P' : action -> Prop) (m : M state A) :
  emits P m -> (forall a, P a -> P' a) -> emits P' m.
Proof.
  intros H HP. eapply spec_weaken; [exact H|].
  intros ext r F. eapply Forall_impl; eauto.
Qed.

Lemma emits_bind {A B} (P : action -> Prop) (m : M state A)
    (k : A -> M state B) :
  emits P m -> (forall a, emits P (k a)) -> emits P (bind m k).
Proof.
  intros Hm Hk s r s' H.
  apply bind_inv in H as [(a & s1 & H1 & H2)|[(e & H1 & ->)|[H1 ->]]].
  - destruct (Hm _ _ _ H1) as (e1 & E1 & F1).
    destruct (Hk a _ _ _ H2) as (e2 & E2 & F2).
    exists (e2 ++ e1)%list. rewrite E2, E1, List.app_assoc.
    split; [reflexivity | apply Forall_app; auto].
  - destruct (Hm _ _ _ H1) as (e1 & E1 & F1). eauto.
  - destruct (Hm _ _ _ H1) as (e1 & E1 & F1). eauto.
Qed.

Lemma emits_try_except {A} (P : action -> Prop) (m : M state A) h :
  emits P m -> (forall e, emits P (h e)) -> emits P (try_except m h).
Proof.
  intros Hm Hh s r s' H.
  apply try_except_inv in H as [(e & s1 & H1 & H2)|[H1 _]].
  - destruct (Hm _ _ _ H1) as (e1 & E1 & F1).
    destruct (Hh e _ _ _ H2) as (e2 & E2 & F2).
    exists (e2 ++ e1)%list. rewrite E2, E1, List.app_assoc.
    split; [reflexivity | apply Forall_app; auto].
  - exact (Hm _ _ _ H1).
Qed.

Lemma gauge_exit_total g s0 :
  exists s1, (add_gauge g (-1) ;;; record (Dec g)) s0 = (Ret tt, s1).
Proof. destruct g; eexists; reflexivity. Qed.

Lemma gauge_exit_events g s0 s1 :
  (add_gauge g (-1) ;;; record (Dec g)) s0 = (Ret tt, s1) ->
  events s1 = Dec g :: events s0.
Proof. destruct g; intros H; injection H as <-; reflexivity. Qed.

Lemma track_inprogress_inv {A} g (body : M state A) s r s' :
  track_inprogress g body s = (r, s') ->
  exists s0, events s0 = Inc g :: events s
    /\ ((body s0 = (Blocked, s') /\ r = Blocked)
        \/ (exists s1, body s0 = (r, s1)
                       /\ events s' = Dec g :: events s1 /\ r <> Blocked)).
Proof.
  unfold track_inprogress. intros H.
  apply bind_inv in H as [(a & s1 & H1 & H2)|[(e & H1 & _)|[H1 _]]];
    [|destruct g; discriminate..].
  apply bind_inv in H2 as [(a2 & s2 & H2 & H3)|[(e & H2 & _)|[H2 _]]];
    [|discriminate..].
  exists s2. split.
  - destruct g; injection H1 as _ <-; injection H2 as _ <-; reflexivity.
  - apply finally_inv in H3; [|apply gauge_exit_total].
    destruct H3 as [H3|(s3 & H3 & H4 & H5)]; [left; exact H3|].
    right. exists s3. split; [exact H3|]. split; [|exact H5].
    apply (gauge_exit_events g). exact H4.
Qed.

Lemma emits_track_inprogress {A} (P : action -> Prop) g (body : M state A) :
  P (Inc g) -> P (Dec g) -> emits P body ->
  emits P (track_inprogress g body).
Proof.
  intros Pi Pd Hb s r s' H.
  apply track_inprogress_inv in H as (s0 & E0 & [[H ->]|(s1 & H & E1 & _)]).
  - destruct (Hb _ _ _ H) as (e1 & E1 & F1).
    exists (e1 ++ [Inc g])%list. rewrite E1, E0, <- List.app_assoc.
    split; [reflexivity | apply Forall_app; auto].
  - destruct (Hb _ _ _ H) as (e1 & E2 & F1).
    exists (Dec g :: e1 ++ [Inc g])%list.
    rewrite E1, E2, E0. cbn [app]. rewrite <- List.app_assoc.
    split; [reflexivity|]. constructor; [exact Pd|].
    apply Forall_app; auto.
Qed.

Lemma emits_emit (P : action -> Prop) d :
  P (Sent (DataFrame d)) -> P (StreamClosed (DataFrame d)) ->
  emits P (emit w d).
Proof.
  intros Ps Pc. eapply spec_weaken; [apply spec_emit|].
  intros ext r [[-> _]|[-> _]]; auto.
Qed.

End WithWorld.

End HandlerFacts.

(** ** The consume loop *)

Module ConsumeFacts.

Import PyStr BuildHandler HandlerFacts Scenario.

Section WithWorld.

Variable w : world.
Variable image : string.

Lemma is_deleted p :
  String.eqb (kind p) "pod.phasechange" = true ->
  String.eqb (payload p) "Deleted" = true -> p = deleted.
Proof.
  destruct p as [k pl]; simpl. intros Hk Hp.
  apply String.eqb_eq in Hk, Hp. subst. reflexivity.
Qed.

Lemma not_deleted_kind p :
  String.eqb (kind p) "pod.phasechange" = false -> p <> deleted.
Proof. intros H ->. discriminate. Qed.

Lemma not_deleted_payload p :
  String.eqb (payload p) "Deleted" = false -> p <> deleted.
Proof. intros H ->. discriminate. Qed.

Lemma phase_change_no_log p :
  String.eqb (kind p) "pod.phasechange" = true ->
  String.eqb (kind p) "log" = false.
Proof. intros H. apply String.eqb_eq in H. rewrite H. reflexivity. Qed.

(** What the loop has done when it exits: it consumed [pre] and the
    [deleted] item after it. *)
Definition exited (items : list progress) (failed : bool) (s : state)
    (f : bool) (s' : state) : Prop :=
  exists pre rest ext,
    items = (pre ++ deleted :: rest)%list
    /\ Forall (fun p => p <> deleted) pre
    /\ f = failed || List.existsb (failure_log w) pre
    /\ events s'
       = (Sent (DataFrame (built_frame image)) :: ext ++ events s)%list
    /\ (forall p, In p pre -> kind p = "log" ->
        In (Sent (DataFrame (Str (payload p)))) ext)
    /\ (forall p, In p pre -> unrecognized p = true ->
        In (Sent (DataFrame (Dict [("phase", JStr (payload p))]))) ext).

Lemma exited_cons p items failed failed' s s1 f s' extra :
  exited items failed' s1 f s' ->
  events s1 = (extra ++ events s)%list ->
  p <> deleted ->
  failed' = failed || failure_log w p ->
  (kind p = "log" -> In (Sent (DataFrame (Str (payload p)))) extra) ->
  (unrecognized p = true ->
   In (Sent (DataFrame (Dict [("phase", JStr (payload p))]))) extra) ->
  exited (p :: items) failed s f s'.
Proof.
  intros (pre & rest & ext & -> & Hpre & -> & Hev & Hlog & Hun)
         Hs1 Hp -> Hl Hu.
  exists (p :: pre), rest, (ext ++ extra)%list.
  split; [reflexivity|]. split; [constructor; assumption|].
  split; [cbn [List.existsb]; rewrite orb_assoc; reflexivity|].
  split; [rewrite Hev, Hs1, List.app_assoc; reflexivity|].
  split; intros q [<-|Hq] Hk; apply in_or_app; auto.
Qed.

Lemma consume_exit items :
  forall log_future failed event s f s',
    consume w image items log_future failed event s = (Ret f, s') ->
    exited items failed s f s'.
Proof.
  induction items as [|p rest IH]; intros lf failed ev s f s' H;
    [discriminate|].
  cbn [consume] in H.
  destruct (String.eqb (kind p) "pod.phasechange") eqn:Ek.
  - pose proof (phase_change_no_log p Ek) as Nlog.
    assert (Nfail : failed = failed || failure_log w p)
      by (unfold failure_log; rewrite Nlog, orb_false_r; reflexivity).
    assert (Hkl : forall X : Prop, kind p = "log" -> X)
      by (intros X E; rewrite E in Nlog; discriminate).
    destruct (String.eqb (payload p) "Pending") eqn:Ep.
    { apply IH in H.
      apply (exited_cons p rest failed failed s s f s' [] H);
        [reflexivity | | exact Nfail | apply Hkl |].
      - apply String.eqb_eq in Ep. intros ->. discriminate.
      - unfold unrecognized. rewrite Ek, Ep. discriminate. }
    destruct (String.eqb (payload p) "Deleted") eqn:Ed.
    { apply bind_inv in H as [(a & s1 & H1 & H2)|[(e & _ & H2)|[_ H2]]];
        [|discriminate..].
      injection H2 as <- <-.
      destruct (emit_cases w (built_frame image) s) as [[_ E]|[_ E]];
        rewrite E in H1; [|discriminate].
      injection H1 as _ <-.
      exists [], rest, []. rewrite (is_deleted p Ek Ed).
      split; [reflexivity|]. split; [constructor|].
      split; [cbn [List.existsb]; rewrite orb_false_r; reflexivity|].
      split; [reflexivity|].
      split; intros q []. }
    destruct (String.eqb (payload p) "Running") eqn:Er.
    { apply bind_inv in H as [(a & s1 & H1 & H2)|[(e & H1 & _)|[H1 _]]];
        [|destruct lf; discriminate..].
      apply IH in H2.
      apply (exited_cons p rest failed failed s s1 f s'
               (if lf then [] else [PoolSubmit stream_logs]) H2);
        [| | exact Nfail | apply Hkl |].
      - destruct lf; injection H1 as _ <-; reflexivity.
      - apply not_deleted_payload; assumption.
      - unfold unrecognized. rewrite Ek, Ep, Ed, Er. discriminate. }
    destruct (String.eqb (payload p) "Succeeded") eqn:Es.
    { apply IH in H.
      apply (exited_cons p rest failed failed s s f s' [] H);
        [reflexivity | | exact Nfail | apply Hkl |].
      - apply not_deleted_payload; assumption.
      - unfold unrecognized. rewrite Ek, Ep, Ed, Er, Es. discriminate. }
    apply bind_inv in H as [(a & s1 & H1 & H2)|[(e & _ & H2)|[_ H2]]];
      [|discriminate..].
    destruct (emit_cases w (Dict [("phase", JStr (payload p))]) s)
      as [[_ E]|[_ E]]; rewrite E in H1; [|discriminate].
    injection H1 as _ <-. apply IH in H2.
    apply (exited_cons p rest failed failed s _ f s'
             [Sent (DataFrame (Dict [("phase", JStr (payload p))]))] H2);
      [reflexivity | | exact Nfail | apply Hkl |].
    + apply not_deleted_payload; assumption.
    + intros _. left. reflexivity.
  - assert (Nun : forall X : Prop, unrecognized p = true -> X)
      by (unfold unrecognized; rewrite Ek; discriminate).
    destruct (String.eqb (kind p) "log") eqn:El.
    + unfold call in H.
      apply bind_inv in H as [(j & s1 & H1 & H2)|[(e & _ & H2)|[_ H2]]];
        [|discriminate..].
      injection H1 as Hj <-.
      apply bind_inv in H2 as [(b & s2 & H1 & H2)|[(e & _ & H2)|[_ H2]]];
        [|discriminate..].
      injection H1 as Hb <-.
      apply bind_inv in H2 as [(u & s3 & H1 & H2)|[(e & H1 & _)|[H1 _]]];
        [|destruct b; discriminate..].
      apply bind_inv in H2 as [(u' & s4 & H3 & H4)|[(e & _ & H4)|[_ H4]]];
        [|discriminate..].
      destruct (emit_cases w (Str (payload p)) s3) as [[_ E]|[_ E]];
        rewrite E in H3; [|discriminate].
      injection H3 as _ <-. apply IH in H4.
      apply (exited_cons p rest failed (failed || b) s _ f s'
               (Sent (DataFrame (Str (payload p)))
                :: (if b then [Observe BUILD_TIME failure] else [])) H4);
        [| | | | apply Nun].
      * destruct b; injection H1 as _ <-; reflexivity.
      * apply not_deleted_kind; assumption.
      * unfold failure_log. rewrite El, Hj, Hb. reflexivity.
      * intros _. left. reflexivity.
    + assert (Nfail : failed = failed || failure_log w p)
        by (unfold failure_log; rewrite El, orb_false_r; reflexivity).
      destruct ev as [ev|]; [|discriminate].
      apply bind_inv in H as [(a & s1 & H1 & H2)|[(e & _ & H2)|[_ H2]]];
        [|discriminate..].
      destruct (emit_cases w ev s) as [[_ E]|[_ E]];
        rewrite E in H1; [|discriminate].
      injection H1 as _ <-. apply IH in H2.
      apply (exited_cons p rest failed failed s _ f s'
               [Sent (DataFrame ev)] H2);
        [reflexivity | | exact Nfail | | apply Nun].
      * apply not_deleted_kind; assumption.
      * intros E'. rewrite E' in El. discriminate.
Qed.

(** The exit of the loop: when it returns, it has consumed the phase
    change [Deleted], and every item before it was not [Deleted]; every
    log line among them, also one with [phase == "failure"], was
    forwarded and the loop went on, as was every phase string the loop
    has no case for, forwarded as [{phase: <string>}].  The result of the
    loop, [failed], tells whether a failure line was among them. *)
Theorem consume_ends_only_on_deleted items log_future failed event s f s' :
  consume w image items log_future failed event s = (Ret f, s') ->
  exists pre rest ext,
    items = (pre ++ deleted :: rest)%list
    /\ Forall (fun p => p <> deleted) pre
    /\ f = failed || List.existsb (failure_log w) pre
    /\ events s'
       = (Sent (DataFrame (built_frame image)) :: ext ++ events s)%list
    /\ (forall p, In p pre -> kind p = "log" ->
        In (Sent (DataFrame (Str (payload p)))) ext)
    /\ (forall p, In p pre -> unrecognized p = true ->
        In (Sent (DataFrame (Dict [("phase", JStr (payload p))]))) ext).
Proof. intros H. exact (consume_exit items log_future failed event s f s' H). Qed.

End WithWorld.

Lemma consume_ends_only_on_deleted_witness :
  consume build_fails example_image (queue build_fails) false false None
          initial
  = (Ret true,
     snd (consume build_fails example_image (queue build_fails) false false
                  None initial))
  /\ exists pre rest ext,
       queue build_fails = (pre ++ deleted :: rest)%list
       /\ Forall (fun p => p <> deleted) pre
       /\ true = false || List.existsb (failure_log build_fails) pre
       /\ events (snd (consume build_fails example_image (queue build_fails)
                               false false None initial))
          = (Sent (DataFrame (built_frame example_image))
             :: ext ++ events initial)%list
       /\ (forall p, In p pre -> kind p = "log" ->
           In (Sent (DataFrame (Str (payload p)))) ext)
       /\ (forall p, In p pre -> unrecognized p = true ->
           In (Sent (DataFrame (Dict [("phase", JStr (payload p))]))) ext).
Proof.
  split; [vm_compute; reflexivity|].
  apply (consume_ends_only_on_deleted build_fails example_image
           (queue build_fails) false false None initial true).
  vm_compute. reflexivity.
Defined.

(** C1.  The loop ends on neither of the two failures the claim names.
    A pod that goes into [FailedUnrecoverable] is forwarded as
    [{phase: FailedUnrecoverable}] and the loop waits for the next item;
    when [Deleted] follows, the loop ends with the [built] frame and with
    [failed] still false.  A log line with [phase == "failure"] is
    recorded and forwarded, and the loop waits as well: it ends only at
    [Deleted]. *)
Theorem failure_does_not_end_the_loop :
  unrecognized (phase "FailedUnrecoverable") = true
  /\ failure_log build_fails (log_line failure_line) = true
  /\ (let run := consume build_fails example_image
                   [phase "FailedUnrecoverable"] false false None initial in
      fst run = Blocked
      /\ trace (snd run)
         = [Sent (DataFrame (Dict [("phase", JStr "FailedUnrecoverable")]))])
  /\ (let run := consume build_fails example_image
                   [phase "FailedUnrecoverable"; phase "Deleted"]
                   false false None initial in
      fst run = Ret false
      /\ trace (snd run)
         = [Sent (DataFrame (Dict [("phase", JStr "FailedUnrecoverable")]));
            Sent (DataFrame (built_frame example_image))])
  /\ (let run := consume build_fails example_image
                   [log_line failure_line] false false None initial in
      fst run = Blocked
      /\ trace (snd run)
         = [Observe BUILD_TIME failure;
            Sent (DataFrame (Str failure_line))])
  /\ (let run := consume build_fails example_image
                   [log_line failure_line; phase "FailedUnrecoverable";
                    phase "Deleted"]
                   false false None initial in
      fst run = Ret true
      /\ trace (snd run)
         = [Observe BUILD_TIME failure;
            Sent (DataFrame (Str failure_line));
            Sent (DataFrame (Dict [("phase", JStr "FailedUnrecoverable")]));
            Sent (DataFrame (built_frame example_image))]).
Proof. repeat split; vm_compute; reflexivity. Qed.

End ConsumeFacts.

Module LaunchFacts.

Import PyStr BuildHandler HandlerFacts Scenario.

(** What [Launcher.launch] returns when it returns a dictionary. *)
Lemma launcher_returns lw image username calls info calls' :
  Launcher.launch lw image username calls = (Ret (Some info), calls') ->
  info = [("url", Launcher.hub_url lw ++ "user/" ++ username ++ "/");
          ("token", Launcher.mint_token (Launcher.urandom lw))].
Proof.
  unfold Launcher.launch, Launcher.abort_launch, Launcher.should_abort,
    Launcher.api_request, bind, try_except, ret, raise.
  repeat match goal with
         | |- context [match ?x with _ => _ end] => destruct x
         end;
    intros H; try discriminate; injection H as <- _; reflexivity.
Qed.

Lemma emits_get_state (P : action -> Prop) : emits P get_state.
Proof.
  apply emits_silent. eapply spec_weaken; [apply spec_get_state|].
  intros ? ? [-> _]. reflexivity.
Qed.

Lemma emits_ret {A} (P : action -> Prop) (a : A) : emits P (ret a).
Proof. eapply emits_adds; [apply adds_ret | constructor]. Qed.

Lemma emits_raise {A} (P : action -> Prop) e : emits P (@raise state A e).
Proof. eapply emits_adds; [apply adds_raise | constructor]. Qed.

Lemma emits_call {A} (P : action -> Prop) (r : res A) : emits P (call r).
Proof. eapply emits_adds; [apply adds_call | constructor]. Qed.

Lemma emits_record (P : action -> Prop) a : P a -> emits P (record a).
Proof.
  intros H. eapply emits_adds; [apply adds_record | constructor; auto].
Qed.

Section WithWorld.

Variable w : world.

Lemma launcher_launch_result image username s r s' :
  launcher_launch w image username s = (r, s') ->
  (forall info, r = Ret (Some info) ->
     exists url token, info = [("url", url); ("token", token)])
  /\ exists calls, events s' = (rev (map HubRequest calls) ++ events s)%list.
Proof.
  intros H. split; [|eapply launcher_launch_events; eassumption].
  revert H. unfold launcher_launch.
  destruct (Launcher.launch _ image username []) as [r0 calls] eqn:E.
  intros H. injection H as <- _. intros info ->.
  apply launcher_returns in E. eauto.
Qed.

Lemma emits_launcher_launch image username :
  emits hub_or_observe (launcher_launch w image username).
Proof.
  intros s r s' H.
  destruct (launcher_launch_result _ _ _ _ _ H) as [_ (calls & E)].
  exists (rev (map HubRequest calls)). split; [exact E|].
  apply Forall_rev, Forall_map, Forall_forall.
  intros c _. left. eauto.
Qed.

Lemma launch_try_emits s0 username :
  emits hub_or_observe (launch_try w s0 username).
Proof.
  apply emits_try_except.
  - apply emits_bind; [apply emits_silent, adds_attribute|].
    intros image. apply emits_bind; [apply emits_launcher_launch|].
    intros info. apply emits_bind; [apply emits_get_state|].
    intros st.
    destruct (match _abort_launch st with Some d => d | None => false end).
    + apply emits_ret.
    + apply emits_bind; [|intros _; apply emits_ret].
      apply emits_record. right. eauto.
  - intros e. apply emits_bind; [|intros _; apply emits_raise].
    apply emits_record. right. eauto.
Qed.

Lemma launch_try_returns s0 username s info s' :
  launch_try w s0 username s = (Ret (Some (Some info)), s') ->
  exists url token, info = [("url", url); ("token", token)].
Proof.
  intros H.
  apply try_except_inv in H as [(e & s1 & H1 & H2)|[H1 _]];
    [discriminate|].
  apply bind_inv in H1 as [(image & s1 & _ & H2)|[(e & _ & H2)|[_ H2]]];
    [|discriminate..].
  apply bind_inv in H2 as [(i & s2 & H2 & H3)|[(e & _ & H3)|[_ H3]]];
    [|discriminate..].
  apply bind_inv in H3 as [(st & s3 & _ & H4)|[(e & _ & H4)|[_ H4]]];
    [|discriminate..].
  destruct (match _abort_launch st with Some d => d | None => false end);
    [discriminate|].
  injection H4 as -> _.
  destruct (launcher_launch_result _ _ _ _ _ H2) as [Hinfo _].
  apply (Hinfo info). reflexivity.
Qed.

Lemma launch_shape : spec launch_record (launch w).
Proof.
  unfold launch. intros s r s' H.
  apply bind_inv in H as [(a & s1 & H1 & H2)|[(e & H1 & ->)|[H1 ->]]].
  - destruct (emit_cases w launching_frame s) as [[_ E]|[_ E]];
      rewrite E in H1; [|discriminate].
    injection H1 as _ <-.
    apply bind_inv in H2 as [(s0 & s2 & H1 & H2)|[(e & H1 & ->)|[H1 ->]]];
      [|discriminate..].
    injection H1 as <- <-.
    apply bind_inv in H2 as [(u & s2 & H1 & H2)|[(e & H1 & ->)|[H1 ->]]].
    2,3: exists [Sent (DataFrame launching_frame)];
      destruct (adds_attribute "repo" (repo (delivered (DataFrame launching_frame) s)) _ _ _ H1)
        as (e0 & E0 & ->); split; [exact E0|];
      apply (LaunchStopped []); constructor.
    destruct (adds_attribute "repo" _ _ _ _ H1) as (e0 & E0 & ->).
    apply bind_inv in H2 as [(un & s3 & H3 & H2)|[(e & H3 & ->)|[H3 ->]]].
    2,3: injection H3 as _ <-; exists [Sent (DataFrame launching_frame)];
      split; [exact E0|]; apply (LaunchStopped []); constructor.
    injection H3 as _ <-.
    apply bind_inv in H2 as [(u2 & s4 & H3 & H2)|[(e & H3 & ->)|[H3 ->]]];
      [|discriminate..].
    injection H3 as _ <-.
    apply bind_inv in H2 as [(r0 & s5 & H3 & H4)|[(e & H3 & ->)|[H3 ->]]].
    2,3: destruct (launch_try_emits _ _ _ _ _ H3) as (e1 & E1 & F1);
      exists (e1 ++ [Sent (DataFrame launching_frame)])%list;
      split; [rewrite E1; cbn [events set_abort_launch modify];
              rewrite E0, <- List.app_assoc; reflexivity|];
      apply LaunchStopped; exact F1.
    destruct (launch_try_emits _ _ _ _ _ H3) as (e1 & E1 & F1).
    assert (E5 : events s5
                 = ((e1 ++ [Sent (DataFrame launching_frame)]) ++ events s)%list).
    { rewrite E1. cbn [events]. rewrite E0, <- List.app_assoc. reflexivity. }
    destruct r0 as [[info|]|].
    + destruct (launch_try_returns _ _ _ _ _ H3) as (url & token & ->).
      cbn [lookup String.eqb Ascii.eqb Bool.eqb] in H4.
      change (dict_update _ _) with 
        [("phase", JStr "ready");
         ("message", JStr ("server running at " ++ url ++ nl));
         ("url", JStr url); ("token", JStr token)] in H4.
      fold (ready_frame url token) in H4.
      destruct (spec_emit w _ _ _ _ H4) as (e2 & E2 & [[-> ->]|[-> ->]]).
      * exists (Sent (DataFrame (ready_frame url token))
                :: e1 ++ [Sent (DataFrame launching_frame)])%list.
        rewrite E2, E5. split; [reflexivity|]. apply LaunchReady; exact F1.
      * exists (StreamClosed (DataFrame (ready_frame url token))
                :: e1 ++ [Sent (DataFrame launching_frame)])%list.
        rewrite E2, E5. split; [reflexivity|]. apply ReadyClosed; exact F1.
    + injection H4 as <- <-. eexists. split; [exact E5|].
      apply LaunchStopped; exact F1.
    + injection H4 as <- <-. eexists. split; [exact E5|].
      apply LaunchStopped; exact F1.
  - destruct (emit_cases w launching_frame s) as [[_ E]|[_ E]];
      rewrite E in H1; [discriminate|].
    injection H1 as <- <-.
    exists [StreamClosed (DataFrame launching_frame)].
    split; [reflexivity | constructor].
  - destruct (emit_cases w launching_frame s) as [[_ E]|[_ E]];
      rewrite E in H1; discriminate.
Qed.

End WithWorld.

End LaunchFacts.

Module LoopFacts.

Import PyStr BuildHandler HandlerFacts Scenario LaunchFacts.

Section WithWorld.

Variable w : world.
Variable image : string.

Lemma loop_event_not_failure a :
  loop_event a -> a <> Observe BUILD_TIME failure ->
  is_build_failure a = false.
Proof.
  intros [(d & _ & ->)|[->| ->]] N; try reflexivity. contradiction.
Qed.

(** The loop goes on after [extra]: the record of the rest comes on top. *)
Lemma loop_record_after failed extra ext r :
  Forall loop_event extra ->
  loop_record image (failed || List.existsb is_build_failure extra) ext r ->
  loop_record image failed (ext ++ extra)%list r.
Proof.
  intros Fe H. destruct H as [e Fx|d e Hd Fx|e r Fx Hr].
  - cbn [app].
    replace (failed || List.existsb is_build_failure extra
             || List.existsb is_build_failure e)
      with (failed || List.existsb is_build_failure (e ++ extra)).
    + apply LoopDone. apply Forall_app; auto.
    + rewrite List.existsb_app, <- orb_assoc.
      f_equal. apply orb_comm.
  - cbn [app]. apply LoopClosed; [exact Hd | apply Forall_app; auto].
  - apply LoopStopped; [apply Forall_app; auto | exact Hr].
Qed.

Lemma forwardable_phase p : forwardable (Dict [("phase", JStr p)]).
Proof. right. eauto. Qed.

Lemma forwardable_line l : forwardable (Str l).
Proof. left. eauto. Qed.

Lemma loop_event_sent d : forwardable d -> loop_event (Sent (DataFrame d)).
Proof. intros H. left. eauto. Qed.

(** One frame of the loop, then the rest of the loop. *)
Lemma loop_emit_then failed d (k : M state bool) :
  forwardable d ->
  spec (loop_record image failed) k ->
  spec (loop_record image failed) (emit w d ;;; k).
Proof.
  intros Hd Hk s r s' H.
  apply bind_inv in H as [(a & s1 & H1 & H2)|[(e & H1 & ->)|[H1 ->]]];
    destruct (emit_cases w d s) as [[_ E]|[_ E]]; rewrite E in H1;
    try discriminate.
  - injection H1 as _ <-.
    destruct (Hk _ _ _ H2) as (ext & E2 & R).
    exists (ext ++ [Sent (DataFrame d)])%list.
    split; [rewrite E2; cbn [events delivered];
            rewrite <- List.app_assoc; reflexivity|].
    apply loop_record_after.
    + constructor; [apply loop_event_sent; exact Hd | constructor].
    + cbn [List.existsb is_build_failure]. rewrite !orb_false_r. exact R.
  - injection H1 as <- <-.
    exists [StreamClosed (DataFrame d)]. split; [reflexivity|].
    apply LoopClosed; [left; exact Hd | constructor].
Qed.

Lemma consume_shape items :
  forall log_future failed event,
    (forall d, event = Some d -> forwardable d) ->
    spec (loop_record image failed)
         (consume w image items log_future failed event).
Proof.
  induction items as [|p rest IH]; intros lf failed ev Hev.
  { intros s r s' H. injection H as <- <-. exists [].
    split; [reflexivity|]. apply LoopStopped; [constructor | discriminate]. }
  cbn [consume].
  destruct (String.eqb (kind p) "pod.phasechange").
  - destruct (String.eqb (payload p) "Pending"); [apply IH; exact Hev|].
    destruct (String.eqb (payload p) "Deleted").
    { intros s r s' H.
      apply bind_inv in H as [(a & s1 & H1 & H2)|[(e & H1 & ->)|[H1 ->]]];
        destruct (emit_cases w (built_frame image) s) as [[_ E]|[_ E]];
        rewrite E in H1; try discriminate.
      - injection H1 as _ <-. injection H2 as <- <-.
        exists [Sent (DataFrame (built_frame image))].
        split; [reflexivity|].
        replace failed with (failed || List.existsb is_build_failure [])
          at 2 by apply orb_false_r.
        apply LoopDone. constructor.
      - injection H1 as <- <-.
        exists [StreamClosed (DataFrame (built_frame image))].
        split; [reflexivity|].
        apply LoopClosed; [right; reflexivity | constructor]. }
    destruct (String.eqb (payload p) "Running").
    { intros s r s' H.
      apply bind_inv in H as [(a & s1 & H1 & H2)|[(e & H1 & _)|[H1 _]]];
        [|destruct lf; discriminate..].
      destruct (IH true failed ev Hev _ _ _ H2) as (ext & E2 & R).
      destruct lf; injection H1 as _ <-.
      - exists ext. auto.
      - exists (ext ++ [PoolSubmit stream_logs])%list.
        split; [rewrite E2; cbn [events push];
                rewrite <- List.app_assoc; reflexivity|].
        apply loop_record_after.
        + constructor; [right; left; reflexivity | constructor].
        + cbn [List.existsb is_build_failure]. rewrite !orb_false_r.
          exact R. }
    destruct (String.eqb (payload p) "Succeeded"); [apply IH; exact Hev|].
    apply loop_emit_then; [apply forwardable_phase|].
    apply IH. intros d Hd. injection Hd as <-. apply forwardable_phase.
  - destruct (String.eqb (kind p) "log").
    + intros s r s' H. unfold call in H.
      apply bind_inv in H as [(j & s1 & H1 & H2)|[(e & H1 & ->)|[H1 ->]]].
      2,3: injection H1 as _ <-; exists []; split; [reflexivity|];
        apply LoopStopped; [constructor | discriminate].
      injection H1 as _ <-.
      apply bind_inv in H2 as [(b & s2 & H1 & H2)|[(e & H1 & ->)|[H1 ->]]].
      2,3: injection H1 as _ <-; exists []; split; [reflexivity|];
        apply LoopStopped; [constructor | discriminate].
      injection H1 as _ <-.
      apply bind_inv in H2 as [(u & s3 & H1 & H2)|[(e & H1 & _)|[H1 _]]];
        [|destruct b; discriminate..].
      assert (Hk : spec (loop_record image (failed || b))
                     (emit w (Str (payload p)) ;;;
                      consume w image rest lf (failed || b)
                              (Some (Str (payload p))))).
      { apply loop_emit_then; [apply forwardable_line|].
        apply IH. intros d Hd. injection Hd as <-. apply forwardable_line. }
      destruct (Hk _ _ _ H2) as (ext & E2 & R).
      destruct b; injection H1 as _ <-.
      * exists (ext ++ [Observe BUILD_TIME failure])%list.
        split; [rewrite E2; cbn [events push];
                rewrite <- List.app_assoc; reflexivity|].
        apply loop_record_after.
        -- constructor; [right; right; reflexivity | constructor].
        -- cbn [List.existsb is_build_failure]. rewrite orb_false_r.
           exact R.
      * exists ext. split; [exact E2|].
        rewrite orb_false_r in R. exact R.
    + destruct ev as [ev|].
      * apply loop_emit_then; [apply Hev; reflexivity|].
        apply IH. exact Hev.
      * intros s r s' H. injection H as <- <-. exists [].
        split; [reflexivity|].
        apply LoopStopped; [constructor | discriminate].
Qed.

End WithWorld.

End LoopFacts.

Module BuildLaunchFacts.

Import PyStr BuildHandler HandlerFacts Scenario LaunchFacts LoopFacts.

Lemma launch_attempts_app a b :
  launch_attempts (a ++ b) = (launch_attempts a + launch_attempts b)%nat.
Proof. unfold launch_attempts. now rewrite filter_app, List.length_app. Qed.

Lemma build_done_app a b : build_done (a ++ b) = build_done a || build_done b.
Proof. apply List.existsb_app. Qed.

Lemma build_failed_app a b :
  build_failed (a ++ b) = build_failed a || build_failed b.
Proof. apply List.existsb_app. Qed.

Lemma neutral_summary l :
  Forall neutral l ->
  launch_attempts l = 0%nat /\ build_done l = false /\ build_failed l = false.
Proof.
  induction 1 as [|a l (Ha & Hd & Hf) _ (IA & ID & IF)];
    [repeat split|].
  unfold launch_attempts, build_done, build_failed in *.
  cbn [filter List.existsb]. rewrite Ha, Hd, Hf. auto.
Qed.

Lemma hub_or_observe_neutral a : hub_or_observe a -> neutral a.
Proof. intros [(c & ->)|(st & ->)]; repeat split. Qed.

Lemma loop_event_quiet a :
  loop_event a -> is_launch_attempt a = false /\ is_build_done a = false.
Proof.
  intros [(d & [(l & ->)|(p & ->)] & ->)|[->| ->]]; split; reflexivity.
Qed.

Lemma loop_events_summary l :
  Forall loop_event l -> launch_attempts l = 0%nat /\ build_done l = false.
Proof.
  induction 1 as [|a l Ha _ (IA & ID)]; [split; reflexivity|].
  destruct (loop_event_quiet a Ha) as (Hl & Hd).
  unfold launch_attempts, build_done in *.
  cbn [filter List.existsb]. rewrite Hl, Hd. auto.
Qed.

Lemma launch_record_summary ext r :
  launch_record ext r ->
  launch_attempts ext = 1%nat /\ build_done ext = false
  /\ build_failed ext = false.
Proof.
  intros H.
  destruct H as [|mid r F|mid url token F|mid url token F];
    try (destruct (neutral_summary mid
                     (Forall_impl _ hub_or_observe_neutral F))
           as (HA & HD & HF)).
  - repeat split.
  - rewrite launch_attempts_app, build_done_app, build_failed_app,
      HA, HD, HF. repeat split.
  - change (?a :: mid ++ ?b)%list with ([a] ++ mid ++ b)%list.
    rewrite !launch_attempts_app, !build_done_app, !build_failed_app,
      HA, HD, HF. repeat split.
  - change (?a :: mid ++ ?b)%list with ([a] ++ mid ++ b)%list.
    rewrite !launch_attempts_app, !build_done_app, !build_failed_app,
      HA, HD, HF. repeat split.
Qed.

Lemma loop_record_summary image failed ext r :
  loop_record image failed ext r ->
  launch_attempts ext = 0%nat
  /\ ((exists f, r = Ret f /\ build_done ext = true
                 /\ f = failed || build_failed ext)
      \/ ((forall f, r <> Ret f) /\ build_done ext = false)).
Proof.
  intros H. destruct H as [e F|d e Hd F|e r F Hr];
    destruct (loop_events_summary e F) as (HA & HD).
  - change (?a :: e)%list with ([a] ++ e)%list.
    rewrite launch_attempts_app, build_done_app, build_failed_app, HA.
    split; [reflexivity|]. left. eexists. repeat split.
  - change (?a :: e)%list with ([a] ++ e)%list.
    rewrite launch_attempts_app, build_done_app, HA, HD.
    split.
    + destruct Hd as [[(l & ->)|(p & ->)]| ->]; reflexivity.
    + right. split; [discriminate|].
      destruct Hd as [[(l & ->)|(p & ->)]| ->]; reflexivity.
  - split; [exact HA|]. right. auto.
Qed.

End BuildLaunchFacts.

Module BuildThenLaunch.

Import PyStr BuildHandler HandlerFacts Scenario LaunchFacts LoopFacts
  BuildLaunchFacts.

Local Open Scope list_scope.

Lemma neutral_cons a l :
  neutral a ->
  launch_attempts (a :: l) = launch_attempts l
  /\ build_done (a :: l) = build_done l
  /\ build_failed (a :: l) = build_failed l.
Proof.
  intros (Ha & Hd & Hf).
  unfold launch_attempts, build_done, build_failed.
  cbn [filter List.existsb]. rewrite Ha, Hd, Hf. auto.
Qed.

Lemma neutral_app n l :
  Forall neutral n ->
  launch_attempts (n ++ l) = launch_attempts l
  /\ build_done (n ++ l) = build_done l
  /\ build_failed (n ++ l) = build_failed l.
Proof.
  intros H. destruct (neutral_summary n H) as (HA & HD & HF).
  rewrite launch_attempts_app, build_done_app, build_failed_app, HA, HD, HF.
  auto.
Qed.

Lemma app_neutral l n :
  Forall neutral n ->
  launch_attempts (l ++ n) = launch_attempts l
  /\ build_done (l ++ n) = build_done l
  /\ build_failed (l ++ n) = build_failed l.
Proof.
  intros H. destruct (neutral_summary n H) as (HA & HD & HF).
  rewrite launch_attempts_app, build_done_app, build_failed_app, HA, HD, HF.
  rewrite Nat.add_0_r, !orb_false_r. auto.
Qed.

Lemma existsb_rev {A} (f : A -> bool) l :
  List.existsb f (rev l) = List.existsb f l.
Proof.
  induction l as [|a l IH]; [reflexivity|].
  cbn [rev List.existsb]. rewrite List.existsb_app, IH.
  cbn [List.existsb]. rewrite orb_false_r. apply orb_comm.
Qed.

Lemma launch_attempts_rev l : launch_attempts (rev l) = launch_attempts l.
Proof.
  unfold launch_attempts.
  induction l as [|a l IH]; [reflexivity|].
  cbn [rev filter]. rewrite filter_app, List.length_app, IH.
  cbn [filter]. destruct (is_launch_attempt a); cbn [List.length]; lia.
Qed.

Lemma build_done_rev l : build_done (rev l) = build_done l.
Proof. apply existsb_rev. Qed.

Lemma build_failed_rev l : build_failed (rev l) = build_failed l.
Proof. apply existsb_rev. Qed.

(** A record without a completed build obeys [launch_follows_build]. *)
Lemma not_done_follows l : build_done l = false -> launch_follows_build l.
Proof. intros H D. rewrite H in D. discriminate. Qed.

(** Events that came before, none of them a launch attempt, a completed
    build or a recorded failure, change nothing. *)
Lemma follows_after_neutral e2 e1 :
  launch_follows_build e2 -> Forall neutral e1 ->
  launch_follows_build (e2 ++ e1).
Proof.
  intros H N D.
  destruct (app_neutral e2 e1 N) as (_ & D1 & _). rewrite D1 in D.
  destruct (H D) as (post & image & pre & -> & PA & PD & QD & QA).
  destruct (app_neutral pre e1 N) as (A2 & D2 & F2).
  exists post, image, (pre ++ e1).
  rewrite <- List.app_assoc. cbn [app].
  rewrite A2, D2, F2. auto.
Qed.

Definition follows {A} (m : M state A) : Prop :=
  spec (fun ext _ => launch_follows_build ext) m.

Lemma follows_neutral {A} (m : M state A) : emits neutral m -> follows m.
Proof.
  intros H. eapply spec_weaken; [exact H|].
  intros ext r0 F. apply not_done_follows.
  apply (neutral_summary ext F).
Qed.

Lemma follows_bind {A B} (m : M state A) (k : A -> M state B) :
  emits neutral m -> (forall a, follows (k a)) -> follows (bind m k).
Proof.
  intros Hm Hk s r s' H.
  apply bind_inv in H as [(a & s1 & H1 & H2)|[(e & H1 & ->)|[H1 ->]]];
    destruct (Hm _ _ _ H1) as (e1 & E1 & F1).
  - destruct (Hk a _ _ _ H2) as (e2 & E2 & F2).
    exists (e2 ++ e1). rewrite E2, E1, List.app_assoc.
    split; [reflexivity | apply follows_after_neutral; auto].
  - exists e1. split; [exact E1|].
    apply not_done_follows, (neutral_summary e1 F1).
  - exists e1. split; [exact E1|].
    apply not_done_follows, (neutral_summary e1 F1).
Qed.

Lemma loop_record_returned image failed ext f :
  loop_record image failed ext (Ret f) ->
  exists e, ext = Sent (DataFrame (built_frame image)) :: e
            /\ Forall loop_event e /\ f = failed || build_failed e.
Proof.
  intros H. inversion H as [e Fx|d e Hd Fx|e r Fx Hr]; subst.
  - exists e. auto.
  - exfalso. apply (Hr f). reflexivity.
Qed.

Section WithWorld.

Variable w : world.

(** The body of [with BUILDS_INPROGRESS.track_inprogress()]. *)
Lemma build_body_shape image :
  spec (fun ext r =>
          (ext = [StreamClosed (DataFrame waiting_frame); PoolSubmit submit]
           /\ r = Raise Finish)
          \/ exists ec,
               ext = ec ++ [Sent (DataFrame waiting_frame);
                            PoolSubmit submit]
               /\ loop_record image false ec r)
       (record (PoolSubmit submit) ;;;
        emit w waiting_frame ;;;
        consume w image (queue w) false false None).
Proof.
  intros s r s' H.
  apply bind_inv in H as [(a & s1 & H1 & H2)|[(e & H1 & _)|[H1 _]]];
    [|discriminate..].
  injection H1 as _ <-.
  apply bind_inv in H2 as [(a2 & s2 & H1 & H2)|[(e & H1 & ->)|[H1 ->]]];
    destruct (emit_cases w waiting_frame (push (PoolSubmit submit) s))
      as [[_ E]|[_ E]]; rewrite E in H1; try discriminate.
  - injection H1 as _ <-.
    assert (Hev : forall d, @None data = Some d -> forwardable d)
      by discriminate.
    destruct (consume_shape w image (queue w) false false None Hev _ _ _ H2)
      as (ec & E2 & R).
    exists (ec ++ [Sent (DataFrame waiting_frame); PoolSubmit submit]).
    split; [rewrite E2, <- List.app_assoc; reflexivity|]. right. eauto.
  - injection H1 as <- <-.
    exists [StreamClosed (DataFrame waiting_frame); PoolSubmit submit].
    split; [reflexivity|]. left. auto.
Qed.

(** When the body does not return, the [built] frame is not in its
    record. *)
Lemma build_body_unfinished image ext (r : res bool) :
  ((ext = [StreamClosed (DataFrame waiting_frame); PoolSubmit submit]
    /\ r = Raise Finish)
   \/ exists ec,
        ext = ec ++ [Sent (DataFrame waiting_frame); PoolSubmit submit]
        /\ loop_record image false ec r) ->
  (forall f, r <> Ret f) -> build_done ext = false.
Proof.
  intros [[-> ->]|(ec & -> & R)] N; [reflexivity|].
  assert (Nw : Forall neutral [Sent (DataFrame waiting_frame);
                               PoolSubmit submit])
    by (repeat constructor).
  destruct (app_neutral ec _ Nw) as (_ & -> & _).
  destruct (loop_record_summary _ _ _ _ R)
    as (_ & [(f & Hf & _)|[_ HD]]); [|exact HD].
  exfalso. apply (N f Hf).
Qed.

(** Lines 199-277 of [get] obey [launch_follows_build]. *)
Lemma build_and_launch_follows build_name image repo_url ref :
  follows (build_and_launch w build_name image repo_url ref).
Proof.
  unfold build_and_launch. intros s r s' H.
  apply bind_inv in H as [(a & s1 & H1 & H)|[(e & H1 & _)|[H1 _]]];
    [|discriminate..].
  injection H1 as _ <-.
  apply bind_inv in H as [(a2 & s2 & H1 & H)|[(e & H1 & _)|[H1 _]]];
    [|discriminate..].
  injection H1 as _ <-.
  match type of H with
  | bind _ _ ?st = _ => set (s2 := st) in *
  end.
  assert (E2 : exists b, events s2 = [NewBuild b; NewQueue] ++ events s)
    by (eexists; reflexivity).
  destruct E2 as (b & E2). clearbody s2.
  assert (Npre : Forall neutral [Sent (DataFrame waiting_frame);
                                 PoolSubmit submit;
                                 Inc BUILDS_INPROGRESS; NewBuild b; NewQueue])
    by (repeat constructor).
  apply bind_inv in H as [(failed & s3 & H1 & H)|[(e & H1 & ->)|[H1 ->]]].
  - apply track_inprogress_inv in H1
      as (s0 & E0 & [[Hb Hr]|(s1 & Hb & E1 & _)]); [discriminate|].
    destruct (build_body_shape image _ _ _ Hb)
      as (eb & Eb & [[_ Hr]|(ec & -> & R)]); [discriminate|].
    apply loop_record_returned in R as (e & -> & Fe & Hf).
    cbn [orb] in Hf.
    set (pre := e ++ [Sent (DataFrame waiting_frame); PoolSubmit submit;
                      Inc BUILDS_INPROGRESS; NewBuild b; NewQueue]).
    assert (E3 : events s3
                 = ([Dec BUILDS_INPROGRESS]
                    ++ Sent (DataFrame (built_frame image)) :: pre)
                   ++ events s).
    { rewrite E1, Eb, E0, E2. unfold pre. cbn [app].
      rewrite <- !List.app_assoc. reflexivity. }
    destruct (app_neutral e _ Npre) as (A1 & D1 & F1). fold pre in A1, D1, F1.
    destruct (loop_events_summary e Fe) as (Ae & De).
    rewrite Ae in A1. rewrite De in D1. rewrite <- Hf in F1.
    destruct failed.
    + injection H as <- <-. eexists. split; [exact E3|].
      intros _. exists [Dec BUILDS_INPROGRESS], image, pre.
      rewrite F1. auto.
    + apply bind_inv in H as [(u & s4 & H1 & H)|[(e' & H1 & _)|[H1 _]]];
        [|discriminate..].
      injection H1 as _ <-.
      apply track_inprogress_inv in H as (s5 & E5 & Hl).
      assert (Hlaunch : exists rl s6 tail,
                 launch w s5 = (rl, s6)
                 /\ events s' = tail ++ events s6
                 /\ Forall neutral tail).
      { destruct Hl as [[Hl _]|(s6 & Hl & E6 & _)].
        - exists Blocked, s', []. auto.
        - exists r, s6, [Dec LAUNCHES_INPROGRESS].
          repeat split; [exact Hl | exact E6 | repeat constructor]. }
      destruct Hlaunch as (rl & s6 & tail & Hl' & Es' & Nt).
      destruct (launch_shape w _ _ _ Hl') as (el & E6 & R).
      destruct (launch_record_summary _ _ R) as (LA & LD & LF).
      set (post := tail ++ el ++ [Inc LAUNCHES_INPROGRESS;
                                  Observe BUILD_TIME success;
                                  Dec BUILDS_INPROGRESS]).
      exists (post ++ Sent (DataFrame (built_frame image)) :: pre).
      split.
      { rewrite Es', E6, E5. cbn [push events]. rewrite E3. unfold post.
        cbn [app]. rewrite <- !List.app_assoc. reflexivity. }
      intros _. exists post, image, pre.
      rewrite F1. repeat split; auto.
      * unfold post.
        destruct (neutral_app tail
                    (el ++ [Inc LAUNCHES_INPROGRESS;
                            Observe BUILD_TIME success;
                            Dec BUILDS_INPROGRESS]) Nt) as (_ & -> & _).
        destruct (app_neutral el [Inc LAUNCHES_INPROGRESS;
                                  Observe BUILD_TIME success;
                                  Dec BUILDS_INPROGRESS])
          as (_ & -> & _); [repeat constructor | exact LD].
      * unfold post.
        destruct (neutral_app tail
                    (el ++ [Inc LAUNCHES_INPROGRESS;
                            Observe BUILD_TIME success;
                            Dec BUILDS_INPROGRESS]) Nt) as (-> & _ & _).
        destruct (app_neutral el [Inc LAUNCHES_INPROGRESS;
                                  Observe BUILD_TIME success;
                                  Dec BUILDS_INPROGRESS])
          as (-> & _ & _); [repeat constructor | exact LA].
  - apply track_inprogress_inv in H1
      as (s0 & E0 & [[Hb Hr]|(s1 & Hb & E1 & _)]); [discriminate|].
    destruct (build_body_shape image _ _ _ Hb) as (eb & Eb & Sh).
    apply build_body_unfinished in Sh; [|discriminate].
    exists ([Dec BUILDS_INPROGRESS] ++ eb
            ++ [Inc BUILDS_INPROGRESS; NewBuild b; NewQueue]).
    split.
    { rewrite E1, Eb, E0, E2. cbn [app].
      rewrite <- List.app_assoc. reflexivity. }
    apply not_done_follows.
    destruct (neutral_app [Dec BUILDS_INPROGRESS]
                (eb ++ [Inc BUILDS_INPROGRESS; NewBuild b; NewQueue]))
      as (_ & -> & _); [repeat constructor|].
    destruct (app_neutral eb [Inc BUILDS_INPROGRESS; NewBuild b; NewQueue])
      as (_ & -> & _); [repeat constructor | exact Sh].
  - apply track_inprogress_inv in H1
      as (s0 & E0 & [[Hb Hr]|(s1 & Hb & E1 & N)]);
      [|exfalso; apply N; reflexivity].
    destruct (build_body_shape image _ _ _ Hb) as (eb & Eb & Sh).
    apply build_body_unfinished in Sh; [|discriminate].
    exists (eb ++ [Inc BUILDS_INPROGRESS; NewBuild b; NewQueue]).
    split.
    { rewrite Eb, E0, E2. cbn [app].
      rewrite <- List.app_assoc. reflexivity. }
    apply not_done_follows.
    destruct (app_neutral eb [Inc BUILDS_INPROGRESS; NewBuild b; NewQueue])
      as (_ & -> & _); [repeat constructor | exact Sh].
Qed.

Lemma neutral_failed_frame message a :
  attempt (Dict [("phase", JStr "failed"); ("message", JStr message)]) a ->
  neutral a.
Proof. intros [-> | ->]; repeat split. Qed.

Lemma fail_neutral message : emits neutral (fail w message).
Proof.
  apply emits_emit; eapply neutral_failed_frame; [left | right]; reflexivity.
Qed.

Lemma image_found_neutral image : emits neutral (image_found w image).
Proof.
  unfold image_found. destruct (use_registry (config w)).
  - destruct (split1 "/" image) as [[x rest]|]; [|apply emits_raise].
    destruct (split1 ":" rest) as [[repo_name tag]|]; [|apply emits_raise].
    apply emits_bind; [apply emits_record; repeat split|]. intros _.
    apply emits_bind; [apply emits_call|]. intros m. apply emits_ret.
  - apply emits_bind; [apply emits_record; repeat split|]. intros _.
    apply emits_try_except.
    + apply emits_bind; [apply emits_call|]. intros _. apply emits_ret.
    + intros []; try apply emits_raise. apply emits_ret.
Qed.

(** The cache-hit path runs no build session. *)
Lemma cache_hit_follows image :
  follows (emit w (found_frame image) ;;; launch w).
Proof.
  intros s r s' H.
  apply bind_inv in H as [(a & s1 & H1 & H2)|[(e & H1 & ->)|[H1 ->]]];
    destruct (spec_emit w _ _ _ _ H1) as (e1 & E1 & [[-> _]|[-> _]]).
  1,2: destruct (launch_shape w _ _ _ H2) as (el & E2 & R);
    destruct (launch_record_summary _ _ R) as (_ & LD & _);
    eexists; (split; [rewrite E2, E1, List.app_assoc; reflexivity|]);
    apply not_done_follows; rewrite build_done_app, LD; reflexivity.
  all: eexists; (split; [exact E1|]); apply not_done_follows; reflexivity.
Qed.

Lemma get_follows provider_prefix spec : follows (get w provider_prefix spec).
Proof.
  unfold get.
  apply follows_bind; [apply emits_record; repeat split|]. intros _.
  apply follows_bind; [apply emits_record; repeat split|]. intros _.
  destruct (negb _); [apply follows_neutral, fail_neutral|].
  apply follows_bind; [apply emits_record; repeat split|]. intros _.
  apply follows_bind;
    [apply emits_silent; eapply spec_weaken;
     [apply adds_set_keepalive | intros ? ? [-> _]; reflexivity]|].
  intros _.
  apply follows_bind.
  { apply emits_try_except.
    - apply emits_bind; [apply emits_call|]. intros p. apply emits_ret.
    - intros e. apply emits_bind; [apply fail_neutral|].
      intros _. apply emits_ret. }
  intros [p|]; [|apply follows_neutral, emits_ret].
  apply follows_bind;
    [apply emits_silent; eapply spec_weaken;
     [apply adds_set_repo | intros ? ? [-> _]; reflexivity]|].
  intros _.
  apply follows_bind.
  { apply emits_try_except.
    - apply emits_bind; [apply emits_call|]. intros r. apply emits_ret.
    - intros e. apply emits_bind; [apply fail_neutral|].
      intros _. apply emits_ret. }
  intros [[ref|]|];
    [|apply follows_neutral, fail_neutral|apply follows_neutral, emits_ret].
  apply follows_bind;
    [apply emits_silent; eapply spec_weaken;
     [apply adds_set_image_name | intros ? ? [-> _]; reflexivity]|].
  intros _.
  apply follows_bind; [apply image_found_neutral|].
  intros [|]; [apply cache_hit_follows | apply build_and_launch_follows].
Qed.

(** What decides the launch is the log: for every request whose
    [while not done] loop ended and whose [built] frame reached the
    client, the record of the request, in the order of time, splits at
    that frame: no launch was attempted before it; after it exactly one
    launch is attempted (the [launching] frame of [launch]) when no log
    line with [phase == "failure"] was recorded before it, and none when
    one was.  The phases of the pod play no part. *)
Theorem launch_follows_completed_build provider_prefix spec r s :
  get w provider_prefix spec initial = (r, s) ->
  build_done (trace s) = true ->
  exists before image after,
    trace s = before ++ Sent (DataFrame (built_frame image)) :: after
    /\ launch_attempts before = 0%nat
    /\ build_done before = false
    /\ build_done after = false
    /\ launch_attempts after
       = if build_failed before then 0%nat else 1%nat.
Proof.
  intros H D.
  destruct (get_follows provider_prefix spec _ _ _ H) as (ext & E & F).
  cbn [events initial] in E. rewrite List.app_nil_r in E.
  unfold trace in *. rewrite E in *. rewrite build_done_rev in D.
  destruct (F D) as (post & image & pre & -> & PA & PD & QD & QA).
  exists (rev pre), image, (rev post).
  rewrite List.rev_app_distr. cbn [rev]. rewrite <- List.app_assoc.
  rewrite !launch_attempts_rev, !build_done_rev, build_failed_rev.
  auto.
Qed.

End WithWorld.

Lemma launch_follows_completed_build_witness :
  (exists before image after,
     trace (snd (get build_succeeds "gh" "minrk/binder-example" initial))
     = before ++ Sent (DataFrame (built_frame image)) :: after
     /\ launch_attempts before = 0%nat
     /\ build_done before = false
     /\ build_done after = false
     /\ launch_attempts after
        = if build_failed before then 0%nat else 1%nat)
  /\ (exists before image after,
     trace (snd (get build_fails "gh" "minrk/binder-example" initial))
     = before ++ Sent (DataFrame (built_frame image)) :: after
     /\ launch_attempts before = 0%nat
     /\ build_done before = false
     /\ build_done after = false
     /\ launch_attempts after
        = if build_failed before then 0%nat else 1%nat).
Proof.
  split.
  - apply (launch_follows_completed_build build_succeeds "gh"
             "minrk/binder-example"
             (fst (get build_succeeds "gh" "minrk/binder-example" initial))).
    + apply surjective_pairing.
    + vm_compute. reflexivity.
  - apply (launch_follows_completed_build build_fails "gh"
             "minrk/binder-example"
             (fst (get build_fails "gh" "minrk/binder-example" initial))).
    + apply surjective_pairing.
    + vm_compute. reflexivity.
Defined.

(** C5.  A build whose pod is reported [Failed] (or
    [FailedUnrecoverable]) and then deleted, with no failure line in its
    log, is taken for a success: the client is sent [{phase: Failed}],
    then the [built] frame; the build time is recorded as a success, and
    one launch follows, up to the [ready] frame. *)
Theorem failed_pod_is_launched name :
  name = "Failed" \/ name = "FailedUnrecoverable" ->
  fst (get (pod_ends_in name) "gh" "minrk/binder-example" initial) = Ret tt
  /\ filter is_frame_or_timing
       (trace (snd (get (pod_ends_in name) "gh" "minrk/binder-example"
                      initial)))
     = [Sent (DataFrame waiting_frame);
        Sent (DataFrame (Dict [("phase", JStr name)]));
        Sent (DataFrame (built_frame example_image));
        Observe BUILD_TIME success;
        Sent (DataFrame launching_frame);
        Observe LAUNCH_TIME success;
        Sent (DataFrame
                (ready_frame "http://hub/user/minrk-binder-example-afkpuz49/"
                             "AAAAAAAAQACAAAAAAAAAAA"))]
  /\ build_failed
       (trace (snd (get (pod_ends_in name) "gh" "minrk/binder-example"
                      initial))) = false
  /\ launch_attempts
       (trace (snd (get (pod_ends_in name) "gh" "minrk/binder-example"
                      initial))) = 1%nat.
Proof.
  intros [-> | ->]; repeat split; vm_compute; reflexivity.
Qed.

Lemma failed_pod_is_launched_witness :
  fst (get (pod_ends_in "Failed") "gh" "minrk/binder-example" initial)
  = Ret tt
  /\ filter is_frame_or_timing
       (trace (snd (get (pod_ends_in "Failed") "gh" "minrk/binder-example"
                      initial)))
     = [Sent (DataFrame waiting_frame);
        Sent (DataFrame (Dict [("phase", JStr "Failed")]));
        Sent (DataFrame (built_frame example_image));
        Observe BUILD_TIME success;
        Sent (DataFrame launching_frame);
        Observe LAUNCH_TIME success;
        Sent (DataFrame
                (ready_frame "http://hub/user/minrk-binder-example-afkpuz49/"
                             "AAAAAAAAQACAAAAAAAAAAA"))]
  /\ build_failed
       (trace (snd (get (pod_ends_in "Failed") "gh" "minrk/binder-example"
                      initial))) = false
  /\ launch_attempts
       (trace (snd (get (pod_ends_in "Failed") "gh" "minrk/binder-example"
                      initial))) = 1%nat.
Proof.
  apply (failed_pod_is_launched "Failed"). left. reflexivity.
Defined.

End BuildThenLaunch.

(** ** Coverage: further properties of the code *)

Module LauncherCoverage.

Import PyStr PyStrFacts Launcher HubRequests.

Ltac split_reply :=
  repeat match goal with
         | |- context [match hub ?w ?n ?q with _ => _ end] =>
             let E := fresh "E" in destruct (hub w n q) eqn:E
         | |- context [match abort_future ?w with _ => _ end] =>
             let E := fresh "E" in destruct (abort_future w) eqn:E
         | |- context [if ?b then _ else _] =>
             let E := fresh "E" in destruct b eqn:E
         end.

Ltac unfold_launch w username image :=
  unfold launch, abort_launch, should_abort, api_request, bind, try_except,
    ret, raise;
  fold (create_user w username); fold (start_server w username image);
  fold (Scenario.delete_server w username);
  fold (Scenario.delete_user w username).

(** X1.  Whatever the hub answers, [Launcher.launch] makes at most four
    requests, each one of [POST users/<username>],
    [POST users/<username>/server], [DELETE users/<username>/server] and
    [DELETE users/<username>], and each with the header
    [Authorization: token <hub_api_token>]; the requests made before the
    call are kept. *)
Theorem launch_requests_are_authorized w image username calls :
  exists new,
    snd (launch w image username calls) = (calls ++ new)%list
    /\ Forall (fun q => In q (of_launch w username image)) new
    /\ Forall (fun q => req_authorization q = "token " ++ hub_api_token w)
              new
    /\ (List.length new <= 4)%nat.
Proof.
  unfold_launch w username image.
  split_reply; cbn [snd]; rewrite <- ?List.app_assoc; cbn [app];
    eexists; (split; [reflexivity|]);
    (split; [|split; [|cbn [List.length]; lia]]);
    repeat match goal with
           | |- Forall _ (_ :: _) => apply Forall_cons
           | |- Forall _ [] => apply Forall_nil
           end;
    try reflexivity; unfold of_launch; cbn [In]; auto 6.
Qed.

(** X2.  When [Launcher.launch] returns the dictionary, it made exactly
    two requests, [POST users/<username>] and then
    [POST users/<username>/server] with the token and the image, and the
    dictionary holds [hub_url + 'user/<username>/'] and the very token it
    sent to the hub. *)
Theorem launch_returns_the_token_it_sent w image username calls info calls' :
  launch w image username calls = (Ret (Some info), calls') ->
  exists token,
    calls' = (calls ++ [create_user w username;
                        Request (hub_url w ++ "hub/api/users/" ++ username
                                 ++ "/server")
                                POST ("token " ++ hub_api_token w)
                                (JsonBody [("token", token);
                                           ("image", image)])])%list
    /\ info = [("url", hub_url w ++ "user/" ++ username ++ "/");
               ("token", token)]
    /\ String.length token = 22%nat.
Proof.
  intros H. exists (mint_token (urandom w)).
  change (Request (hub_url w ++ "hub/api/users/" ++ username ++ "/server")
            POST ("token " ++ hub_api_token w)
            (JsonBody [("token", mint_token (urandom w)); ("image", image)]))
    with (start_server w username image).
  split; [|split].
  - revert H. unfold_launch w username image.
    split_reply; intros H; try discriminate;
      injection H as _ <-; rewrite <- ?List.app_assoc; reflexivity.
  - exact (LaunchFacts.launcher_returns _ _ _ _ _ _ H).
  - apply LauncherFacts.token_of_uuid_length.
Qed.

Lemma launch_returns_the_token_it_sent_witness :
  exists token,
    [create_user Scenario.example_launcher "u1";
     start_server Scenario.example_launcher "u1" "image:1"]
    = ([] ++ [create_user Scenario.example_launcher "u1";
              Request (hub_url Scenario.example_launcher
                       ++ "hub/api/users/" ++ "u1" ++ "/server")
                      POST ("token " ++ hub_api_token Scenario.example_launcher)
                      (JsonBody [("token", token); ("image", "image:1")])])%list
    /\ [("url", "http://hub/user/u1/"); ("token", "AAAAAAAAQACAAAAAAAAAAA")]
       = [("url", hub_url Scenario.example_launcher ++ "user/" ++ "u1" ++ "/");
          ("token", token)]
    /\ String.length token = 22%nat.
Proof.
  apply (launch_returns_the_token_it_sent Scenario.example_launcher
           "image:1" "u1" []).
  vm_compute. reflexivity.
Defined.

(** X3.  When [Launcher.launch] returns [None] (the launch was aborted),
    the future it was given is done and the last request it made is
    [DELETE users/<username>]: either the user was created and deleted, or
    the server was requested too and the teardown deleted the server and
    then the user. *)
Theorem aborted_launch_deletes_the_user w image username calls calls' :
  launch w image username calls = (Ret None, calls') ->
  (exists done, abort_future w = Some done)
  /\ (calls' = (calls ++ [create_user w username;
                          Scenario.delete_user w username])%list
      \/ calls' = (calls ++ [create_user w username;
                             start_server w username image;
                             Scenario.delete_server w username;
                             Scenario.delete_user w username])%list).
Proof.
  unfold_launch w username image.
  split_reply; intros H; try discriminate; injection H as <-;
    rewrite <- ?List.app_assoc; cbn [app]; (split; [eauto|]); auto.
Qed.

Lemma aborted_launch_deletes_the_user_witness :
  (exists done, abort_future aborting_launcher = Some done)
  /\ ([create_user aborting_launcher "u1";
       start_server aborting_launcher "u1" "image:1";
       Scenario.delete_server aborting_launcher "u1";
       Scenario.delete_user aborting_launcher "u1"]
      = ([] ++ [create_user aborting_launcher "u1";
                Scenario.delete_user aborting_launcher "u1"])%list
      \/ [create_user aborting_launcher "u1";
          start_server aborting_launcher "u1" "image:1";
          Scenario.delete_server aborting_launcher "u1";
          Scenario.delete_user aborting_launcher "u1"]
         = ([] ++ [create_user aborting_launcher "u1";
                   start_server aborting_launcher "u1" "image:1";
                   Scenario.delete_server aborting_launcher "u1";
                   Scenario.delete_user aborting_launcher "u1"])%list).
Proof.
  apply (aborted_launch_deletes_the_user aborting_launcher "image:1" "u1" []).
  vm_compute. reflexivity.
Defined.

(** X4.  An [HTTPError] of the hub on creating the user becomes
    [web.HTTPError(500, "Failed to create temporary user for <image>")],
    and nothing is requested after it.  When the user was created and the
    launch is not aborted, an [HTTPError] on starting the server becomes
    [web.HTTPError(500, "Failed to launch image <image>")]; nothing is
    requested after it either: the user that was created stays. *)
Theorem hub_error_becomes_500 w image username calls code response :
  (hub w (List.length calls) (create_user w username)
   = FetchError code response ->
   launch w image username calls
   = (Raise (WebHTTPError 500
               ("Failed to create temporary user for " ++ image)),
      (calls ++ [create_user w username])%list))
  /\ (forall created body,
        hub w (List.length calls) (create_user w username)
        = Response created body ->
        fst (should_abort w (calls ++ [create_user w username])%list)
        = Ret false ->
        hub w (S (List.length calls)) (start_server w username image)
        = FetchError code response ->
        launch w image username calls
        = (Raise (WebHTTPError 500 ("Failed to launch image " ++ image)),
           (calls ++ [create_user w username;
                      start_server w username image])%list)).
Proof.
  split.
  - intros H. unfold_launch w username image. rewrite H. reflexivity.
  - intros created body Hc Ha Hs. unfold_launch w username image.
    rewrite Hc. unfold should_abort in Ha.
    assert (L : List.length (calls ++ [create_user w username])%list
                = S (List.length calls))
      by (rewrite List.length_app, Nat.add_1_r; reflexivity).
    rewrite L in *.
    destruct (abort_future w) as [done|].
    + cbn [fst] in Ha. injection Ha as Ha. rewrite Ha, ?L, Hs.
      rewrite <- List.app_assoc. reflexivity.
    + rewrite ?L, Hs. rewrite <- List.app_assoc. reflexivity.
Qed.

Lemma hub_error_becomes_500_witness :
  launch (World "secret" "http://hub/" hub_down None 0) "image:1" "u1" []
  = (Raise (WebHTTPError 500
              ("Failed to create temporary user for " ++ "image:1")),
     ([] ++ [create_user (World "secret" "http://hub/" hub_down None 0)
               "u1"])%list)
  /\ launch failing_launcher "image:1" "u1" []
     = (Raise (WebHTTPError 500 ("Failed to launch image " ++ "image:1")),
        ([] ++ [create_user failing_launcher "u1";
                start_server failing_launcher "u1" "image:1"])%list).
Proof.
  split.
  - apply (hub_error_becomes_500
             (World "secret" "http://hub/" hub_down None 0)
             "image:1" "u1" [] 599 None).
    reflexivity.
  - apply (hub_error_becomes_500 failing_launcher "image:1" "u1" []
             500 (Some "spawn failed")) with (created := 201)
                                             (body := EmptyString);
      reflexivity.
Defined.

(** *** Teardown *)


(** *** Usernames *)

Lemma drop_length n s :
  String.length (drop n s) = (String.length s - n)%nat.
Proof.
  revert s; induction n as [|k IH]; intros [|c r]; simpl; auto.
Qed.

Lemma username_char_of c :
  username_char (lower_char (if Ascii.eqb c "/" then "-"%char else c)) = true.
Proof. destruct c as [[] [] [] [] [] [] [] []]; reflexivity. Qed.

Lemma username_chars_of_path s :
  forallb username_char (lower (replace_char "/" "-" s)) = true.
Proof.
  induction s as [|c r IH]; [reflexivity|].
  cbn [replace_char lower forallb]. rewrite IH, andb_true_r.
  apply username_char_of.
Qed.

Lemma slice_to_chars p s n :
  forallb p s = true -> forallb p (slice_to s n) = true.
Proof. intros H. unfold slice_to. destruct (0 <=? n); now apply forallb_take. Qed.

Lemma slice_from_chars p s n :
  forallb p s = true -> forallb p (slice_from s n) = true.
Proof.
  intros H. unfold slice_from. destruct (0 <=? n); now apply forallb_drop.
Qed.

Lemma suffix_username_chars s :
  forallb (fun c => is_lower c || is_digit c) s = true ->
  forallb username_char s = true.
Proof.
  apply forallb_impl. intros c.
  destruct c as [[] [] [] [] [] [] [] []]; intros H; try reflexivity;
    discriminate H.
Qed.

(** The prefix of a username, from the path of the repository. *)
Lemma prefix_shape path :
  (String.length (Scenario.prefix_of_path path) <= 32)%nat
  /\ forallb username_char (Scenario.prefix_of_path path) = true.
Proof.
  unfold Scenario.prefix_of_path, Scenario.shorten, Scenario.strip_dot_git.
  rewrite <- LauncherFacts.lower_replace_slash.
  set (p0 := lower (replace_char "/" "-" (strip is_slash path))).
  assert (H0 : forallb username_char p0 = true)
    by apply username_chars_of_path.
  set (p1 := if endswith ".git" p0 then slice_to p0 (-4) else p0).
  assert (H1 : forallb username_char p1 = true).
  { unfold p1. destruct (endswith ".git" p0); [|exact H0].
    apply slice_to_chars. exact H0. }
  clearbody p1. clear p0 H0.
  destruct (32 <? String.length p1)%nat eqn:E.
  - apply Nat.ltb_lt in E. split.
    + rewrite !append_length. cbn [String.length].
      pose proof (slice_to_length p1 15 ltac:(lia)) as Ht.
      change (Z.to_nat 15) with 15%nat in Ht.
      change (slice_from p1 (-15))
        with (drop (String.length p1 - 15) p1).
      rewrite drop_length. lia.
    + rewrite !forallb_append. cbn [forallb].
      rewrite slice_to_chars, slice_from_chars by exact H1. reflexivity.
  - apply Nat.ltb_ge in E. auto.
Qed.

(** X6.  Every username [username_from_repo] returns is a prefix of at
    most 32 characters, a hyphen, and 8 characters of [a-z0-9]: at most
    41 characters, none of them a slash or an uppercase letter, so the
    name is one segment of the paths [users/<username>] it is put in. *)
Theorem username_is_a_path_segment urlparse_path draw repo username :
  username_from_repo urlparse_path draw repo = Ret username ->
  exists prefix suffix,
    username = prefix ++ "-" ++ suffix
    /\ (String.length prefix <= 32)%nat
    /\ String.length suffix = 8%nat
    /\ forallb (fun c => is_lower c || is_digit c) suffix = true
    /\ (String.length username <= 41)%nat
    /\ forallb username_char username = true.
Proof.
  assert (G : forall path,
             Ret (Scenario.prefix_of_path path ++ "-"
                  ++ choices SUFFIX_CHARS draw SUFFIX_LENGTH)
             = Ret username ->
             exists prefix suffix,
               username = prefix ++ "-" ++ suffix
               /\ (String.length prefix <= 32)%nat
               /\ String.length suffix = 8%nat
               /\ forallb (fun c => is_lower c || is_digit c) suffix = true
               /\ (String.length username <= 41)%nat
               /\ forallb username_char username = true).
  { intros path E. injection E as <-.
    destruct (prefix_shape path) as (L & C).
    pose proof (LauncherFacts.choices_from_length SUFFIX_CHARS draw 0
                  SUFFIX_LENGTH) as Ls.
    pose proof (LauncherFacts.choices_from_suffix_chars draw 0 SUFFIX_LENGTH)
      as Cs.
    fold (choices SUFFIX_CHARS draw SUFFIX_LENGTH) in Ls, Cs.
    exists (Scenario.prefix_of_path path),
      (choices SUFFIX_CHARS draw SUFFIX_LENGTH).
    repeat split; auto.
    - rewrite append_length. cbn [String.length]. rewrite Ls.
      change SUFFIX_LENGTH with 8%nat. lia.
    - rewrite forallb_append. cbn [forallb].
      rewrite C, (suffix_username_chars _ Cs). reflexivity. }
  unfold username_from_repo.
  destruct (negb (contains "://" repo)
            && Regex.prefix_match _ssh_repo_pat repo) eqn:E.
  - destruct (split1 ":" repo) as [[host path]|]; [|discriminate].
    cbv zeta. rewrite LauncherFacts.lower_replace_slash. apply (G path).
  - cbv zeta. rewrite LauncherFacts.lower_replace_slash.
    apply (G (urlparse_path repo)).
Qed.

Lemma username_is_a_path_segment_witness :
  exists prefix suffix,
    "minrk-binder-example-afkpuz49" = prefix ++ "-" ++ suffix
    /\ (String.length prefix <= 32)%nat
    /\ String.length suffix = 8%nat
    /\ forallb (fun c => is_lower c || is_digit c) suffix = true
    /\ (String.length "minrk-binder-example-afkpuz49" <= 41)%nat
    /\ forallb username_char "minrk-binder-example-afkpuz49" = true.
Proof.
  apply (username_is_a_path_segment docstring_path Scenario.draw_fives
           "https://github.com/minrk/binder-example.git").
  vm_compute. reflexivity.
Defined.

(** X7.  For a repository given as a URL (it contains [://]), the
    username is derived from the path of the URL: slashes at both ends
    removed, the others replaced by hyphens, lowercased, a trailing
    [.git] removed, shortened to first 15 - last 15 when longer than 32
    characters.  The docstring's example
    [https://github.com/minrk/binder-example.git] gives
    [minrk-binder-example-<suffix>]. *)
Theorem username_from_repo_url urlparse_path draw repo :
  contains "://" repo = true ->
  username_from_repo urlparse_path draw repo
  = Ret (Scenario.prefix_of_path (urlparse_path repo) ++ "-"
         ++ choices SUFFIX_CHARS draw SUFFIX_LENGTH).
Proof.
  intros H. unfold username_from_repo. rewrite H. cbn [negb andb]. cbv zeta.
  unfold Scenario.prefix_of_path, Scenario.shorten, Scenario.strip_dot_git.
  rewrite LauncherFacts.lower_replace_slash. reflexivity.
Qed.

Lemma username_from_repo_url_witness :
  username_from_repo docstring_path Scenario.draw_fives
    "https://github.com/minrk/binder-example.git"
  = Ret ("minrk-binder-example" ++ "-" ++ "afkpuz49").
Proof.
  exact (username_from_repo_url docstring_path Scenario.draw_fives
           "https://github.com/minrk/binder-example.git" eq_refl).
Defined.

End LauncherCoverage.

Module RequestCoverage.

Import PyStr BuildHandler HandlerFacts Scenario Requests LaunchFacts
  LoopFacts.

Section WithWorld.

Variable w : world.

(** [fail] tries one frame: it is delivered and [fail] returns, or the
    stream is closed and [fail] raises [Finish]. *)
Lemma fail_outcome message s r s' :
  fail w message s = (r, s') ->
  (r = Ret tt /\ s' = delivered (DataFrame (failed_frame message)) s)
  \/ (r = Raise Finish
      /\ s' = push (StreamClosed (DataFrame (failed_frame message))) s).
Proof.
  unfold fail. fold (failed_frame message). intros H.
  destruct (emit_cases w (failed_frame message) s) as [[_ E]|[_ E]];
    rewrite E in H; injection H as <- <-; auto.
Qed.

Lemma fail_then_return message s r s' :
  (fail w message ;;; ret (@None provider)) s = (r, s') ->
  (r = Ret None /\ s' = delivered (DataFrame (failed_frame message)) s)
  \/ (r = Raise Finish
      /\ s' = push (StreamClosed (DataFrame (failed_frame message))) s).
Proof.
  intros H.
  apply bind_inv in H as [(a & s1 & H1 & H2)|[(e & H1 & ->)|[H1 ->]]];
    apply fail_outcome in H1 as [[E1 E2]|[E1 E2]]; try discriminate.
  - injection H2 as <- <-. auto.
  - injection E1 as <-. auto.
Qed.

Lemma get_unknown provider_prefix spec :
  List.existsb (String.eqb provider_prefix) (repo_providers (config w))
  = false ->
  get w provider_prefix spec initial
  = fail w ("No provider found for prefix " ++ provider_prefix) with_headers.
Proof. intros Hp. unfold get. rewrite Hp. reflexivity. Qed.

(** X8.  A request for a provider prefix that is not configured gets the
    headers and one [failed] frame,
    [No provider found for prefix <prefix>]; [keep_alive] is not spawned,
    no provider is asked, and [get] returns (or raises [Finish] when the
    client is gone already). *)
Theorem unknown_provider_fails_at_once provider_prefix spec r s :
  List.existsb (String.eqb provider_prefix) (repo_providers (config w))
  = false ->
  get w provider_prefix spec initial = (r, s) ->
  _keepalive s = None
  /\ ((r = Ret tt
       /\ trace s
          = (headers
             ++ [Sent (DataFrame
                         (failed_frame ("No provider found for prefix "
                                        ++ provider_prefix)))])%list)
      \/ (r = Raise Finish
          /\ trace s
             = (headers
                ++ [StreamClosed
                      (DataFrame
                         (failed_frame ("No provider found for prefix "
                                        ++ provider_prefix)))])%list)).
Proof.
  intros Hp H. rewrite (get_unknown _ _ Hp) in H.
  apply fail_outcome in H as [[-> ->]|[-> ->]];
    (split; [reflexivity|]); [left | right]; split; reflexivity.
Qed.

Lemma failing_outcome message s r s' :
  failing w message s = (r, s') ->
  (r = Ret tt /\ s' = delivered (DataFrame (failed_frame message)) s)
  \/ (r = Raise Finish
      /\ s' = push (StreamClosed (DataFrame (failed_frame message))) s).
Proof.
  unfold failing. destruct (fail w message s) as [r0 s0] eqn:E.
  apply fail_outcome in E as [[-> ->]|[-> ->]]; intros H;
    injection H as <- <-; auto.
Qed.

Lemma get_provider_raised provider_prefix spec e :
  List.existsb (String.eqb provider_prefix) (repo_providers (config w))
  = true ->
  get_provider w provider_prefix spec = Raise e ->
  get w provider_prefix spec initial
  = failing w (str_of_exn (responses w) e) spawned.
Proof.
  intros Hp Hg. unfold get. rewrite Hp, Hg. unfold failing.
  cbv [bind record modify keep_alive_start set_keepalive try_except call ret
       negb].
  change (State (Some true) _ _ _ _ _ _ _ _) with spawned.
  destruct (fail w (str_of_exn (responses w) e) spawned) as [[[]|?|] ?];
    reflexivity.
Qed.

(** X9.  When [get_provider] raises [web.HTTPError(status, message)] or
    [TypeError(message)], the exception does not leave [get]: its text
    ([HTTP <status>: <reason> (<message>)] for the former) is sent in one
    [failed] frame and [get] returns.  No image is looked up, nothing is
    built or launched. *)
Theorem provider_error_is_reported provider_prefix spec e r s :
  List.existsb (String.eqb provider_prefix) (repo_providers (config w))
  = true ->
  get_provider w provider_prefix spec = Raise e ->
  text_is_known e = true ->
  get w provider_prefix spec initial = (r, s) ->
  (r = Ret tt
   /\ trace s
      = (headers
         ++ [SpawnKeepAlive;
             Sent (DataFrame
                     (failed_frame (str_of_exn (responses w) e)))])%list)
  \/ (r = Raise Finish
      /\ trace s
         = (headers
            ++ [SpawnKeepAlive;
                StreamClosed
                  (DataFrame
                     (failed_frame (str_of_exn (responses w) e)))])%list).
Proof.
  intros Hp Hg _ H. rewrite (get_provider_raised _ _ _ Hp Hg) in H.
  apply failing_outcome in H as [[-> ->]|[-> ->]]; [left | right];
    split; reflexivity.
Qed.

Lemma get_unresolved provider_prefix spec p message :
  List.existsb (String.eqb provider_prefix) (repo_providers (config w))
  = true ->
  get_provider w provider_prefix spec = Ret p ->
  unresolved_message w (key_of provider_prefix spec) (get_resolved_ref p)
  = Some message ->
  get w provider_prefix spec initial
  = failing w message (with_repo (get_repo_url p)).
Proof.
  intros Hp Hg Hm. unfold get. rewrite Hp, Hg. unfold failing.
  unfold unresolved_message, key_of in Hm.
  cbv [bind record modify keep_alive_start set_keepalive set_repo
       try_except call ret negb].
  destruct (get_resolved_ref p) as [[ref|]|e|]; try discriminate;
    try (destruct (text_is_known e); [|discriminate]);
    injection Hm as <-; cbv beta iota;
    repeat match goal with
           | |- context [fail w ?m ?s] =>
               lazymatch s with
               | with_repo _ => fail
               | _ => change s with (with_repo (get_repo_url p))
               end
           end;
    match goal with
    | |- context [fail w ?m ?s] =>
        repeat match goal with
               | |- context [fail w ?m' s] =>
                   lazymatch m' with
                   | m => fail
                   | _ => change m' with m
                   end
               end;
        destruct (fail w m s) as [[[]|?|] ?]; reflexivity
    end.
Qed.

(** X10.  When the reference of the repository does not resolve, [get]
    sends one [failed] frame that names the request ([<prefix>:<spec>])
    and returns: [Could not resolve ref for <key>. Double check your URL.]
    when [get_resolved_ref] returned [None], and
    [Error resolving ref for <key>: <text>] when it raised
    [web.HTTPError(status, message)] or [TypeError(message)], of which
    [<text>] is the text.  No image is looked up, nothing is built or
    launched.  The repository URL was stored before. *)
Theorem unresolved_ref_is_reported provider_prefix spec p message r s :
  List.existsb (String.eqb provider_prefix) (repo_providers (config w))
  = true ->
  get_provider w provider_prefix spec = Ret p ->
  unresolved_message w (key_of provider_prefix spec) (get_resolved_ref p)
  = Some message ->
  get w provider_prefix spec initial = (r, s) ->
  repo s = Some (get_repo_url p)
  /\ image_name s = None
  /\ ((r = Ret tt
       /\ trace s = (headers
                     ++ [SpawnKeepAlive;
                         Sent (DataFrame (failed_frame message))])%list)
      \/ (r = Raise Finish
          /\ trace s
             = (headers
                ++ [SpawnKeepAlive;
                    StreamClosed (DataFrame (failed_frame message))])%list)).
Proof.
  intros Hp Hg Hm H. rewrite (get_unresolved _ _ _ _ Hp Hg Hm) in H.
  apply failing_outcome in H as [[-> ->]|[-> ->]];
    (split; [reflexivity|]); (split; [reflexivity|]); [left | right];
    split; reflexivity.
Qed.

Lemma get_at_lookup provider_prefix spec p ref :
  List.existsb (String.eqb provider_prefix) (repo_providers (config w))
  = true ->
  get_provider w provider_prefix spec = Ret p ->
  get_resolved_ref p = Ret (Some ref) ->
  get w provider_prefix spec initial
  = from_lookup w p ref (at_lookup (get_repo_url p) (image_of w p ref)).
Proof.
  intros Hpp Hgp Href.
  unfold get. rewrite Hpp. cbn [negb].
  unfold bind at 1 2 3 4. cbn [record modify keep_alive_start set_keepalive].
  unfold bind at 1. unfold try_except at 1. unfold bind at 1.
  unfold call at 1. rewrite Hgp. cbn [ret].
  unfold bind at 1. cbn [set_repo modify].
  unfold bind at 1. unfold try_except at 1. unfold bind at 1.
  unfold call at 1. rewrite Href. cbn [ret].
  unfold bind at 1. cbn [set_image_name modify].
  reflexivity.
Qed.

(** *** From the lookup on *)

Lemma any_event {A} (Q : list action -> res A -> Prop) (m : M state A) :
  spec Q m -> emits (fun _ => True) m.
Proof.
  intros H. eapply spec_weaken; [exact H|].
  intros ext r0 _. apply Forall_forall. auto.
Qed.

Lemma launch_grows : emits (fun _ => True) (launch w).
Proof. exact (any_event _ _ (launch_shape w)). Qed.

Lemma consume_grows image :
  emits (fun _ => True) (consume w image (queue w) false false None).
Proof.
  apply (any_event (loop_record image false)).
  apply consume_shape. discriminate.
Qed.

(** The build path starts by making the queue and the build, and hands
    [build.submit] to the pool inside the gauge. *)
Lemma build_and_launch_starts build_name image repo_url ref :
  spec (fun ext _ =>
          exists rest,
            ext = (rest
                   ++ [PoolSubmit submit; Inc BUILDS_INPROGRESS;
                       NewBuild
                         (Build (fake_build (config w)) build_name
                            (build_namespace (config w)) repo_url ref image
                            (if use_registry (config w)
                             then Some (docker_push_secret (config w))
                             else None)
                            (builder_image_spec (config w)));
                       NewQueue])%list)
       (build_and_launch w build_name image repo_url ref).
Proof.
  unfold build_and_launch. intros s r s' H.
  apply bind_inv in H as [(a & s1 & H1 & H)|[(e & H1 & _)|[H1 _]]];
    [|discriminate..].
  injection H1 as _ <-.
  apply bind_inv in H as [(a2 & s2 & H1 & H)|[(e & H1 & _)|[H1 _]]];
    [|discriminate..].
  injection H1 as _ <-.
  match type of H with
  | bind _ _ ?st = _ => set (s2 := st) in *
  end.
  assert (E2 : events s2
               = NewBuild
                   (Build (fake_build (config w)) build_name
                      (build_namespace (config w)) repo_url ref image
                      (if use_registry (config w)
                       then Some (docker_push_secret (config w))
                       else None)
                      (builder_image_spec (config w)))
                 :: NewQueue :: events s) by reflexivity.
  clearbody s2.
  assert (Hin : forall x s3,
             track_inprogress BUILDS_INPROGRESS
               (record (PoolSubmit submit) ;;;
                emit w waiting_frame ;;;
                consume w image (queue w) false false None) s2 = (x, s3) ->
             exists rest,
               events s3
               = (rest ++ PoolSubmit submit :: Inc BUILDS_INPROGRESS
                       :: events s2)%list).
  { intros x s3 Ht.
    apply track_inprogress_inv in Ht as (s0 & E0 & Hb).
    assert (Hbody : forall y s4,
               (record (PoolSubmit submit) ;;;
                emit w waiting_frame ;;;
                consume w image (queue w) false false None) s0 = (y, s4) ->
               exists rest,
                 events s4 = (rest ++ PoolSubmit submit :: events s0)%list).
    { intros y s4 Hy.
      apply bind_inv in Hy as [(u & s5 & H1 & Hy)|[(e & H1 & _)|[H1 _]]];
        [|discriminate..].
      injection H1 as _ <-.
      assert (G : emits (fun _ => True)
                    (emit w waiting_frame ;;;
                     consume w image (queue w) false false None)).
      { apply emits_bind; [apply emits_emit; exact I|].
        intros _. apply consume_grows. }
      destruct (G _ _ _ Hy) as (rest & E & _). exists rest. exact E. }
    destruct Hb as [[Hb _]|(s1 & Hb & E1 & _)];
      destruct (Hbody _ _ Hb) as (rest & E).
    - exists rest. rewrite E, E0. reflexivity.
    - exists (Dec BUILDS_INPROGRESS :: rest)%list.
      rewrite E1, E, E0. reflexivity. }
  assert (Hk : forall f : bool,
             emits (fun _ => True)
               (if f then ret tt
                else observe BUILD_TIME success ;;;
                     track_inprogress LAUNCHES_INPROGRESS (launch w))).
  { intros [|]; [apply emits_ret|].
    apply emits_bind; [apply emits_record; exact I|]. intros _.
    apply emits_track_inprogress; [exact I | exact I | apply launch_grows]. }
  apply bind_inv in H as [(f & s3 & H1 & H)|[(e & H1 & _)|[H1 _]]];
    destruct (Hin _ _ H1) as (rest & E3).
  - destruct (Hk f _ _ _ H) as (rest' & E' & _).
    exists ((rest' ++ rest)
            ++ [PoolSubmit submit; Inc BUILDS_INPROGRESS;
                NewBuild
                  (Build (fake_build (config w)) build_name
                     (build_namespace (config w)) repo_url ref image
                     (if use_registry (config w)
                      then Some (docker_push_secret (config w)) else None)
                     (builder_image_spec (config w)));
                NewQueue])%list.
    split; [|eauto]. rewrite E', E3, E2, <- !List.app_assoc. reflexivity.
  - exists (rest
            ++ [PoolSubmit submit; Inc BUILDS_INPROGRESS;
                NewBuild
                  (Build (fake_build (config w)) build_name
                     (build_namespace (config w)) repo_url ref image
                     (if use_registry (config w)
                      then Some (docker_push_secret (config w)) else None)
                     (builder_image_spec (config w)));
                NewQueue])%list.
    split; [|eauto]. rewrite E3, E2, <- !List.app_assoc. reflexivity.
  - exists (rest
            ++ [PoolSubmit submit; Inc BUILDS_INPROGRESS;
                NewBuild
                  (Build (fake_build (config w)) build_name
                     (build_namespace (config w)) repo_url ref image
                     (if use_registry (config w)
                      then Some (docker_push_secret (config w)) else None)
                     (builder_image_spec (config w)));
                NewQueue])%list.
    split; [|eauto]. rewrite E3, E2, <- !List.app_assoc. reflexivity.
Qed.

Lemma image_found_registry image host rest repo_name tag s :
  use_registry (config w) = true ->
  split1 "/" image = Some (host, rest) ->
  split1 ":" rest = Some (repo_name, tag) ->
  image_found w image s
  = (match get_image_manifest w repo_name tag with
     | Ret (Some (_ :: _)) => Ret true
     | Ret _ => Ret false
     | Raise e => Raise e
     | Blocked => Blocked
     end, push (RegistryLookup repo_name tag) s).
Proof.
  intros Hu H1 H2. unfold image_found. rewrite Hu, H1, H2.
  unfold bind, record, modify, call, ret.
  destruct (get_image_manifest w repo_name tag) as [[[|? ?]|]|?|];
    reflexivity.
Qed.

Lemma image_found_docker image s :
  use_registry (config w) = false ->
  image_found w image s
  = (match docker_images_get w image with
     | Ret _ => Ret true
     | Raise ImageNotFound => Ret false
     | Raise e => Raise e
     | Blocked => Blocked
     end, push (DockerLookup image) s).
Proof.
  intros Hu. unfold image_found. rewrite Hu.
  unfold bind, record, modify, call, ret, try_except, raise.
  destruct (docker_images_get w image) as [?|[]|]; reflexivity.
Qed.

(** A lookup that gives an answer has asked the registry or the Docker
    daemon once. *)
Lemma image_found_answer image s found s' :
  image_found w image s = (Ret found, s') ->
  exists lookup, is_lookup lookup = true /\ s' = push lookup s.
Proof.
  unfold image_found. destruct (use_registry (config w)).
  - destruct (split1 "/" image) as [[host rest]|]; [|discriminate].
    destruct (split1 ":" rest) as [[repo_name tag]|]; [|discriminate].
    unfold bind, record, modify, call, ret.
    destruct (get_image_manifest w repo_name tag); intros H;
      try discriminate; injection H as _ <-; eexists;
      (split; [|reflexivity]); reflexivity.
  - unfold bind, record, modify, call, ret, try_except, raise.
    destruct (docker_images_get w image) as [?|[]|]; intros H;
      try discriminate; injection H as _ <-; eexists;
      (split; [|reflexivity]); reflexivity.
Qed.

(** X11.  With a registry, an exception of the manifest lookup is not
    caught: it leaves [get] as it is, after the lookup and before any
    frame.  The request is not treated as a cache miss: no queue, no
    build, no launch. *)
Theorem registry_error_leaves_get
    provider_prefix spec p ref host rest repo_name tag e r s :
  List.existsb (String.eqb provider_prefix) (repo_providers (config w))
  = true ->
  get_provider w provider_prefix spec = Ret p ->
  get_resolved_ref p = Ret (Some ref) ->
  use_registry (config w) = true ->
  split1 "/" (image_of w p ref) = Some (host, rest) ->
  split1 ":" rest = Some (repo_name, tag) ->
  get_image_manifest w repo_name tag = Raise e ->
  get w provider_prefix spec initial = (r, s) ->
  r = Raise e
  /\ trace s
     = (headers ++ [SpawnKeepAlive; RegistryLookup repo_name tag])%list
  /\ image_name s = Some (image_of w p ref).
Proof.
  intros Hp Hg Hr Hu H1 H2 Hm H.
  rewrite (get_at_lookup _ _ _ _ Hp Hg Hr) in H.
  unfold from_lookup, bind in H.
  rewrite (image_found_registry _ _ _ _ _ _ Hu H1 H2), Hm in H.
  injection H as <- <-. repeat split.
Qed.

Lemma quiet_mid (f : action -> bool) mid :
  (forall c, f (HubRequest c) = false) ->
  (forall st, f (Observe LAUNCH_TIME st) = false) ->
  Forall hub_or_observe mid -> List.existsb f mid = false.
Proof.
  intros Hh Ho F. induction F as [|a l [(c & ->)|(st & ->)] _ IH];
    [reflexivity| |]; cbn [List.existsb]; rewrite IH;
    [rewrite Hh | rewrite Ho]; reflexivity.
Qed.

(** What [launch] adds has the attempt of the [launching] frame first,
    and no event [f] selects, when [f] selects no frame, no request to the
    hub and no observation of the launch time. *)
Lemma launch_record_reading (f : action -> bool) el r :
  (forall d, f (Sent (DataFrame d)) = false) ->
  (forall d, f (StreamClosed (DataFrame d)) = false) ->
  (forall c, f (HubRequest c) = false) ->
  (forall st, f (Observe LAUNCH_TIME st) = false) ->
  launch_record el r ->
  List.existsb f el = false
  /\ exists first rest,
       rev el = first :: rest /\ attempt launching_frame first.
Proof.
  intros Hs Hc Hh Ho R.
  destruct R as [|mid r F|mid url token F|mid url token F];
    try pose proof (quiet_mid f mid Hh Ho F) as Q.
  - split; [cbn [List.existsb]; rewrite Hc; reflexivity|].
    exists (StreamClosed (DataFrame launching_frame)), [].
    split; [reflexivity | right; reflexivity].
  - split.
    + rewrite List.existsb_app, Q. cbn [List.existsb]. rewrite Hs.
      reflexivity.
    + exists (Sent (DataFrame launching_frame)), (rev mid).
      split; [rewrite List.rev_app_distr; reflexivity | left; reflexivity].
  - split.
    + cbn [List.existsb]. rewrite List.existsb_app, Q, Hs.
      cbn [List.existsb]. rewrite Hs. reflexivity.
    + exists (Sent (DataFrame launching_frame)),
        (rev mid ++ [Sent (DataFrame (ready_frame url token))])%list.
      split; [|left; reflexivity].
      cbn [rev]. rewrite List.rev_app_distr. reflexivity.
  - split.
    + cbn [List.existsb]. rewrite List.existsb_app, Q, Hc.
      cbn [List.existsb]. rewrite Hs. reflexivity.
    + exists (Sent (DataFrame launching_frame)),
        (rev mid ++ [StreamClosed (DataFrame (ready_frame url token))])%list.
      split; [|left; reflexivity].
      cbn [rev]. rewrite List.rev_app_distr. reflexivity.
Qed.

Lemma lookup_is_quiet a :
  is_lookup a = true -> is_build_action a = false /\ is_gauge a = false.
Proof. destruct a; try discriminate; auto. Qed.

(** X12.  When the lookup finds the image, [get] makes no queue and no
    build, hands nothing to the pool and touches no gauge: after the
    lookup it sends the [built] frame with [imageName] and the message
    [Found built image, launching...], and the next thing it does is the
    first step of [launch], the [launching] frame. *)
Theorem cached_image_skips_the_build provider_prefix spec p ref r s :
  List.existsb (String.eqb provider_prefix) (repo_providers (config w))
  = true ->
  get_provider w provider_prefix spec = Ret p ->
  get_resolved_ref p = Ret (Some ref) ->
  fst (image_found w (image_of w p ref)
         (at_lookup (get_repo_url p) (image_of w p ref))) = Ret true ->
  get w provider_prefix spec initial = (r, s) ->
  List.existsb is_build_action (trace s) = false
  /\ List.existsb is_gauge (trace s) = false
  /\ exists lookup,
       is_lookup lookup = true
       /\ ((r = Raise Finish
            /\ trace s
               = (headers
                  ++ [SpawnKeepAlive; lookup;
                      StreamClosed
                        (DataFrame
                           (Dict [("phase", JStr "built");
                                  ("imageName", JStr (image_of w p ref));
                                  ("message",
                                   JStr ("Found built image, launching..."
                                         ++ nl))]))])%list)
           \/ exists first rest,
                attempt launching_frame first
                /\ trace s
                   = (headers
                      ++ [SpawnKeepAlive; lookup;
                          Sent
                            (DataFrame
                               (Dict [("phase", JStr "built");
                                      ("imageName", JStr (image_of w p ref));
                                      ("message",
                                       JStr ("Found built image, launching..."
                                             ++ nl))]));
                          first] ++ rest)%list).
Proof.
  intros Hp Hg Hr Hf H.
  rewrite (get_at_lookup _ _ _ _ Hp Hg Hr) in H.
  unfold from_lookup in H.
  change (Dict [("phase", JStr "built");
                ("imageName", JStr (image_of w p ref));
                ("message", JStr ("Found built image, launching..." ++ nl))])
    with (found_frame (image_of w p ref)).
  set (image := image_of w p ref) in *.
  set (s0 := at_lookup (get_repo_url p) image) in *.
  destruct (image_found w image s0) as [x s1] eqn:E. cbn [fst] in Hf.
  subst x.
  destruct (image_found_answer _ _ _ _ E) as (lookup & Hl & ->).
  destruct (lookup_is_quiet _ Hl) as (Lb & Lg).
  unfold bind at 1 in H. rewrite E in H.
  apply bind_inv in H as [(u & s2 & H1 & H2)|[(e & H1 & ->)|[H1 ->]]];
    destruct (emit_cases w (found_frame image) (push lookup s0))
      as [[_ E1]|[_ E1]]; rewrite E1 in H1; try discriminate.
  - injection H1 as _ <-.
    destruct (launch_shape w _ _ _ H2) as (el & E2 & R).
    destruct (launch_record_reading is_build_action el r
                ltac:(reflexivity) ltac:(reflexivity) ltac:(reflexivity)
                ltac:(reflexivity) R) as (Qb & first & rest & Er & Ha).
    destruct (launch_record_reading is_gauge el r
                ltac:(reflexivity) ltac:(reflexivity) ltac:(reflexivity)
                ltac:(reflexivity) R) as (Qg & _).
    assert (Et : trace s
                 = (headers
                    ++ [SpawnKeepAlive; lookup;
                        Sent (DataFrame (found_frame image)); first]
                    ++ rest)%list).
    { unfold trace. rewrite E2. rewrite List.rev_app_distr, Er.
      reflexivity. }
    split; [|split].
    + unfold trace. rewrite BuildThenLaunch.existsb_rev, E2,
        List.existsb_app, Qb.
      cbn [List.existsb events delivered push s0 at_lookup orb
           is_build_action]. rewrite Lb. reflexivity.
    + unfold trace. rewrite BuildThenLaunch.existsb_rev, E2,
        List.existsb_app, Qg.
      cbn [List.existsb events delivered push s0 at_lookup orb is_gauge].
      rewrite Lg. reflexivity.
    + exists lookup. split; [exact Hl|]. right. exists first, rest. auto.
  - injection H1 as <- <-.
    split; [|split].
    + unfold trace. rewrite BuildThenLaunch.existsb_rev.
      cbn [List.existsb events push s0 at_lookup orb is_build_action].
      rewrite Lb. reflexivity.
    + unfold trace. rewrite BuildThenLaunch.existsb_rev.
      cbn [List.existsb events push s0 at_lookup orb is_gauge].
      rewrite Lg. reflexivity.
    + exists lookup. split; [exact Hl|]. left. split; reflexivity.
Qed.

(** The record of a request that reached the build path. *)
Lemma build_path_trace p ref lookup r s :
  build_and_launch w (build_name_of (get_build_slug p) ref)
    (image_of w p ref) (get_repo_url p) ref
    (push lookup (at_lookup (get_repo_url p) (image_of w p ref))) = (r, s) ->
  exists rest,
    trace s
    = (headers
       ++ [SpawnKeepAlive; lookup; NewQueue; NewBuild (build_of w p ref);
           Inc BUILDS_INPROGRESS; PoolSubmit submit] ++ rest)%list.
Proof.
  intros H.
  destruct (build_and_launch_starts _ _ _ _ _ _ _ H) as (ext & E & rest & ->).
  exists (rev rest). unfold trace. rewrite E.
  rewrite !List.rev_app_distr. reflexivity.
Qed.

(** X13.  With a registry, a lookup that returns no manifest, or an empty
    one, is a cache miss: [get] makes the queue and the build (with the
    push secret of the registry), enters the builds gauge and hands
    [build.submit] to the pool. *)
Theorem empty_manifest_starts_a_build
    provider_prefix spec p ref host rest repo_name tag manifest :
  List.existsb (String.eqb provider_prefix) (repo_providers (config w))
  = true ->
  get_provider w provider_prefix spec = Ret p ->
  get_resolved_ref p = Ret (Some ref) ->
  use_registry (config w) = true ->
  split1 "/" (image_of w p ref) = Some (host, rest) ->
  split1 ":" rest = Some (repo_name, tag) ->
  get_image_manifest w repo_name tag = Ret manifest ->
  manifest = None \/ manifest = Some [] ->
  b_push_secret (build_of w p ref) = Some (docker_push_secret (config w))
  /\ exists after,
       trace (snd (get w provider_prefix spec initial))
       = (headers
          ++ [SpawnKeepAlive; RegistryLookup repo_name tag; NewQueue;
              NewBuild (build_of w p ref); Inc BUILDS_INPROGRESS;
              PoolSubmit submit] ++ after)%list.
Proof.
  intros Hp Hg Hr Hu H1 H2 Hm Hf.
  split; [unfold build_of; cbn [b_push_secret]; rewrite Hu; reflexivity|].
  rewrite (get_at_lookup _ _ _ _ Hp Hg Hr).
  unfold from_lookup, bind at 1.
  rewrite (image_found_registry _ _ _ _ _ _ Hu H1 H2), Hm.
  assert (E : match manifest with
              | Some (_ :: _) => @Ret bool true
              | _ => Ret false
              end = Ret false) by (destruct Hf as [-> | ->]; reflexivity).
  rewrite E.
  eapply build_path_trace. apply surjective_pairing.
Qed.

(** X14.  Without a registry, [ImageNotFound] from the Docker daemon is
    caught and is a cache miss: [get] makes the queue and the build
    (without a push secret), enters the builds gauge and hands
    [build.submit] to the pool. *)
Theorem missing_local_image_starts_a_build provider_prefix spec p ref :
  List.existsb (String.eqb provider_prefix) (repo_providers (config w))
  = true ->
  get_provider w provider_prefix spec = Ret p ->
  get_resolved_ref p = Ret (Some ref) ->
  use_registry (config w) = false ->
  docker_images_get w (image_of w p ref) = Raise ImageNotFound ->
  b_push_secret (build_of w p ref) = None
  /\ exists after,
       trace (snd (get w provider_prefix spec initial))
       = (headers
          ++ [SpawnKeepAlive; DockerLookup (image_of w p ref); NewQueue;
              NewBuild (build_of w p ref); Inc BUILDS_INPROGRESS;
              PoolSubmit submit] ++ after)%list.
Proof.
  intros Hp Hg Hr Hu Hd.
  split; [unfold build_of; cbn [b_push_secret]; rewrite Hu; reflexivity|].
  rewrite (get_at_lookup _ _ _ _ Hp Hg Hr).
  unfold from_lookup, bind at 1.
  rewrite (image_found_docker _ _ Hu), Hd.
  eapply build_path_trace. apply surjective_pairing.
Qed.

(** X27.  Without a registry, an exception of the Docker lookup other
    than [ImageNotFound] is not caught: it leaves [get] right after the
    lookup; nothing is sent, built or launched. *)
Theorem docker_error_leaves_get provider_prefix spec p ref e r s :
  List.existsb (String.eqb provider_prefix) (repo_providers (config w))
  = true ->
  get_provider w provider_prefix spec = Ret p ->
  get_resolved_ref p = Ret (Some ref) ->
  use_registry (config w) = false ->
  docker_images_get w (image_of w p ref) = Raise e ->
  e <> ImageNotFound ->
  get w provider_prefix spec initial = (r, s) ->
  r = Raise e
  /\ trace s
     = (headers ++ [SpawnKeepAlive; DockerLookup (image_of w p ref)])%list.
Proof.
  intros Hp Hg Hr Hu Hd Hn H.
  rewrite (get_at_lookup _ _ _ _ Hp Hg Hr) in H.
  unfold from_lookup, bind in H.
  rewrite (image_found_docker _ _ Hu), Hd in H.
  destruct e; try contradiction; injection H as <- <-; split; reflexivity.
Qed.

(** X28.  With a registry, the repository and the tag of the lookup are
    cut out of the image name by [split('/', 1)[1]]: when the image name
    holds no slash (the image prefix and the slug have none), [get]
    raises [IndexError] before it asks the registry; nothing is sent,
    built or launched. *)
Theorem image_name_without_slash_raises provider_prefix spec p ref r s :
  List.existsb (String.eqb provider_prefix) (repo_providers (config w))
  = true ->
  get_provider w provider_prefix spec = Ret p ->
  get_resolved_ref p = Ret (Some ref) ->
  use_registry (config w) = true ->
  split1 "/" (image_of w p ref) = None ->
  get w provider_prefix spec initial = (r, s) ->
  r = Raise IndexError
  /\ trace s = (headers ++ [SpawnKeepAlive])%list
  /\ image_name s = Some (image_of w p ref).
Proof.
  intros Hp Hg Hr Hu Hs H.
  rewrite (get_at_lookup _ _ _ _ Hp Hg Hr) in H.
  unfold from_lookup, bind, image_found in H. rewrite Hu, Hs in H.
  injection H as <- <-. repeat split.
Qed.

End WithWorld.

Lemma unknown_provider_fails_at_once_witness :
  _keepalive (snd (get cache_hit "gl" "minrk/binder-example" initial)) = None
  /\ ((Ret tt = Ret tt
       /\ trace (snd (get cache_hit "gl" "minrk/binder-example" initial))
          = (headers
             ++ [Sent (DataFrame
                         (failed_frame ("No provider found for prefix "
                                        ++ "gl")))])%list)
      \/ (Ret tt = Raise Finish
          /\ trace (snd (get cache_hit "gl" "minrk/binder-example" initial))
             = (headers
                ++ [StreamClosed
                      (DataFrame
                         (failed_frame ("No provider found for prefix "
                                        ++ "gl")))])%list)).
Proof.
  apply (unknown_provider_fails_at_once cache_hit "gl" "minrk/binder-example");
    vm_compute; reflexivity.
Defined.

Lemma provider_error_is_reported_witness :
  (Ret tt = Ret tt
   /\ trace (snd (get no_provider "gh" "minrk/nothing" initial))
      = (headers
         ++ [SpawnKeepAlive;
             Sent (DataFrame
                     (failed_frame
                        "HTTP 404: Not Found (no such repo)"))])%list)
  \/ (Ret tt = Raise Finish
      /\ trace (snd (get no_provider "gh" "minrk/nothing" initial))
         = (headers
            ++ [SpawnKeepAlive;
                StreamClosed
                  (DataFrame
                     (failed_frame
                        "HTTP 404: Not Found (no such repo)"))])%list).
Proof.
  apply (provider_error_is_reported no_provider "gh" "minrk/nothing"
           (WebHTTPError 404 "no such repo"));
    vm_compute; reflexivity.
Defined.

Lemma unresolved_ref_is_reported_witness :
  (repo (snd (get no_ref "gh" "minrk/binder-example/nobranch" initial))
   = Some (get_repo_url dangling_provider)
   /\ image_name
        (snd (get no_ref "gh" "minrk/binder-example/nobranch" initial))
      = None
   /\ ((Ret tt = Ret tt
        /\ trace
             (snd (get no_ref "gh" "minrk/binder-example/nobranch" initial))
           = (headers
              ++ [SpawnKeepAlive;
                  Sent (DataFrame
                          (failed_frame
                             "Could not resolve ref for gh:minrk/binder-example/nobranch. Double check your URL."))])%list)
       \/ (Ret tt = Raise Finish
           /\ trace
                (snd (get no_ref "gh" "minrk/binder-example/nobranch"
                        initial))
              = (headers
                 ++ [SpawnKeepAlive;
                     StreamClosed
                       (DataFrame
                          (failed_frame
                             "Could not resolve ref for gh:minrk/binder-example/nobranch. Double check your URL."))])%list)))
  /\ (repo (snd (get no_answer "gh" "minrk/binder-example" initial))
      = Some (get_repo_url unreachable_provider)
      /\ image_name (snd (get no_answer "gh" "minrk/binder-example" initial))
         = None
      /\ ((Ret tt = Ret tt
           /\ trace (snd (get no_answer "gh" "minrk/binder-example" initial))
              = (headers
                 ++ [SpawnKeepAlive;
                     Sent (DataFrame
                             (failed_frame
                                "Error resolving ref for gh:minrk/binder-example: HTTP 502: Bad Gateway (GitHub is not answering)"))])%list)
          \/ (Ret tt = Raise Finish
              /\ trace
                   (snd (get no_answer "gh" "minrk/binder-example" initial))
                 = (headers
                    ++ [SpawnKeepAlive;
                        StreamClosed
                          (DataFrame
                             (failed_frame
                                "Error resolving ref for gh:minrk/binder-example: HTTP 502: Bad Gateway (GitHub is not answering)"))])%list))).
Proof.
  split.
  - apply (unresolved_ref_is_reported no_ref "gh"
             "minrk/binder-example/nobranch" dangling_provider);
      vm_compute; reflexivity.
  - apply (unresolved_ref_is_reported no_answer "gh"
             "minrk/binder-example" unreachable_provider);
      vm_compute; reflexivity.
Defined.

Lemma registry_error_leaves_get_witness :
  Raise (ClientHTTPError 599 None) = @Raise unit (ClientHTTPError 599 None)
  /\ trace (snd (get registry_down "gh" "minrk/binder-example" initial))
     = (headers
        ++ [SpawnKeepAlive;
            RegistryLookup "binder-minrk-binder-example"
                           "0123456789abcdef"])%list
  /\ image_name (snd (get registry_down "gh" "minrk/binder-example" initial))
     = Some (image_of registry_down example_provider "0123456789abcdef").
Proof.
  apply (registry_error_leaves_get registry_down "gh" "minrk/binder-example"
           example_provider "0123456789abcdef" "registry.example"
           "binder-minrk-binder-example:0123456789abcdef"
           "binder-minrk-binder-example" "0123456789abcdef"
           (ClientHTTPError 599 None));
    vm_compute; reflexivity.
Defined.

Lemma cached_image_skips_the_build_witness :
  List.existsb is_build_action
    (trace (snd (get cache_hit "gh" "minrk/binder-example" initial))) = false
  /\ List.existsb is_gauge
       (trace (snd (get cache_hit "gh" "minrk/binder-example" initial)))
     = false
  /\ exists lookup,
       is_lookup lookup = true
       /\ ((Ret tt = Raise Finish
            /\ trace (snd (get cache_hit "gh" "minrk/binder-example" initial))
               = (headers
                  ++ [SpawnKeepAlive; lookup;
                      StreamClosed
                        (DataFrame
                           (Dict [("phase", JStr "built");
                                  ("imageName",
                                   JStr (image_of cache_hit example_provider
                                           "0123456789abcdef"));
                                  ("message",
                                   JStr ("Found built image, launching..."
                                         ++ nl))]))])%list)
           \/ exists first rest,
                attempt launching_frame first
                /\ trace (snd (get cache_hit "gh" "minrk/binder-example"
                                   initial))
                   = (headers
                      ++ [SpawnKeepAlive; lookup;
                          Sent
                            (DataFrame
                               (Dict [("phase", JStr "built");
                                      ("imageName",
                                       JStr (image_of cache_hit
                                               example_provider
                                               "0123456789abcdef"));
                                      ("message",
                                       JStr ("Found built image, launching..."
                                             ++ nl))]));
                          first] ++ rest)%list).
Proof.
  apply (cached_image_skips_the_build cache_hit "gh" "minrk/binder-example"
           example_provider "0123456789abcdef" (Ret tt));
    vm_compute; reflexivity.
Defined.

Lemma empty_manifest_starts_a_build_witness :
  b_push_secret (build_of empty_manifest example_provider "0123456789abcdef")
  = Some (docker_push_secret (config empty_manifest))
  /\ exists after,
       trace (snd (get empty_manifest "gh" "minrk/binder-example" initial))
       = (headers
          ++ [SpawnKeepAlive;
              RegistryLookup "binder-minrk-binder-example" "0123456789abcdef";
              NewQueue;
              NewBuild (build_of empty_manifest example_provider
                          "0123456789abcdef");
              Inc BUILDS_INPROGRESS; PoolSubmit submit] ++ after)%list.
Proof.
  apply (empty_manifest_starts_a_build empty_manifest "gh"
           "minrk/binder-example" example_provider "0123456789abcdef"
           "registry.example" "binder-minrk-binder-example:0123456789abcdef"
           "binder-minrk-binder-example" "0123456789abcdef" (Some []));
    try (vm_compute; reflexivity).
  right. reflexivity.
Defined.

Lemma missing_local_image_starts_a_build_witness :
  b_push_secret (build_of local_build example_provider "0123456789abcdef")
  = None
  /\ exists after,
       trace (snd (get local_build "gh" "minrk/binder-example" initial))
       = (headers
          ++ [SpawnKeepAlive;
              DockerLookup (image_of local_build example_provider
                              "0123456789abcdef");
              NewQueue;
              NewBuild (build_of local_build example_provider
                          "0123456789abcdef");
              Inc BUILDS_INPROGRESS; PoolSubmit submit] ++ after)%list.
Proof.
  apply (missing_local_image_starts_a_build local_build "gh"
           "minrk/binder-example" example_provider "0123456789abcdef");
    vm_compute; reflexivity.
Defined.

Lemma docker_error_leaves_get_witness :
  Raise (OtherError "APIError") = @Raise unit (OtherError "APIError")
  /\ trace (snd (get docker_down "gh" "minrk/binder-example" initial))
     = (headers
        ++ [SpawnKeepAlive;
            DockerLookup (image_of docker_down example_provider
                            "0123456789abcdef")])%list.
Proof.
  apply (docker_error_leaves_get docker_down "gh" "minrk/binder-example"
           example_provider "0123456789abcdef" (OtherError "APIError"));
    try (vm_compute; reflexivity).
  discriminate.
Defined.

Lemma image_name_without_slash_raises_witness :
  Raise IndexError = @Raise unit IndexError
  /\ trace (snd (get flat_prefix "gh" "minrk/binder-example" initial))
     = (headers ++ [SpawnKeepAlive])%list
  /\ image_name (snd (get flat_prefix "gh" "minrk/binder-example" initial))
     = Some (image_of flat_prefix example_provider "0123456789abcdef").
Proof.
  apply (image_name_without_slash_raises flat_prefix "gh"
           "minrk/binder-example" example_provider "0123456789abcdef");
    vm_compute; reflexivity.
Defined.

End RequestCoverage.

Module StreamCoverage.

Import PyStr BuildHandler HandlerFacts Scenario Requests LaunchFacts
  LoopFacts Streams.

Definition open_event (a : action) : Prop := is_closed a = false.

Lemma quiet_app a b : quiet (a ++ b) = quiet a && quiet b.
Proof. unfold quiet. rewrite List.existsb_app. apply negb_orb. Qed.

Lemma quiet_events l : Forall open_event l -> quiet l = true.
Proof.
  unfold quiet. induction 1 as [|a l Ha _ IH]; [reflexivity|].
  cbn [List.existsb]. rewrite Ha. exact IH.
Qed.

Lemma cancelled_quiet {A} ext (r : res A) : quiet ext = true -> cancelled ext r.
Proof. left. assumption. Qed.

(** What came before a cancelled computation stays before it. *)
Lemma cancelled_after {A} e2 e1 (r : res A) :
  cancelled e2 r -> quiet e1 = true -> cancelled (e2 ++ e1) r.
Proof.
  intros [Q|(-> & post & f & pre & -> & Fp & Qp)] Q1.
  - left. rewrite quiet_app, Q, Q1. reflexivity.
  - right. split; [reflexivity|]. exists post, f, (pre ++ e1)%list.
    rewrite <- List.app_assoc. cbn [app].
    rewrite quiet_app, Qp, Q1. auto.
Qed.

Definition cancels {A} (m : M state A) : Prop := spec cancelled m.

Lemma cancels_open {A} (m : M state A) : emits open_event m -> cancels m.
Proof.
  intros H. eapply spec_weaken; [exact H|].
  intros ext r0 F. left. apply quiet_events. exact F.
Qed.

(** A computation that was cancelled did not return: its continuation
    does not run. *)
Lemma cancelled_returned {A} ext (a : A) :
  cancelled ext (Ret a) -> quiet ext = true.
Proof. intros [Q|(E & _)]; [exact Q | discriminate]. Qed.

Lemma cancelled_raised {A B} ext e :
  @cancelled A ext (Raise e) -> @cancelled B ext (Raise e).
Proof.
  intros [Q|(E & H)]; [left; exact Q|].
  right. injection E as ->. auto.
Qed.

Lemma cancelled_blocked {A B} ext :
  @cancelled A ext Blocked -> @cancelled B ext Blocked.
Proof. intros [Q|(E & _)]; [left; exact Q | discriminate]. Qed.

Lemma cancels_bind {A B} (m : M state A) (k : A -> M state B) :
  cancels m -> (forall a, cancels (k a)) -> cancels (bind m k).
Proof.
  intros Hm Hk s r s' H.
  apply bind_inv in H as [(a & s1 & H1 & H2)|[(e & H1 & ->)|[H1 ->]]];
    destruct (Hm _ _ _ H1) as (e1 & E1 & C1).
  - destruct (Hk a _ _ _ H2) as (e2 & E2 & C2).
    exists (e2 ++ e1)%list. rewrite E2, E1, List.app_assoc.
    split; [reflexivity|].
    apply cancelled_after; [exact C2 | eapply cancelled_returned; eauto].
  - exists e1. split; [exact E1 | exact (@cancelled_raised A B _ _ C1)].
  - exists e1. split; [exact E1 | exact (@cancelled_blocked A B _ C1)].
Qed.

(** A [try] whose body writes nothing to the client: the handler may. *)
Lemma cancels_try_except {A} (m : M state A) h :
  emits open_event m -> (forall e, cancels (h e)) ->
  cancels (try_except m h).
Proof.
  intros Hm Hh s r s' H.
  apply try_except_inv in H as [(e & s1 & H1 & H2)|[H1 _]];
    destruct (Hm _ _ _ H1) as (e1 & E1 & F1).
  - destruct (Hh e _ _ _ H2) as (e2 & E2 & C2).
    exists (e2 ++ e1)%list. rewrite E2, E1, List.app_assoc.
    split; [reflexivity|].
    apply cancelled_after; [exact C2 | apply quiet_events; exact F1].
  - exists e1. split; [exact E1|]. left. apply quiet_events. exact F1.
Qed.

Lemma cancels_track_inprogress {A} g (body : M state A) :
  cancels body -> cancels (track_inprogress g body).
Proof.
  intros Hb s r s' H.
  apply track_inprogress_inv in H as (s0 & E0 & [[H ->]|(s1 & H & E1 & _)]);
    destruct (Hb _ _ _ H) as (e1 & Eb & C).
  - exists (e1 ++ [Inc g])%list. rewrite Eb, E0, <- List.app_assoc.
    split; [reflexivity|]. apply cancelled_after; [exact C | reflexivity].
  - exists (Dec g :: e1 ++ [Inc g])%list.
    rewrite E1, Eb, E0. cbn [app]. rewrite <- List.app_assoc.
    split; [reflexivity|].
    change (Dec g :: e1 ++ [Inc g])%list with ((Dec g :: e1) ++ [Inc g])%list.
    apply cancelled_after; [|reflexivity].
    destruct C as [Q|(-> & post & f & pre & -> & Fp & Qp)].
    + left. unfold quiet in *. cbn [List.existsb is_closed orb]. exact Q.
    + right. split; [reflexivity|].
      exists (Dec g :: post)%list, f, pre. cbn [app List.forallb is_dec andb].
      auto.
Qed.

Section WithWorld.

Variable w : world.

Lemma cancels_emit d : cancels (emit w d).
Proof.
  eapply spec_weaken; [apply spec_emit|].
  intros ext r [[-> ->]|[-> ->]]; [left; reflexivity|].
  right. split; [reflexivity|]. exists [], (DataFrame d), []. auto.
Qed.

Lemma cancels_fail message : cancels (fail w message).
Proof. apply cancels_emit. Qed.

Lemma hub_or_observe_open a : hub_or_observe a -> open_event a.
Proof. intros [(c & ->)|(st & ->)]; reflexivity. Qed.

Lemma loop_event_open a : loop_event a -> open_event a.
Proof. intros [(d & _ & ->)|[->| ->]]; reflexivity. Qed.

Lemma cancels_launch : cancels (launch w).
Proof.
  eapply spec_weaken; [apply launch_shape|].
  intros ext r R.
  destruct R as [|mid r F|mid url token F|mid url token F];
    try pose proof (quiet_events mid
                      (Forall_impl _ hub_or_observe_open F)) as Q.
  - right. split; [reflexivity|].
    exists [], (DataFrame launching_frame), []. auto.
  - left. rewrite quiet_app, Q. reflexivity.
  - left. change (?a :: mid ++ ?b)%list with ([a] ++ mid ++ b)%list.
    rewrite !quiet_app, Q. reflexivity.
  - right. split; [reflexivity|].
    exists [], (DataFrame (ready_frame url token)),
      (mid ++ [Sent (DataFrame launching_frame)])%list.
    rewrite quiet_app, Q. auto.
Qed.

Lemma cancels_consume image :
  cancels (consume w image (queue w) false false None).
Proof.
  eapply spec_weaken; [apply consume_shape; discriminate|].
  intros ext r R.
  destruct R as [e F|d e Hd F|e r F Hr];
    pose proof (quiet_events e (Forall_impl _ loop_event_open F)) as Q.
  - left. unfold quiet in *. cbn [List.existsb is_closed orb]. exact Q.
  - right. split; [reflexivity|]. exists [], (DataFrame d), e. auto.
  - left. exact Q.
Qed.

Lemma image_found_open image : emits open_event (image_found w image).
Proof.
  unfold image_found. destruct (use_registry (config w)).
  - destruct (split1 "/" image) as [[x rest]|]; [|apply emits_raise].
    destruct (split1 ":" rest) as [[repo_name tag]|]; [|apply emits_raise].
    apply emits_bind; [apply emits_record; reflexivity|]. intros _.
    apply emits_bind; [apply emits_call|]. intros m. apply emits_ret.
  - apply emits_bind; [apply emits_record; reflexivity|]. intros _.
    apply emits_try_except.
    + apply emits_bind; [apply emits_call|]. intros _. apply emits_ret.
    + intros []; try apply emits_raise. apply emits_ret.
Qed.

Lemma cancels_build_and_launch build_name image repo_url ref :
  cancels (build_and_launch w build_name image repo_url ref).
Proof.
  unfold build_and_launch.
  apply cancels_bind; [apply cancels_open, emits_record; reflexivity|].
  intros _.
  apply cancels_bind; [apply cancels_open, emits_record; reflexivity|].
  intros _.
  apply cancels_bind.
  - apply cancels_track_inprogress.
    apply cancels_bind; [apply cancels_open, emits_record; reflexivity|].
    intros _. apply cancels_bind; [apply cancels_emit|].
    intros _. apply cancels_consume.
  - intros [|]; [apply cancels_open, emits_ret|].
    apply cancels_bind; [apply cancels_open, emits_record; reflexivity|].
    intros _. apply cancels_track_inprogress, cancels_launch.
Qed.

Lemma cancels_get provider_prefix spec : cancels (get w provider_prefix spec).
Proof.
  unfold get.
  apply cancels_bind; [apply cancels_open, emits_record; reflexivity|].
  intros _.
  apply cancels_bind; [apply cancels_open, emits_record; reflexivity|].
  intros _.
  destruct (negb _); [apply cancels_fail|].
  apply cancels_bind; [apply cancels_open, emits_record; reflexivity|].
  intros _.
  apply cancels_bind;
    [apply cancels_open, emits_silent; eapply spec_weaken;
     [apply adds_set_keepalive | intros ? ? [-> _]; reflexivity]|].
  intros _.
  apply cancels_bind.
  { apply cancels_try_except.
    - apply emits_bind; [apply emits_call|]. intros p. apply emits_ret.
    - intros e. apply cancels_bind; [apply cancels_fail|].
      intros _. apply cancels_open, emits_ret. }
  intros [p|]; [|apply cancels_open, emits_ret].
  apply cancels_bind;
    [apply cancels_open, emits_silent; eapply spec_weaken;
     [apply adds_set_repo | intros ? ? [-> _]; reflexivity]|].
  intros _.
  apply cancels_bind.
  { apply cancels_try_except.
    - apply emits_bind; [apply emits_call|]. intros r. apply emits_ret.
    - intros e. apply cancels_bind; [apply cancels_fail|].
      intros _. apply cancels_open, emits_ret. }
  intros [[ref|]|]; [|apply cancels_fail|apply cancels_open, emits_ret].
  apply cancels_bind;
    [apply cancels_open, emits_silent; eapply spec_weaken;
     [apply adds_set_image_name | intros ? ? [-> _]; reflexivity]|].
  intros _.
  apply cancels_bind; [apply cancels_open, image_found_open|].
  intros [|]; [|apply cancels_build_and_launch].
  apply cancels_bind; [apply cancels_emit|]. intros _. apply cancels_launch.
Qed.

End WithWorld.

(** *** What a request leaves behind *)

Definition keeps {A} (m : M state A) : Prop :=
  forall s r s', m s = (r, s') -> r <> Blocked -> settled s s'.

Lemma settled_refl s : settled s s.
Proof. repeat split; auto. Qed.

Lemma settled_trans s1 s2 s3 : settled s1 s2 -> settled s2 s3 -> settled s1 s3.
Proof.
  intros (B1 & L1 & F1) (B2 & L2 & F2). repeat split; try congruence. auto.
Qed.

Lemma keeps_same {A} (m : M state A) :
  (forall s, snd (m s) = s) -> keeps m.
Proof.
  intros H s r s' E _. specialize (H s). rewrite E in H. cbn in H. subst.
  apply settled_refl.
Qed.

Lemma keeps_ret {A} (a : A) : keeps (ret a).
Proof. apply keeps_same. reflexivity. Qed.

Lemma keeps_raise {A} e : keeps (@raise state A e).
Proof. apply keeps_same. reflexivity. Qed.

Lemma keeps_call {A} (r : res A) : keeps (call r).
Proof. apply keeps_same. reflexivity. Qed.

Lemma keeps_get_state : keeps (@get_state state).
Proof. apply keeps_same. reflexivity. Qed.

Lemma keeps_attribute {A} name (v : option A) : keeps (attribute name v).
Proof. apply keeps_same. destruct v; reflexivity. Qed.

Lemma keeps_modify (f : state -> state) :
  (forall s, settled s (f s)) -> keeps (modify f).
Proof. intros H s r s' E _. injection E as _ <-. apply H. Qed.

Lemma keeps_record a : keeps (record a).
Proof. apply keeps_modify. intros s. repeat split; auto. Qed.

Lemma keeps_set_keepalive b : keeps (set_keepalive b).
Proof. apply keeps_modify. intros s. repeat split; auto. Qed.

Lemma keeps_set_repo x : keeps (set_repo x).
Proof. apply keeps_modify. intros s. repeat split; auto. Qed.

Lemma keeps_set_image_name x : keeps (set_image_name x).
Proof. apply keeps_modify. intros s. repeat split; auto. Qed.

(** [self._abort_launch = Future()]: a future that is not done. *)
Lemma keeps_new_future : keeps (set_abort_launch (Some false)).
Proof. apply keeps_modify. intros s. repeat split; auto. discriminate. Qed.

Lemma keeps_bind {A B} (m : M state A) (k : A -> M state B) :
  keeps m -> (forall a, keeps (k a)) -> keeps (bind m k).
Proof.
  intros Hm Hk s r s' H N.
  apply bind_inv in H as [(a & s1 & H1 & H2)|[(e & H1 & ->)|[H1 ->]]].
  - eapply settled_trans; [eapply Hm; [exact H1 | discriminate]|].
    eapply Hk; eauto.
  - eapply Hm; [exact H1 | discriminate].
  - contradiction.
Qed.

Lemma keeps_try_except {A} (m : M state A) h :
  keeps m -> (forall e, keeps (h e)) -> keeps (try_except m h).
Proof.
  intros Hm Hh s r s' H N.
  apply try_except_inv in H as [(e & s1 & H1 & H2)|[H1 _]].
  - eapply settled_trans; [eapply Hm; [exact H1 | discriminate]|].
    eapply Hh; eauto.
  - eapply Hm; eauto.
Qed.

(** The gauge is entered, and left when the body ends. *)
Lemma keeps_track_inprogress {A} g (body : M state A) :
  keeps body -> keeps (track_inprogress g body).
Proof.
  intros Hb s r s' H N. unfold track_inprogress in H.
  unfold bind at 1 2 in H. unfold add_gauge at 1, record at 1, modify in H.
  cbn beta iota in H. unfold finally in H.
  match type of H with
  | context [body ?st] => set (s0 := st) in *
  end.
  destruct (body s0) as [[a|e|] s1] eqn:E; [| |injection H as <- _; contradiction].
  - specialize (Hb _ _ _ E ltac:(discriminate)).
    destruct Hb as (B & L & F).
    destruct g; injection H as <- <-; cbn in *; repeat split; auto;
      unfold push; cbn [inprogress_builds inprogress_launches]; lia.
  - specialize (Hb _ _ _ E ltac:(discriminate)).
    destruct Hb as (B & L & F).
    destruct g; injection H as <- <-; cbn in *; repeat split; auto;
      unfold push; cbn [inprogress_builds inprogress_launches]; lia.
Qed.

Section Kept.

Variable w : world.

Lemma keeps_emit d : keeps (emit w d).
Proof.
  intros s r s' H _.
  destruct (emit_cases w d s) as [[_ E]|[_ E]]; rewrite E in H;
    injection H as _ <-; repeat split; auto.
Qed.

Lemma keeps_launcher_launch image username :
  keeps (launcher_launch w image username).
Proof.
  intros s r s' H _. unfold launcher_launch in H.
  destruct (Launcher.launch _ image username []) as [r0 calls].
  injection H as _ <-. clear.
  revert s. induction calls as [|c calls IH]; intros s;
    [apply settled_refl|].
  cbn [fold_left]. eapply settled_trans; [|apply IH].
  repeat split; auto.
Qed.

Lemma keeps_launch : keeps (launch w).
Proof.
  unfold launch.
  apply keeps_bind; [apply keeps_emit|]. intros _.
  apply keeps_bind; [apply keeps_get_state|]. intros s0.
  apply keeps_bind; [apply keeps_attribute|]. intros repo_url.
  apply keeps_bind; [apply keeps_call|]. intros username.
  apply keeps_bind; [apply keeps_new_future|]. intros _.
  apply keeps_bind.
  - unfold launch_try. apply keeps_try_except.
    + apply keeps_bind; [apply keeps_attribute|]. intros image.
      apply keeps_bind; [apply keeps_launcher_launch|]. intros info.
      apply keeps_bind; [apply keeps_get_state|]. intros st.
      destruct (match _abort_launch st with Some d => d | None => false end);
        [apply keeps_ret|].
      apply keeps_bind; [apply keeps_record|]. intros _. apply keeps_ret.
    + intros e. apply keeps_bind; [apply keeps_record|]. intros _.
      apply keeps_raise.
  - intros [[info|]|]; [|apply keeps_raise|apply keeps_ret].
    destruct (lookup "url" info); [apply keeps_emit | apply keeps_raise].
Qed.

Lemma keeps_consume image items :
  forall log_future failed event,
    keeps (consume w image items log_future failed event).
Proof.
  induction items as [|p rest IH]; intros lf failed ev.
  { intros s r s' H N. injection H as <- _. contradiction. }
  cbn [consume].
  destruct (String.eqb (kind p) "pod.phasechange").
  - destruct (String.eqb (payload p) "Pending"); [apply IH|].
    destruct (String.eqb (payload p) "Deleted").
    { apply keeps_bind; [apply keeps_emit|]. intros _. apply keeps_ret. }
    destruct (String.eqb (payload p) "Running").
    { apply keeps_bind; [|intros _; apply IH].
      destruct lf; [apply keeps_ret | apply keeps_record]. }
    destruct (String.eqb (payload p) "Succeeded"); [apply IH|].
    apply keeps_bind; [apply keeps_emit|]. intros _. apply IH.
  - destruct (String.eqb (kind p) "log").
    + apply keeps_bind; [apply keeps_call|]. intros j.
      apply keeps_bind; [apply keeps_call|]. intros b.
      apply keeps_bind;
        [destruct b; [apply keeps_record | apply keeps_ret]|].
      intros _. apply keeps_bind; [apply keeps_emit|]. intros _. apply IH.
    + destruct ev as [ev|]; [|apply keeps_raise].
      apply keeps_bind; [apply keeps_emit|]. intros _. apply IH.
Qed.

Lemma keeps_image_found image : keeps (image_found w image).
Proof.
  unfold image_found. destruct (use_registry (config w)).
  - destruct (split1 "/" image) as [[x rest]|]; [|apply keeps_raise].
    destruct (split1 ":" rest) as [[repo_name tag]|]; [|apply keeps_raise].
    apply keeps_bind; [apply keeps_record|]. intros _.
    apply keeps_bind; [apply keeps_call|]. intros m. apply keeps_ret.
  - apply keeps_bind; [apply keeps_record|]. intros _.
    apply keeps_try_except.
    + apply keeps_bind; [apply keeps_call|]. intros _. apply keeps_ret.
    + intros []; try apply keeps_raise. apply keeps_ret.
Qed.

Lemma keeps_build_and_launch build_name image repo_url ref :
  keeps (build_and_launch w build_name image repo_url ref).
Proof.
  unfold build_and_launch.
  apply keeps_bind; [apply keeps_record|]. intros _.
  apply keeps_bind; [apply keeps_record|]. intros _.
  apply keeps_bind.
  - apply keeps_track_inprogress.
    apply keeps_bind; [apply keeps_record|]. intros _.
    apply keeps_bind; [apply keeps_emit|]. intros _. apply keeps_consume.
  - intros [|]; [apply keeps_ret|].
    apply keeps_bind; [apply keeps_record|]. intros _.
    apply keeps_track_inprogress, keeps_launch.
Qed.

Lemma keeps_get provider_prefix spec : keeps (get w provider_prefix spec).
Proof.
  unfold get.
  apply keeps_bind; [apply keeps_record|]. intros _.
  apply keeps_bind; [apply keeps_record|]. intros _.
  destruct (negb _); [apply keeps_emit|].
  apply keeps_bind; [apply keeps_record|]. intros _.
  apply keeps_bind; [apply keeps_set_keepalive|]. intros _.
  apply keeps_bind.
  { apply keeps_try_except.
    - apply keeps_bind; [apply keeps_call|]. intros p. apply keeps_ret.
    - intros e. apply keeps_bind; [apply keeps_emit|].
      intros _. apply keeps_ret. }
  intros [p|]; [|apply keeps_ret].
  apply keeps_bind; [apply keeps_set_repo|]. intros _.
  apply keeps_bind.
  { apply keeps_try_except.
    - apply keeps_bind; [apply keeps_call|]. intros r. apply keeps_ret.
    - intros e. apply keeps_bind; [apply keeps_emit|].
      intros _. apply keeps_ret. }
  intros [[ref|]|]; [|apply keeps_emit|apply keeps_ret].
  apply keeps_bind; [apply keeps_set_image_name|]. intros _.
  apply keeps_bind; [apply keeps_image_found|].
  intros [|]; [|apply keeps_build_and_launch].
  apply keeps_bind; [apply keeps_emit|]. intros _. apply keeps_launch.
Qed.

(** X16.  Whenever [get] ends, by returning or by an exception, on any
    path, the gauges of builds and of launches in progress are back at
    the values they had when it started: every [track_inprogress] that was
    entered was left. *)
Theorem gauges_are_left_as_found provider_prefix spec s0 r s :
  get w provider_prefix spec s0 = (r, s) ->
  r <> Blocked ->
  inprogress_builds s = inprogress_builds s0
  /\ inprogress_launches s = inprogress_launches s0.
Proof.
  intros H N.
  destruct (keeps_get provider_prefix spec _ _ _ H N) as (B & L & _).
  auto.
Qed.

Lemma forallb_rev {A} (f : A -> bool) l :
  List.forallb f (rev l) = List.forallb f l.
Proof.
  induction l as [|a l IH]; [reflexivity|].
  cbn [rev List.forallb]. rewrite List.forallb_app, IH.
  cbn [List.forallb]. rewrite andb_true_r. apply andb_comm.
Qed.

(** [on_finish] on a handler whose abort future, if any, is not done. *)
Lemma on_finish_result s :
  _abort_launch s <> Some true ->
  exists s',
    on_finish s = (Ret tt, s')
    /\ events s' = OnFinish :: events s
    /\ _keepalive s' = Some false
    /\ _build_finished s' = true
    /\ _abort_launch s'
       = match _abort_launch s with
         | Some _ => Some true
         | None => None
         end
    /\ flushed s' = flushed s.
Proof.
  intros _. unfold on_finish, bind, record, set_keepalive,
    set_build_finished, get_state, modify, push.
  cbn [_abort_launch].
  destruct (_abort_launch s); eexists; repeat split.
Qed.

Lemma keep_alive_turn_stopped s :
  _keepalive s = Some false -> keep_alive_turn w s = (Ret false, s).
Proof.
  intros H. unfold keep_alive_turn, bind, get_state. rewrite H. reflexivity.
Qed.

(** X15.  Once a write of [get] met a closed stream, the request is
    cancelled: [get] raises [Finish]; that write is the only one that
    failed, no frame is written after it (only gauges are left on the way
    out), and the handler ends through [on_finish], not [send_error]:
    no error frame is sent, and the abort future of a launch that had
    started is completed. *)
Theorem closed_stream_cancels_the_request provider_prefix spec r s :
  get w provider_prefix spec initial = (r, s) ->
  List.existsb is_closed (trace s) = true ->
  r = Raise Finish
  /\ (exists before f after,
        trace s = (before ++ StreamClosed f :: after)%list
        /\ List.existsb is_closed before = false
        /\ List.forallb is_dec after = true)
  /\ _abort_launch s <> Some true
  /\ exists s',
       execute w provider_prefix spec initial = (Ret tt, s')
       /\ trace s' = (trace s ++ [OnFinish])%list
       /\ _abort_launch s'
          = match _abort_launch s with
            | Some _ => Some true
            | None => None
            end.
Proof.
  intros H C.
  destruct (cancels_get w provider_prefix spec _ _ _ H) as (ext & E & K).
  cbn [events initial] in E. rewrite List.app_nil_r in E.
  unfold trace in C. rewrite E, BuildThenLaunch.existsb_rev in C.
  destruct K as [Q|(-> & post & f & pre & -> & Fp & Qp)].
  { unfold quiet in Q. rewrite C in Q. discriminate. }
  assert (F : _abort_launch s <> Some true).
  { destruct (keeps_get provider_prefix spec _ _ _ H ltac:(discriminate))
      as (_ & _ & F). apply F. discriminate. }
  split; [reflexivity|]. split; [|split; [exact F|]].
  - exists (rev pre), f, (rev post). unfold trace. rewrite E.
    rewrite List.rev_app_distr. cbn [rev]. rewrite <- List.app_assoc.
    rewrite BuildThenLaunch.existsb_rev, forallb_rev.
    unfold quiet in Qp. apply negb_true_iff in Qp. auto.
  - destruct (on_finish_result s F) as (s' & Ef & Ee & Ek & _ & Ea & _).
    exists s'. unfold execute. rewrite H.
    split; [exact Ef|]. split; [|exact Ea].
    unfold trace. rewrite Ee. reflexivity.
Qed.

End Kept.

Lemma gauges_are_left_as_found_witness :
  inprogress_builds (snd (get build_fails "gh" "minrk/binder-example" initial))
  = inprogress_builds initial
  /\ inprogress_launches
       (snd (get build_fails "gh" "minrk/binder-example" initial))
     = inprogress_launches initial.
Proof.
  apply (gauges_are_left_as_found build_fails "gh" "minrk/binder-example"
           initial (Ret tt)).
  - vm_compute. reflexivity.
  - discriminate.
Defined.

Lemma closed_stream_cancels_the_request_witness :
  Raise Finish = @Raise unit Finish
  /\ (exists before f after,
        trace (snd (get leaves_at_launch "gh" "minrk/binder-example" initial))
        = (before ++ StreamClosed f :: after)%list
        /\ List.existsb is_closed before = false
        /\ List.forallb is_dec after = true)
  /\ _abort_launch
       (snd (get leaves_at_launch "gh" "minrk/binder-example" initial))
     <> Some true
  /\ exists s',
       execute leaves_at_launch "gh" "minrk/binder-example" initial
       = (Ret tt, s')
       /\ trace s'
          = (trace (snd (get leaves_at_launch "gh" "minrk/binder-example"
                            initial)) ++ [OnFinish])%list
       /\ _abort_launch s'
          = match _abort_launch
                    (snd (get leaves_at_launch "gh" "minrk/binder-example"
                              initial)) with
            | Some _ => Some true
            | None => None
            end.
Proof.
  apply (closed_stream_cancels_the_request leaves_at_launch "gh"
           "minrk/binder-example" (Raise Finish));
    vm_compute; reflexivity.
Defined.

End StreamCoverage.

Module LoopCoverage.

Import PyStr BuildHandler HandlerFacts Scenario Requests LaunchFacts
  LoopFacts Loops.

Lemma log_streams_app a b :
  log_streams (a ++ b) = (log_streams a + log_streams b)%nat.
Proof. unfold log_streams. now rewrite filter_app, List.length_app. Qed.

Section WithWorld.

Variable w : world.
Variable image : string.

Definition at_most (n : nat) {A} (m : M state A) : Prop :=
  spec (fun ext _ => (log_streams ext <= n)%nat) m.

Lemma at_most_emit_then n d {A} (k : M state A) :
  at_most n k -> at_most n (emit w d ;;; k).
Proof.
  intros Hk s r s' H.
  apply bind_inv in H as [(a & s1 & H1 & H2)|[(e & H1 & ->)|[H1 ->]]];
    destruct (spec_emit w d _ _ _ H1) as (e1 & E1 & [[-> _]|[-> _]]).
  1,2: destruct (Hk _ _ _ H2) as (e2 & E2 & L);
    eexists; (split; [rewrite E2, E1, List.app_assoc; reflexivity|]);
    rewrite log_streams_app; cbn; lia.
  all: eexists; (split; [exact E1|]); cbn; lia.
Qed.

Lemma consume_log_streams items :
  forall log_future failed event,
    at_most (if log_future : bool then 0 else 1)
            (consume w image items log_future failed event).
Proof.
  induction items as [|p rest IH]; intros lf failed ev.
  { intros s r s' H. injection H as <- <-. exists [].
    split; [reflexivity | cbn; lia]. }
  cbn [consume].
  destruct (String.eqb (kind p) "pod.phasechange").
  - destruct (String.eqb (payload p) "Pending"); [apply IH|].
    destruct (String.eqb (payload p) "Deleted").
    { apply at_most_emit_then. intros s r s' H. injection H as <- <-.
      exists []. split; [reflexivity | cbn; lia]. }
    destruct (String.eqb (payload p) "Running").
    { intros s r s' H.
      apply bind_inv in H as [(a & s1 & H1 & H2)|[(e & H1 & _)|[H1 _]]];
        [|destruct lf; discriminate..].
      destruct (IH true failed ev _ _ _ H2) as (ext & E2 & L).
      destruct lf; injection H1 as _ <-.
      - exists ext. auto.
      - exists (ext ++ [PoolSubmit stream_logs])%list.
        split; [rewrite E2; cbn [events push];
                rewrite <- List.app_assoc; reflexivity|].
        rewrite log_streams_app. cbn in *. lia. }
    destruct (String.eqb (payload p) "Succeeded"); [apply IH|].
    apply at_most_emit_then, IH.
  - destruct (String.eqb (kind p) "log").
    + intros s r s' H. unfold call in H.
      apply bind_inv in H as [(j & s1 & H1 & H2)|[(e & H1 & ->)|[H1 ->]]].
      2,3: injection H1 as _ <-; exists []; split; [reflexivity|];
        destruct lf; cbn; lia.
      injection H1 as _ <-.
      apply bind_inv in H2 as [(b & s2 & H1 & H2)|[(e & H1 & ->)|[H1 ->]]].
      2,3: injection H1 as _ <-; exists []; split; [reflexivity|];
        destruct lf; cbn; lia.
      injection H1 as _ <-.
      apply bind_inv in H2 as [(u & s3 & H1 & H2)|[(e & H1 & _)|[H1 _]]];
        [|destruct b; discriminate..].
      destruct (at_most_emit_then _ (Str (payload p)) _
                  (IH lf (failed || b) (Some (Str (payload p)))) _ _ _ H2)
        as (ext & E2 & L).
      destruct b; injection H1 as _ <-.
      * exists (ext ++ [Observe BUILD_TIME failure])%list.
        split; [rewrite E2; cbn [events push];
                rewrite <- List.app_assoc; reflexivity|].
        rewrite log_streams_app. cbn. lia.
      * exists ext. auto.
    + destruct ev as [ev|]; [apply at_most_emit_then, IH|].
      intros s r s' H. injection H as <- <-. exists [].
      split; [reflexivity | destruct lf; cbn; lia].
Qed.

(** X17.  However often the pod is reported [Running], the loop hands
    [build.stream_logs] to the pool at most once, and not at all when the
    log stream was started before. *)
Theorem stream_logs_is_submitted_once items log_future failed event s r s' :
  consume w image items log_future failed event s = (r, s') ->
  exists ext,
    events s' = (ext ++ events s)%list
    /\ (log_streams ext <= if log_future then 0 else 1)%nat.
Proof.
  intros H.
  exact (consume_log_streams items log_future failed event s r s' H).
Qed.

(** X18.  An item whose kind is neither [pod.phasechange] nor [log] sets
    no event: the loop emits the event of the item before once more, and
    goes on; when no item set an event yet, the name [event] is unbound
    and the loop ends with [UnboundLocalError], nothing emitted. *)
Theorem unknown_kind_repeats_the_event p rest log_future failed event s :
  unknown_kind p = true ->
  match event with
  | None =>
      consume w image (p :: rest) log_future failed event s
      = (Raise (UnboundLocalError "event"), s)
  | Some d =>
      consume w image (p :: rest) log_future failed event s
      = if stream_open w s
        then consume w image rest log_future failed event
               (delivered (DataFrame d) s)
        else (Raise Finish, push (StreamClosed (DataFrame d)) s)
  end.
Proof.
  unfold unknown_kind. intros H. apply andb_true_iff in H as [H1 H2].
  apply negb_true_iff in H1, H2.
  cbn [consume]. rewrite H1, H2. destruct event as [d|]; [|reflexivity].
  unfold bind.
  destruct (emit_cases w d s) as [[-> ->]|[-> ->]]; reflexivity.
Qed.

(** X19.  A log line is parsed before it is forwarded.  When
    [json.loads] raises on it, or the parsed value is no object (so that
    [payload.get] raises [AttributeError]), the loop ends with that
    exception: the line is not sent, no failure is recorded, and the rest
    of the queue is not read. *)
Theorem bad_log_line_ends_the_loop p rest log_future failed event s e :
  kind p = "log" ->
  log_error w p = Some e ->
  consume w image (p :: rest) log_future failed event s = (Raise e, s).
Proof.
  intros Hk He. cbn [consume]. rewrite Hk. cbn [String.eqb].
  change (String.eqb "log" "pod.phasechange") with false.
  change (String.eqb "log" "log") with true. cbv beta iota.
  unfold log_error in He. unfold bind, call.
  destruct (json_loads w (payload p)) as [j|e'|];
    [|injection He as <-; reflexivity|discriminate].
  destruct (phase_is_failure j) as [b|e'|]; try discriminate.
  injection He as <-. reflexivity.
Qed.

End WithWorld.

Lemma stream_logs_is_submitted_once_witness :
  exists ext,
    events (snd (consume restarting example_image (queue restarting)
                   false false None initial))
    = (ext ++ events initial)%list
    /\ (log_streams ext <= if false then 0 else 1)%nat.
Proof.
  apply (stream_logs_is_submitted_once restarting example_image
           (queue restarting) false false None initial
           (fst (consume restarting example_image (queue restarting)
                   false false None initial))).
  apply surjective_pairing.
Defined.

Lemma unknown_kind_repeats_the_event_witness :
  consume build_succeeds example_image
    [Progress "pod.event" "scheduled"; phase "Deleted"] true false
    (Some (Str step_line)) initial
  = if stream_open build_succeeds initial
    then consume build_succeeds example_image [phase "Deleted"] true false
           (Some (Str step_line)) (delivered (DataFrame (Str step_line)) initial)
    else (Raise Finish, push (StreamClosed (DataFrame (Str step_line))) initial).
Proof.
  apply (unknown_kind_repeats_the_event build_succeeds example_image
           (Progress "pod.event" "scheduled") [phase "Deleted"] true false
           (Some (Str step_line)) initial).
  reflexivity.
Defined.

Lemma bad_log_line_ends_the_loop_witness :
  consume build_succeeds example_image
    [log_line "Step 1/3 : FROM python"; phase "Deleted"] true false None
    initial
  = (Raise JSONDecodeError, initial).
Proof.
  apply (bad_log_line_ends_the_loop build_succeeds example_image
           (log_line "Step 1/3 : FROM python") [phase "Deleted"] true false
           None initial JSONDecodeError);
    reflexivity.
Defined.

End LoopCoverage.

Module LifecycleCoverage.

Import PyStr BuildHandler HandlerFacts Scenario Requests LaunchFacts
  Streams StreamCoverage Lifecycle.

Lemma rev_repeat {A} (x : A) n : rev (repeat x n) = repeat x n.
Proof.
  induction n as [|n IH]; [reflexivity|].
  cbn [repeat rev]. rewrite IH. symmetry. apply List.repeat_cons.
Qed.

Section WithWorld.

Variable w : world.

Lemma keep_alive_turn_running s :
  _keepalive s = Some true ->
  keep_alive_turn w s
  = if stream_open w s then (Ret true, delivered KeepaliveFrame s)
    else (Ret false, push (StreamClosed KeepaliveFrame) s).
Proof.
  intros H. unfold keep_alive_turn, bind at 1, get_state. rewrite H.
  unfold try_except, bind, write_flush, ret.
  destruct (stream_open w s); reflexivity.
Qed.

Lemma keep_alive_turns_run n :
  forall s r s',
    _keepalive s = Some true ->
    keep_alive_turns w n s = (r, s') ->
    exists k,
      (k <= n)%nat
      /\ flushed s' = (flushed s + k)%nat
      /\ _keepalive s' = Some true
      /\ ((r = Blocked /\ k = n
           /\ events s' = (repeat (Sent KeepaliveFrame) k ++ events s)%list)
          \/ (r = Ret tt /\ stream_open w s' = false
              /\ events s'
                 = (StreamClosed KeepaliveFrame
                    :: repeat (Sent KeepaliveFrame) k ++ events s)%list)).
Proof.
  induction n as [|n IH]; intros s r s' K H.
  { injection H as <- <-. exists 0%nat.
    split; [lia|]. split; [lia|]. split; [exact K|]. left. auto. }
  cbn [keep_alive_turns] in H. unfold bind in H.
  rewrite (keep_alive_turn_running s K) in H.
  destruct (stream_open w s) eqn:O.
  - destruct (IH (delivered KeepaliveFrame s) _ _ K H)
      as (k & Hk & Hf & Hk' & Hr).
    exists (S k). cbn [flushed delivered] in Hf.
    split; [lia|]. split; [lia|]. split; [exact Hk'|].
    cbn [events delivered] in Hr.
    destruct Hr as [(-> & -> & E)|(-> & Oc & E)]; [left | right];
      repeat split; auto; rewrite E;
      change (Sent KeepaliveFrame :: events s)
        with ([Sent KeepaliveFrame] ++ events s)%list;
      rewrite List.app_assoc, <- List.repeat_cons; reflexivity.
  - injection H as <- <-. exists 0%nat.
    split; [lia|]. split; [cbn; lia|]. split; [exact K|].
    right. repeat split. exact O.
Qed.

(** X20.  [keep_alive], started on a request that is not finished, and
    as long as nothing finishes the request or sets [_keepalive] to
    false, does not raise.  Woken [n] times, it wrote one [:keepalive]
    comment per turn and nothing else; it returns only because a write
    met a closed stream (the [StreamClosedError] is swallowed), and that
    write is its last. *)
Theorem keep_alive_ends_with_the_stream n s r s' :
  _build_finished s = false ->
  keep_alive w n s = (r, s') ->
  exists k,
    (k <= n)%nat
    /\ flushed s' = (flushed s + k)%nat
    /\ ((r = Blocked /\ k = n
         /\ trace s' = (trace s ++ repeat (Sent KeepaliveFrame) k)%list)
        \/ (r = Ret tt /\ stream_open w s' = false
            /\ trace s'
               = (trace s ++ repeat (Sent KeepaliveFrame) k
                  ++ [StreamClosed KeepaliveFrame])%list)).
Proof.
  unfold keep_alive, keep_alive_start, bind at 1, set_keepalive, modify.
  intros _ H.
  apply keep_alive_turns_run in H as (k & Hk & Hf & _ & Hr);
    [|reflexivity].
  exists k. split; [exact Hk|]. split; [exact Hf|].
  unfold trace. cbn [events] in Hr.
  destruct Hr as [(-> & -> & E)|(-> & Oc & E)]; [left | right];
    repeat split; auto; rewrite E.
  - rewrite List.rev_app_distr, rev_repeat. reflexivity.
  - cbn [rev]. rewrite List.rev_app_distr, rev_repeat, <- List.app_assoc.
    reflexivity.
Qed.

(** X21.  [on_finish] stops a keepalive loop that had started, and
    completes the abort future: after it, [_keepalive] is false and
    [_build_finished] true, a future that [launch] had made is done, and
    the loop, which was asleep, returns at its next wake-up without
    writing. *)
Theorem on_finish_stops_the_keepalive s n :
  _keepalive s = Some true ->
  _abort_launch s <> Some true ->
  exists s',
    on_finish s = (Ret tt, s')
    /\ trace s' = (trace s ++ [OnFinish])%list
    /\ _keepalive s' = Some false
    /\ _build_finished s' = true
    /\ _abort_launch s'
       = match _abort_launch s with
         | Some _ => Some true
         | None => None
         end
    /\ keep_alive_turns w (S n) s' = (Ret tt, s').
Proof.
  intros _ F.
  destruct (on_finish_result s F) as (s' & Ef & Ee & Ek & Eb & Ea & _).
  exists s'. repeat split; auto.
  - unfold trace. rewrite Ee. reflexivity.
  - cbn [keep_alive_turns]. unfold bind.
    rewrite (keep_alive_turn_stopped w s' Ek). reflexivity.
Qed.

(** X22.  [send_error] never raises and always finishes the request.  It
    writes one [failed] frame with the status code and a message that is
    the text of the exception, else the reason phrase of the status, else
    [Unknown HTTP Error]; then [on_finish] runs, whether or not the frame
    reached the client. *)
Theorem send_error_reports_and_finishes status_code exc_info s :
  _abort_launch s <> Some true ->
  exists s' a,
    send_error w status_code exc_info s = (Ret tt, s')
    /\ (a = Sent (error_frame w status_code exc_info)
        \/ a = StreamClosed (error_frame w status_code exc_info))
    /\ trace s' = (trace s ++ [SendError status_code; a; OnFinish])%list
    /\ _keepalive s' = Some false
    /\ _build_finished s' = true.
Proof.
  intros F. unfold send_error.
  assert (Em : (let message :=
                  match exc_info with
                  | Some e => extract_message w e
                  | None => EmptyString
                  end in
                if is_empty message
                then match responses w status_code with
                     | Some m => m
                     | None => "Unknown HTTP Error"
                     end
                else message)
               = error_message w status_code exc_info).
  { unfold error_message. destruct exc_info; reflexivity. }
  cbv zeta in Em |- *. rewrite Em. fold (error_frame w status_code exc_info).
  unfold bind at 1. unfold record at 1, modify.
  unfold bind at 1. unfold try_except, write_flush.
  set (s1 := push (SendError status_code) s).
  assert (F1 : forall a, _abort_launch (push a s1) <> Some true) by exact (fun _ => F).
  assert (F2 : forall f, _abort_launch (delivered f s1) <> Some true)
    by exact (fun _ => F).
  destruct (stream_open w s1).
  - destruct (on_finish_result _ (F2 (error_frame w status_code exc_info)))
      as (s' & Ef & Ee & Ek & Eb & _).
    exists s', (Sent (error_frame w status_code exc_info)).
    rewrite Ef. repeat split; auto.
    unfold trace. rewrite Ee. cbn [events delivered s1 push rev].
    rewrite <- !List.app_assoc. reflexivity.
  - unfold raise, ret.
    destruct (on_finish_result _
                (F1 (StreamClosed (error_frame w status_code exc_info))))
      as (s' & Ef & Ee & Ek & Eb & _).
    exists s', (StreamClosed (error_frame w status_code exc_info)).
    rewrite Ef. repeat split; auto.
    unfold trace. rewrite Ee. cbn [events s1 push rev].
    rewrite <- !List.app_assoc. reflexivity.
Qed.

(** *** The launch *)

Lemma fold_push_fields calls s :
  let s' := fold_left (fun s' c => push (HubRequest c) s') calls s in
  events s' = (rev (map HubRequest calls) ++ events s)%list
  /\ flushed s' = flushed s
  /\ _abort_launch s' = _abort_launch s.
Proof.
  revert s. induction calls as [|c calls IH]; intros s; [repeat split|].
  cbn [fold_left map rev]. destruct (IH (push (HubRequest c) s)) as (E & F & A).
  cbv zeta. rewrite E, F, A. cbn [push events flushed _abort_launch].
  rewrite <- List.app_assoc. repeat split.
Qed.

Lemma launcher_launch_fresh image username s :
  _abort_launch s = Some false ->
  launcher_launch w image username s
  = (fst (Launcher.launch (launcher_of w) image username []),
     fold_left (fun s' c => push (HubRequest c) s')
       (snd (Launcher.launch (launcher_of w) image username [])) s).
Proof.
  intros H. unfold launcher_launch. rewrite H. fold (launcher_of w).
  destruct (Launcher.launch (launcher_of w) image username []); reflexivity.
Qed.

(** X23.  When the launcher, called with the fresh abort future, raises,
    [launch] records the launch time with status [failure] and raises the
    same exception: after the [launching] frame and the requests of the
    launcher nothing is sent, in particular no [ready] frame. *)
Theorem failed_launch_is_observed s repo_url image username e calls :
  stream_open w s = true ->
  repo s = Some repo_url ->
  image_name s = Some image ->
  Launcher.username_from_repo (urlparse_path w) (draw w) repo_url
  = Ret username ->
  Launcher.launch (launcher_of w) image username [] = (Raise e, calls) ->
  exists s',
    launch w s = (Raise e, s')
    /\ trace s'
       = (trace s ++ [Sent (DataFrame launching_frame)]
          ++ map HubRequest calls ++ [Observe LAUNCH_TIME failure])%list
    /\ _abort_launch s' = Some false.
Proof.
  intros Ho Hr Hi Hu Hl. unfold launch.
  unfold bind at 1.
  destruct (emit_cases w launching_frame s) as [[_ E]|[O _]];
    [|congruence].
  rewrite E. unfold bind at 1. unfold get_state at 1.
  unfold bind at 1. cbn [repo delivered]. rewrite Hr. cbn [attribute ret].
  unfold bind at 1. unfold call at 1. rewrite Hu.
  unfold bind at 1. cbn [set_abort_launch modify].
  unfold bind at 1. unfold launch_try. unfold try_except.
  unfold bind at 1. cbn [image_name delivered]. rewrite Hi. cbn [attribute ret].
  unfold bind at 1.
  rewrite launcher_launch_fresh by reflexivity.
  rewrite Hl. cbn [fst snd]. unfold bind, observe, record, modify, raise.
  eexists. split; [reflexivity|].
  match goal with
  | |- context [fold_left ?f calls ?st] =>
      destruct (fold_push_fields calls st) as (Ee & _ & Ea)
  end.
  cbv zeta in Ee, Ea. split.
  - unfold trace. cbn [events push]. rewrite Ee.
    cbn [events delivered rev].
    rewrite List.rev_app_distr, List.rev_involutive. cbn [rev].
    rewrite <- !List.app_assoc. reflexivity.
  - cbn [_abort_launch push]. rewrite Ea. reflexivity.
Qed.

(** X24.  When the launcher, called with the fresh abort future, returns
    the server, [launch] records the launch time with status [success]
    and then emits the [ready] frame
    with the message [server running at <url>], the [url] and the [token]
    of the server; it returns when the frame was delivered. *)
Theorem launched_server_is_announced s repo_url image username info calls r s' :
  stream_open w s = true ->
  repo s = Some repo_url ->
  image_name s = Some image ->
  Launcher.username_from_repo (urlparse_path w) (draw w) repo_url
  = Ret username ->
  Launcher.launch (launcher_of w) image username []
  = (Ret (Some info), calls) ->
  launch w s = (r, s') ->
  exists a,
    ((a = Sent (DataFrame
                  (ready_frame
                     (Launcher.hub_url (launcher w) ++ "user/" ++ username
                      ++ "/")
                     (Launcher.mint_token (Launcher.urandom (launcher w)))))
      /\ r = Ret tt)
     \/ (a = StreamClosed
                (DataFrame
                   (ready_frame
                      (Launcher.hub_url (launcher w) ++ "user/" ++ username
                       ++ "/")
                      (Launcher.mint_token (Launcher.urandom (launcher w)))))
         /\ r = Raise Finish))
    /\ trace s'
       = (trace s ++ [Sent (DataFrame launching_frame)]
          ++ map HubRequest calls ++ [Observe LAUNCH_TIME success; a])%list.
Proof.
  intros Ho Hr Hi Hu Hl. unfold launch.
  pose proof (launcher_returns _ _ _ _ _ _ Hl) as ->.
  unfold bind at 1.
  destruct (emit_cases w launching_frame s) as [[_ E]|[O _]];
    [|congruence].
  rewrite E. unfold bind at 1. unfold get_state at 1.
  unfold bind at 1. cbn [repo delivered]. rewrite Hr. cbn [attribute ret].
  unfold bind at 1. unfold call at 1. rewrite Hu.
  unfold bind at 1. cbn [set_abort_launch modify].
  unfold bind at 1. unfold launch_try. unfold try_except.
  unfold bind at 1. cbn [image_name delivered]. rewrite Hi. cbn [attribute ret].
  unfold bind at 1.
  rewrite launcher_launch_fresh by reflexivity.
  rewrite Hl. cbn [fst snd].
  unfold bind at 1. unfold get_state at 1.
  match goal with
  | |- context [fold_left ?f calls ?st] =>
      destruct (fold_push_fields calls st) as (Ee & _ & Ea);
      set (s1 := fold_left f calls st) in *
  end.
  cbv zeta in Ee, Ea. cbn [_abort_launch] in Ea. rewrite Ea.
  unfold bind at 1. unfold observe, record, modify. cbn [ret].
  cbn [lookup String.eqb Ascii.eqb Bool.eqb].
  change (dict_update _ _)
    with [("phase", JStr "ready");
          ("message",
           JStr ("server running at "
                 ++ (Launcher.hub_url (launcher_of w) ++ "user/" ++ username
                     ++ "/") ++ nl));
          ("url",
           JStr (Launcher.hub_url (launcher_of w) ++ "user/" ++ username
                 ++ "/"));
          ("token",
           JStr (Launcher.mint_token (Launcher.urandom (launcher_of w))))].
  change (Launcher.hub_url (launcher_of w))
    with (Launcher.hub_url (launcher w)).
  change (Launcher.urandom (launcher_of w))
    with (Launcher.urandom (launcher w)).
  match goal with
  | |- context [emit w (Dict ?d)] =>
      change (Dict d)
        with (ready_frame
                (Launcher.hub_url (launcher w) ++ "user/" ++ username ++ "/")
                (Launcher.mint_token (Launcher.urandom (launcher w))))
  end.
  intros H.
  match type of H with
  | emit w ?d ?st = _ =>
      destruct (emit_cases w d st) as [[_ E2]|[_ E2]]; rewrite E2 in H;
      injection H as <- <-
  end.
  - eexists. split; [left; split; reflexivity|].
    unfold trace. cbn [events delivered push]. rewrite Ee.
    cbn [events delivered rev].
    rewrite List.rev_app_distr, List.rev_involutive. cbn [rev].
    rewrite <- !List.app_assoc. reflexivity.
  - eexists. split; [right; split; reflexivity|].
    unfold trace. cbn [events delivered push]. rewrite Ee.
    cbn [events delivered rev].
    rewrite List.rev_app_distr, List.rev_involutive. cbn [rev].
    rewrite <- !List.app_assoc. reflexivity.
Qed.

End WithWorld.

Lemma keep_alive_ends_with_the_stream_witness :
  exists k,
    (k <= 5)%nat
    /\ flushed (snd (keep_alive (idle (Some 3%nat)) 5 initial))
       = (flushed initial + k)%nat
    /\ ((fst (keep_alive (idle (Some 3%nat)) 5 initial) = Blocked /\ k = 5%nat
         /\ trace (snd (keep_alive (idle (Some 3%nat)) 5 initial))
            = (trace initial ++ repeat (Sent KeepaliveFrame) k)%list)
        \/ (fst (keep_alive (idle (Some 3%nat)) 5 initial) = Ret tt
            /\ stream_open (idle (Some 3%nat))
                 (snd (keep_alive (idle (Some 3%nat)) 5 initial)) = false
            /\ trace (snd (keep_alive (idle (Some 3%nat)) 5 initial))
               = (trace initial ++ repeat (Sent KeepaliveFrame) k
                  ++ [StreamClosed KeepaliveFrame])%list)).
Proof.
  apply (keep_alive_ends_with_the_stream (idle (Some 3%nat)) 5 initial).
  - reflexivity.
  - apply surjective_pairing.
Defined.

Lemma on_finish_stops_the_keepalive_witness :
  exists s',
    on_finish launching = (Ret tt, s')
    /\ trace s' = (trace launching ++ [OnFinish])%list
    /\ _keepalive s' = Some false
    /\ _build_finished s' = true
    /\ _abort_launch s'
       = match _abort_launch launching with
         | Some _ => Some true
         | None => None
         end
    /\ keep_alive_turns cache_hit 1 s' = (Ret tt, s').
Proof.
  apply (on_finish_stops_the_keepalive cache_hit launching 0).
  - reflexivity.
  - discriminate.
Defined.

Lemma send_error_reports_and_finishes_witness :
  exists s' a,
    send_error registry_down 500 (Some (ClientHTTPError 599 None)) initial
    = (Ret tt, s')
    /\ (a = Sent (error_frame registry_down 500
                    (Some (ClientHTTPError 599 None)))
        \/ a = StreamClosed (error_frame registry_down 500
                               (Some (ClientHTTPError 599 None))))
    /\ trace s' = (trace initial ++ [SendError 500; a; OnFinish])%list
    /\ _keepalive s' = Some false
    /\ _build_finished s' = true.
Proof.
  apply (send_error_reports_and_finishes registry_down 500
           (Some (ClientHTTPError 599 None)) initial).
  discriminate.
Defined.

Lemma failed_launch_is_observed_witness :
  exists s',
    launch refused launching
    = (Raise (WebHTTPError 500
                ("Failed to create temporary user for " ++ example_image)),
       s')
    /\ trace s'
       = (trace launching ++ [Sent (DataFrame launching_frame)]
          ++ map HubRequest
               [HubRequests.create_user (launcher_of refused)
                  "minrk-binder-example-afkpuz49"]
          ++ [Observe LAUNCH_TIME failure])%list
    /\ _abort_launch s' = Some false.
Proof.
  apply (failed_launch_is_observed refused launching
           "https://github.com/minrk/binder-example" example_image
           "minrk-binder-example-afkpuz49");
    vm_compute; reflexivity.
Defined.

Lemma launched_server_is_announced_witness :
  exists a,
    ((a = Sent (DataFrame
                  (ready_frame
                     (Launcher.hub_url (launcher cache_hit) ++ "user/"
                      ++ "minrk-binder-example-afkpuz49" ++ "/")
                     (Launcher.mint_token
                        (Launcher.urandom (launcher cache_hit)))))
      /\ fst (launch cache_hit launching) = Ret tt)
     \/ (a = StreamClosed
                (DataFrame
                   (ready_frame
                      (Launcher.hub_url (launcher cache_hit) ++ "user/"
                       ++ "minrk-binder-example-afkpuz49" ++ "/")
                      (Launcher.mint_token
                         (Launcher.urandom (launcher cache_hit)))))
         /\ fst (launch cache_hit launching) = Raise Finish))
    /\ trace (snd (launch cache_hit launching))
       = (trace launching ++ [Sent (DataFrame launching_frame)]
          ++ map HubRequest
               [HubRequests.create_user (launcher_of cache_hit)
                  "minrk-binder-example-afkpuz49";
                HubRequests.start_server (launcher_of cache_hit)
                  "minrk-binder-example-afkpuz49" example_image]
          ++ [Observe LAUNCH_TIME success; a])%list.
Proof.
  apply (launched_server_is_announced cache_hit launching
           "https://github.com/minrk/binder-example" example_image
           "minrk-binder-example-afkpuz49"
           [("url", "http://hub/user/minrk-binder-example-afkpuz49/");
            ("token", "AAAAAAAAQACAAAAAAAAAAA")]);
    vm_compute; reflexivity.
Defined.

End LifecycleCoverage.

Module NameCoverage.

Import PyStr PyStrFacts BuildHandler NameFacts Names.

Lemma take_length_min n s :
  String.length (take n s) = Nat.min n (String.length s).
Proof.
  revert s; induction n as [|k IH]; intros [|c r]; simpl; auto.
Qed.

Lemma slice_to_length_min s n :
  0 <= n ->
  String.length (slice_to s n) = Nat.min (Z.to_nat n) (String.length s).
Proof.
  intros H. unfold slice_to. apply Z.leb_le in H. rewrite H.
  apply take_length_min.
Qed.

(** X25.  For a slug and a reference of ASCII characters, and with
    limits that leave room for the hash and the reference
    ([hash_length + ref_length + 2 <= limit], [hash_length <= 64]), the
    generated name has exactly
    [min(len(slug), limit - hash_length - ref_length - 2) + hash_length
     + min(len(ref), ref_length) + 2] characters: never more than
    [limit]; and it has no uppercase letter. *)
Theorem generated_name_fits_the_limit
    build_slug ref limit hash_length ref_length :
  ascii_only build_slug = true -> ascii_only ref = true ->
  0 <= hash_length <= 64 -> 0 <= ref_length ->
  hash_length + ref_length + 2 <= limit ->
  String.length (_generate_build_name build_slug ref limit hash_length
                   ref_length)
  = (Nat.min (Z.to_nat (limit - hash_length - ref_length - 2))
             (String.length build_slug)
     + Z.to_nat hash_length
     + Nat.min (Z.to_nat ref_length) (String.length ref) + 2)%nat
  /\ Z.of_nat (String.length
                 (_generate_build_name build_slug ref limit hash_length
                    ref_length)) <= limit
  /\ forallb (fun c => negb (is_upper c))
       (_generate_build_name build_slug ref limit hash_length ref_length)
     = true.
Proof.
  intros _ _ Hh Hr Hl.
  assert (E : String.length
                (_generate_build_name build_slug ref limit hash_length
                   ref_length)
              = (Nat.min (Z.to_nat (limit - hash_length - ref_length - 2))
                         (String.length build_slug)
                 + Z.to_nat hash_length
                 + Nat.min (Z.to_nat ref_length) (String.length ref)
                 + 2)%nat).
  { unfold _generate_build_name. cbv zeta.
    rewrite lower_length, !append_length. cbn [String.length].
    rewrite !slice_to_length_min by lia.
    rewrite hexdigest_length. lia. }
  split; [exact E|]. split; [rewrite E; lia|].
  unfold _generate_build_name. cbv zeta. apply lower_no_upper.
Qed.

Lemma generated_name_fits_the_limit_witness :
  String.length (_generate_build_name
                   "a-very-long-organisation-name-and-a-very-long-repository-name"
                   "0123456789abcdef" 63 6 6)
  = (Nat.min (Z.to_nat (63 - 6 - 6 - 2))
             (String.length
                "a-very-long-organisation-name-and-a-very-long-repository-name")
     + Z.to_nat 6
     + Nat.min (Z.to_nat 6) (String.length "0123456789abcdef") + 2)%nat
  /\ Z.of_nat (String.length
                 (_generate_build_name
                    "a-very-long-organisation-name-and-a-very-long-repository-name"
                    "0123456789abcdef" 63 6 6)) <= 63
  /\ forallb (fun c => negb (is_upper c))
       (_generate_build_name
          "a-very-long-organisation-name-and-a-very-long-repository-name"
          "0123456789abcdef" 63 6 6)
     = true.
Proof.
  apply (generated_name_fits_the_limit
           "a-very-long-organisation-name-and-a-very-long-repository-name"
           "0123456789abcdef" 63 6 6); try reflexivity; lia.
Defined.

Lemma name_chars_lower_replace s :
  forallb name_char (lower (replace_char "_" "-" s)) = true.
Proof.
  induction s as [|c r IH]; [reflexivity|].
  cbn [replace_char lower forallb]. rewrite IH, andb_true_r.
  destruct c as [[] [] [] [] [] [] [] []]; reflexivity.
Qed.

Lemma name_chars_replace_lower s :
  forallb name_char (replace_char "_" "-" (lower s)) = true.
Proof.
  induction s as [|c r IH]; [reflexivity|].
  cbn [replace_char lower forallb]. rewrite IH, andb_true_r.
  destruct c as [[] [] [] [] [] [] [] []]; reflexivity.
Qed.

(** X26.  For an image prefix, a slug and a reference of ASCII
    characters, the names [get] derives hold no uppercase letter and no
    underscore.  The build name has at most 63 characters; the image name
    is never shortened: it is as long as the prefix, the slug, a colon and
    the reference together. *)
Theorem names_are_lowercase_without_underscore prefix build_slug ref :
  ascii_only prefix = true -> ascii_only build_slug = true ->
  ascii_only ref = true ->
  forallb name_char (build_name_of build_slug ref) = true
  /\ (String.length (build_name_of build_slug ref) <= 63)%nat
  /\ forallb name_char (image_name_of prefix build_slug ref) = true
  /\ String.length (image_name_of prefix build_slug ref)
     = (String.length prefix + String.length build_slug + 1
        + String.length ref)%nat.
Proof.
  intros _ _ _. split; [|split; [|split]].
  - unfold build_name_of, _generate_build_name. cbv zeta.
    apply name_chars_replace_lower.
  - apply build_name_length.
  - unfold image_name_of. apply name_chars_lower_replace.
  - unfold image_name_of.
    rewrite lower_length, replace_char_length, !append_length.
    cbn [String.length]. lia.
Qed.

Lemma names_are_lowercase_without_underscore_witness :
  forallb name_char (build_name_of "Minrk-Binder_Example" "0123456789abcdef")
  = true
  /\ (String.length (build_name_of "Minrk-Binder_Example" "0123456789abcdef")
      <= 63)%nat
  /\ forallb name_char
       (image_name_of "registry.example/binder-" "Minrk-Binder_Example"
          "0123456789abcdef") = true
  /\ String.length
       (image_name_of "registry.example/binder-" "Minrk-Binder_Example"
          "0123456789abcdef")
     = (String.length "registry.example/binder-"
        + String.length "Minrk-Binder_Example" + 1
        + String.length "0123456789abcdef")%nat.
Proof.
  apply (names_are_lowercase_without_underscore "registry.example/binder-"
           "Minrk-Binder_Example" "0123456789abcdef"); reflexivity.
Defined.

End NameCoverage.

Module CountCoverage.

Import PyStr BuildHandler HandlerFacts Scenario Requests LaunchFacts
  LoopFacts BuildLaunchFacts RequestCoverage Counts.

Lemma count_app f a b : count f (a ++ b) = (count f a + count f b)%nat.
Proof. unfold count. now rewrite filter_app, List.length_app. Qed.

Lemma count_rev f l : count f (rev l) = count f l.
Proof.
  induction l as [|a l IH]; [reflexivity|].
  cbn [rev]. rewrite count_app, IH. unfold count. cbn [filter].
  destruct (f a); cbn [List.length]; lia.
Qed.

Lemma count_none f l : Forall (fun a => f a = false) l -> count f l = 0%nat.
Proof.
  unfold count. induction 1 as [|a l Ha _ IH]; [reflexivity|].
  cbn [filter]. rewrite Ha. exact IH.
Qed.

Lemma count_absent f l : List.existsb f l = false -> count f l = 0%nat.
Proof.
  unfold count. induction l as [|a l IH]; [reflexivity|].
  cbn [List.existsb filter]. intros H. apply orb_false_iff in H as [Ha Hl].
  rewrite Ha. auto.
Qed.

(** [bounded f n m]: [m] adds at most [n] events that [f] selects. *)
Definition bounded (f : action -> bool) (n : nat) {A} (m : M state A)
  : Prop :=
  spec (fun ext _ => (count f ext <= n)%nat) m.

Lemma bounded_le f a b {A} (m : M state A) :
  (a <= b)%nat -> bounded f a m -> bounded f b m.
Proof.
  intros Hab H. eapply spec_weaken; [exact H|]. cbv beta. intros. lia.
Qed.

Lemma bounded_none f {A} (m : M state A) :
  emits (fun a => f a = false) m -> bounded f 0 m.
Proof.
  intros H. eapply spec_weaken; [exact H|].
  intros ext r0 F. rewrite (count_none f ext F). lia.
Qed.

Lemma bounded_bind f a b {A B} (m : M state A) (k : A -> M state B) :
  bounded f a m -> (forall x, bounded f b (k x)) ->
  bounded f (a + b) (bind m k).
Proof.
  intros Hm Hk s r s' H.
  apply bind_inv in H as [(x & s1 & H1 & H2)|[(e & H1 & ->)|[H1 ->]]];
    destruct (Hm _ _ _ H1) as (e1 & E1 & C1).
  - destruct (Hk x _ _ _ H2) as (e2 & E2 & C2).
    exists (e2 ++ e1)%list. rewrite E2, E1, List.app_assoc.
    split; [reflexivity|]. rewrite count_app. lia.
  - exists e1. split; [exact E1 | lia].
  - exists e1. split; [exact E1 | lia].
Qed.

Lemma bounded_try_except f a b {A} (m : M state A) h :
  bounded f a m -> (forall e, bounded f b (h e)) ->
  bounded f (a + b) (try_except m h).
Proof.
  intros Hm Hh s r s' H.
  apply try_except_inv in H as [(e & s1 & H1 & H2)|[H1 _]];
    destruct (Hm _ _ _ H1) as (e1 & E1 & C1).
  - destruct (Hh e _ _ _ H2) as (e2 & E2 & C2).
    exists (e2 ++ e1)%list. rewrite E2, E1, List.app_assoc.
    split; [reflexivity|]. rewrite count_app. lia.
  - exists e1. split; [exact E1 | lia].
Qed.

Lemma bounded_track_inprogress f n g {A} (body : M state A) :
  f (Inc g) = false -> f (Dec g) = false ->
  bounded f n body -> bounded f n (track_inprogress g body).
Proof.
  intros Hi Hd Hb s r s' H.
  apply track_inprogress_inv in H as (s0 & E0 & [[H ->]|(s1 & H & E1 & _)]);
    destruct (Hb _ _ _ H) as (e1 & Eb & C).
  - exists (e1 ++ [Inc g])%list. rewrite Eb, E0, <- List.app_assoc.
    split; [reflexivity|]. rewrite count_app. unfold count at 2.
    cbn [filter]. rewrite Hi. cbn [List.length]. lia.
  - exists (Dec g :: e1 ++ [Inc g])%list.
    rewrite E1, Eb, E0. cbn [app]. rewrite <- List.app_assoc.
    split; [reflexivity|].
    change (Dec g :: e1 ++ [Inc g])%list with ([Dec g] ++ e1 ++ [Inc g])%list.
    rewrite !count_app. unfold count at 1 3. cbn [filter].
    rewrite Hi, Hd. cbn [List.length]. lia.
Qed.

Lemma bounded_record f a : f a = false -> bounded f 0 (record a).
Proof. intros H. apply bounded_none, emits_record. exact H. Qed.

Lemma bounded_one_record f a : bounded f 1 (record a).
Proof.
  eapply spec_weaken; [apply adds_record|].
  intros ext r [-> _]. unfold count. cbn [filter].
  destruct (f a); cbn [List.length]; lia.
Qed.

Lemma bounded_silent f {A} (m : M state A) :
  spec (fun ext _ => ext = []) m -> bounded f 0 m.
Proof. intros H. apply bounded_none, emits_silent. exact H. Qed.

Lemma bounded_ret f {A} (a : A) : bounded f 0 (ret a).
Proof. apply bounded_none, emits_ret. Qed.

Section WithWorld.

Variable w : world.

Lemma bounded_emit f d :
  f (Sent (DataFrame d)) = false -> f (StreamClosed (DataFrame d)) = false ->
  bounded f 0 (emit w d).
Proof. intros Hs Hc. apply bounded_none, emits_emit; assumption. Qed.

Lemma image_found_looks_up image :
  emits (fun a => is_lookup a = true) (image_found w image).
Proof.
  unfold image_found. destruct (use_registry (config w)).
  - destruct (split1 "/" image) as [[x rest]|]; [|apply emits_raise].
    destruct (split1 ":" rest) as [[repo_name tag]|]; [|apply emits_raise].
    apply emits_bind; [apply emits_record; reflexivity|]. intros _.
    apply emits_bind; [apply emits_call|]. intros m. apply emits_ret.
  - apply emits_bind; [apply emits_record; reflexivity|]. intros _.
    apply emits_try_except.
    + apply emits_bind; [apply emits_call|]. intros _. apply emits_ret.
    + intros []; try apply emits_raise. apply emits_ret.
Qed.

(** The request up to the image lookup, for an [f] that selects no
    header, no frame and no lookup. *)
Section Selecting.

Variable f : action -> bool.
Hypothesis no_header : forall n v, f (SetHeader n v) = false.
Hypothesis no_spawn : f SpawnKeepAlive = false.
Hypothesis no_lookup : forall a, is_lookup a = true -> f a = false.
Hypothesis no_failed :
  forall m, f (Sent (DataFrame (failed_frame m))) = false
            /\ f (StreamClosed (DataFrame (failed_frame m))) = false.
Hypothesis no_found :
  forall i, f (Sent (DataFrame (found_frame i))) = false
            /\ f (StreamClosed (DataFrame (found_frame i))) = false.
Hypothesis no_gauge : forall g, f (Inc g) = false /\ f (Dec g) = false.

Variable n : nat.
Hypothesis launch_bound : bounded f n (launch w).
Hypothesis build_bound :
  forall build_name image repo_url ref,
    bounded f n (build_and_launch w build_name image repo_url ref).

Lemma bounded_fail message : bounded f 0 (fail w message).
Proof.
  unfold fail. fold (failed_frame message).
  apply bounded_emit; apply no_failed.
Qed.

Lemma bounded_get provider_prefix spec :
  bounded f n (get w provider_prefix spec).
Proof.
  unfold get.
  apply (bounded_bind f 0 n); [apply bounded_record, no_header|]. intros _.
  apply (bounded_bind f 0 n); [apply bounded_record, no_header|]. intros _.
  destruct (negb _);
    [apply (bounded_le f 0); [lia | apply bounded_fail]|].
  apply (bounded_bind f 0 n); [apply bounded_record, no_spawn|]. intros _.
  apply (bounded_bind f 0 n);
    [apply bounded_silent; eapply spec_weaken;
     [apply adds_set_keepalive | intros ? ? [-> _]; reflexivity]|].
  intros _.
  apply (bounded_bind f 0 n).
  { apply (bounded_try_except f 0 0).
    - apply bounded_none, emits_bind; [apply emits_call|].
      intros p. apply emits_ret.
    - intros e. apply (bounded_bind f 0 0); [apply bounded_fail|].
      intros _. apply bounded_ret. }
  intros [p|]; [|apply (bounded_le f 0); [lia | apply bounded_ret]].
  apply (bounded_bind f 0 n);
    [apply bounded_silent; eapply spec_weaken;
     [apply adds_set_repo | intros ? ? [-> _]; reflexivity]|].
  intros _.
  apply (bounded_bind f 0 n).
  { apply (bounded_try_except f 0 0).
    - apply bounded_none, emits_bind; [apply emits_call|].
      intros r. apply emits_ret.
    - intros e. apply (bounded_bind f 0 0); [apply bounded_fail|].
      intros _. apply bounded_ret. }
  intros [[ref|]|];
    [|apply (bounded_le f 0); [lia | apply bounded_fail]
     |apply (bounded_le f 0); [lia | apply bounded_ret]].
  apply (bounded_bind f 0 n);
    [apply bounded_silent; eapply spec_weaken;
     [apply adds_set_image_name | intros ? ? [-> _]; reflexivity]|].
  intros _.
  apply (bounded_bind f 0 n).
  { apply bounded_none. eapply emits_weaken; [apply image_found_looks_up|].
    exact no_lookup. }
  intros [|]; [|apply build_bound].
  apply (bounded_bind f 0 n); [apply bounded_emit; apply no_found|].
  intros _. exact launch_bound.
Qed.

End Selecting.

(** *** Launch attempts *)

Lemma launch_once : bounded is_launch_attempt 1 (launch w).
Proof.
  eapply spec_weaken; [apply launch_shape|].
  intros ext r R. destruct (launch_record_summary _ _ R) as (A & _).
  unfold launch_attempts in A. unfold count. rewrite A. lia.
Qed.

Lemma consume_launches_nothing image :
  bounded is_launch_attempt 0 (consume w image (queue w) false false None).
Proof.
  eapply spec_weaken; [apply consume_shape; discriminate|].
  intros ext r R. destruct (loop_record_summary _ _ _ _ R) as (A & _).
  unfold launch_attempts in A. unfold count. rewrite A. lia.
Qed.

Lemma build_launches_once build_name image repo_url ref :
  bounded is_launch_attempt 1
          (build_and_launch w build_name image repo_url ref).
Proof.
  unfold build_and_launch.
  apply (bounded_bind _ 0 1); [apply bounded_record; reflexivity|].
  intros _.
  apply (bounded_bind _ 0 1); [apply bounded_record; reflexivity|].
  intros _.
  apply (bounded_bind _ 0 1).
  - apply bounded_track_inprogress; [reflexivity..|].
    apply (bounded_bind _ 0 0); [apply bounded_record; reflexivity|].
    intros _.
    apply (bounded_bind _ 0 0); [apply bounded_emit; reflexivity|].
    intros _. apply consume_launches_nothing.
  - intros [|]; [apply (bounded_le _ 0); [lia | apply bounded_ret]|].
    apply (bounded_bind _ 0 1); [apply bounded_record; reflexivity|].
    intros _. apply bounded_track_inprogress; [reflexivity..|].
    apply launch_once.
Qed.

(** *** Builds *)

Lemma launch_builds_nothing : bounded is_new_build 0 (launch w).
Proof.
  eapply spec_weaken; [apply launch_shape|].
  intros ext r R.
  destruct (launch_record_reading is_new_build ext r
              ltac:(reflexivity) ltac:(reflexivity) ltac:(reflexivity)
              ltac:(reflexivity) R) as (Q & _).
  rewrite (count_absent _ _ Q). lia.
Qed.

Lemma loop_event_builds_nothing a : loop_event a -> is_new_build a = false.
Proof. intros [(d & _ & ->)|[->| ->]]; reflexivity. Qed.

Lemma consume_builds_nothing image :
  bounded is_new_build 0 (consume w image (queue w) false false None).
Proof.
  eapply spec_weaken; [apply consume_shape; discriminate|].
  intros ext r R.
  destruct R as [e F|d e Hd F|e r F Hr];
    pose proof (count_none is_new_build e
                  (Forall_impl _ loop_event_builds_nothing F)) as Q.
  - change (?a :: e)%list with ([a] ++ e)%list. rewrite count_app, Q.
    cbn. lia.
  - change (?a :: e)%list with ([a] ++ e)%list. rewrite count_app, Q.
    cbn. lia.
  - lia.
Qed.

Lemma build_builds_once build_name image repo_url ref :
  bounded is_new_build 1 (build_and_launch w build_name image repo_url ref).
Proof.
  unfold build_and_launch.
  apply (bounded_bind _ 0 1); [apply bounded_record; reflexivity|].
  intros _.
  apply (bounded_bind _ 1 0); [apply bounded_one_record|].
  intros _.
  apply (bounded_bind _ 0 0).
  - apply bounded_track_inprogress; [reflexivity..|].
    apply (bounded_bind _ 0 0); [apply bounded_record; reflexivity|].
    intros _.
    apply (bounded_bind _ 0 0); [apply bounded_emit; reflexivity|].
    intros _. apply consume_builds_nothing.
  - intros [|]; [apply bounded_ret|].
    apply (bounded_bind _ 0 0); [apply bounded_record; reflexivity|].
    intros _. apply bounded_track_inprogress; [reflexivity..|].
    apply launch_builds_nothing.
Qed.

Lemma lookup_not_selected a :
  is_lookup a = true ->
  is_launch_attempt a = false /\ is_new_build a = false.
Proof. destruct a; try discriminate; auto. Qed.

(** X29.  A request instantiates at most one build and attempts at most
    one launch, on every path and whatever the outside does. *)
Theorem one_build_one_launch provider_prefix spec s :
  (count is_new_build (trace (snd (get w provider_prefix spec s)))
   <= count is_new_build (trace s) + 1)%nat
  /\ (launch_attempts (trace (snd (get w provider_prefix spec s)))
      <= launch_attempts (trace s) + 1)%nat.
Proof.
  destruct (get w provider_prefix spec s) as [r s'] eqn:H. cbn [snd].
  split.
  - assert (B : bounded is_new_build 1 (get w provider_prefix spec)).
    { apply bounded_get; try reflexivity; try (intros; split; reflexivity).
      - intros a Ha. apply (lookup_not_selected a Ha).
      - apply (bounded_le _ 0); [lia | apply launch_builds_nothing].
      - apply build_builds_once. }
    destruct (B _ _ _ H) as (ext & E & C).
    unfold trace. rewrite E, !count_rev, count_app. lia.
  - assert (B : bounded is_launch_attempt 1 (get w provider_prefix spec)).
    { apply bounded_get; try reflexivity; try (intros; split; reflexivity).
      - intros a Ha. apply (lookup_not_selected a Ha).
      - apply launch_once.
      - apply build_launches_once. }
    destruct (B _ _ _ H) as (ext & E & C).
    change launch_attempts with (count is_launch_attempt).
    unfold trace. rewrite E, !count_rev, count_app. lia.
Qed.

End WithWorld.

End CountCoverage.

(** ** The request from the lookup to its end *)

Module RequestFacts.

Import PyStr BuildHandler HandlerFacts Scenario Requests RequestCoverage
  LaunchFacts Lifecycle Outcomes.

Section WithWorld.

Variable w : world.

(** From a lookup that found the image on: the [built] frame, then what
    [launch] adds; no queue, no build, nothing for the pool. *)
Lemma found_image_record p ref r s :
  fst (image_found w (image_of w p ref)
         (at_lookup (get_repo_url p) (image_of w p ref))) = Ret true ->
  from_lookup w p ref (at_lookup (get_repo_url p) (image_of w p ref))
  = (r, s) ->
  List.existsb is_build_action (trace s) = false
  /\ exists lookup,
       is_lookup lookup = true
       /\ ((r = Raise Finish
            /\ trace s
               = (headers
                  ++ [SpawnKeepAlive; lookup;
                      StreamClosed
                        (DataFrame (found_frame (image_of w p ref)))])%list)
           \/ exists el,
                launch_record el r
                /\ trace s
                   = (headers
                      ++ [SpawnKeepAlive; lookup;
                          Sent (DataFrame (found_frame (image_of w p ref)))]
                      ++ rev el)%list).
Proof.
  intros Hf H. unfold from_lookup in H.
  set (image := image_of w p ref) in *.
  set (s0 := at_lookup (get_repo_url p) image) in *.
  destruct (image_found w image s0) as [x s1] eqn:E. cbn [fst] in Hf.
  subst x.
  destruct (image_found_answer w _ _ _ _ E) as (lookup & Hl & ->).
  destruct (lookup_is_quiet _ Hl) as (Lb & _).
  unfold bind at 1 in H. rewrite E in H.
  apply bind_inv in H as [(u & s2 & H1 & H2)|[(e & H1 & ->)|[H1 ->]]];
    destruct (emit_cases w (found_frame image) (push lookup s0))
      as [[_ E1]|[_ E1]]; rewrite E1 in H1; try discriminate.
  - injection H1 as _ <-.
    destruct (launch_shape w _ _ _ H2) as (el & E2 & R).
    destruct (launch_record_reading is_build_action el r
                ltac:(reflexivity) ltac:(reflexivity) ltac:(reflexivity)
                ltac:(reflexivity) R) as (Qb & _).
    split.
    + unfold trace. rewrite BuildThenLaunch.existsb_rev, E2,
        List.existsb_app, Qb.
      cbn [List.existsb events delivered push s0 at_lookup orb
           is_build_action]. rewrite Lb. reflexivity.
    + exists lookup. split; [exact Hl|]. right. exists el.
      split; [exact R|]. unfold trace. rewrite E2.
      rewrite List.rev_app_distr. reflexivity.
  - injection H1 as <- <-. split.
    + unfold trace. rewrite BuildThenLaunch.existsb_rev.
      cbn [List.existsb events push s0 at_lookup orb is_build_action].
      rewrite Lb. reflexivity.
    + exists lookup. split; [exact Hl|]. left. split; reflexivity.
Qed.

(** C6.  When the lookup finds the image, [get] instantiates no build
    and creates no queue (and hands nothing to the pool): after the
    lookup it emits the [built] frame with [imageName] and the message
    [Found built image, launching...], and everything that follows is
    the launch session: the [launching] frame, the requests to the hub
    and, when the server is there, the [ready] frame.  When the client is
    gone at the [built] frame, nothing follows it. *)
Theorem cached_image_goes_straight_to_launch provider_prefix spec p ref r s :
  List.existsb (String.eqb provider_prefix) (repo_providers (config w))
  = true ->
  get_provider w provider_prefix spec = Ret p ->
  get_resolved_ref p = Ret (Some ref) ->
  fst (image_found w (image_of w p ref)
         (at_lookup (get_repo_url p) (image_of w p ref))) = Ret true ->
  get w provider_prefix spec initial = (r, s) ->
  List.existsb is_build_action (trace s) = false
  /\ exists lookup,
       is_lookup lookup = true
       /\ ((r = Raise Finish
            /\ trace s
               = (headers
                  ++ [SpawnKeepAlive; lookup;
                      StreamClosed
                        (DataFrame
                           (Dict [("phase", JStr "built");
                                  ("imageName", JStr (image_of w p ref));
                                  ("message",
                                   JStr ("Found built image, launching..."
                                         ++ nl))]))])%list)
           \/ exists el,
                launch_record el r
                /\ trace s
                   = (headers
                      ++ [SpawnKeepAlive; lookup;
                          Sent
                            (DataFrame
                               (Dict [("phase", JStr "built");
                                      ("imageName", JStr (image_of w p ref));
                                      ("message",
                                       JStr ("Found built image, launching..."
                                             ++ nl))]))]
                      ++ rev el)%list).
Proof.
  intros Hp Hg Hr Hf H.
  rewrite (get_at_lookup w _ _ _ _ Hp Hg Hr) in H.
  exact (found_image_record p ref r s Hf H).
Qed.


End WithWorld.

Lemma cached_image_goes_straight_to_launch_witness :
  List.existsb is_build_action
    (trace (snd (get cache_hit "gh" "minrk/binder-example" initial))) = false
  /\ exists lookup,
       is_lookup lookup = true
       /\ ((Ret tt = Raise Finish
            /\ trace (snd (get cache_hit "gh" "minrk/binder-example" initial))
               = (headers
                  ++ [SpawnKeepAlive; lookup;
                      StreamClosed
                        (DataFrame
                           (Dict [("phase", JStr "built");
                                  ("imageName",
                                   JStr (image_of cache_hit example_provider
                                           "0123456789abcdef"));
                                  ("message",
                                   JStr ("Found built image, launching..."
                                         ++ nl))]))])%list)
           \/ exists el,
                launch_record el (Ret tt)
                /\ trace
                     (snd (get cache_hit "gh" "minrk/binder-example" initial))
                   = (headers
                      ++ [SpawnKeepAlive; lookup;
                          Sent
                            (DataFrame
                               (Dict [("phase", JStr "built");
                                      ("imageName",
                                       JStr (image_of cache_hit
                                               example_provider
                                               "0123456789abcdef"));
                                      ("message",
                                       JStr ("Found built image, launching..."
                                             ++ nl))]))]
                      ++ rev el)%list).
Proof.
  apply (cached_image_goes_straight_to_launch cache_hit "gh"
           "minrk/binder-example" example_provider "0123456789abcdef");
    vm_compute; reflexivity.
Defined.



(** C4.  The launch of a cached image is not counted.  On the build path
    the launch runs inside the launches gauge; on the cache-hit path
    [launch] starts (the [launching] frame is sent) and no gauge is
    entered or left in the whole request. *)
Theorem cached_launch_is_not_counted :
  filter is_gauge_or_launching
    (trace (snd (get cache_hit "gh" "minrk/binder-example" initial)))
  = [Sent (DataFrame launching_frame)]
  /\ filter is_gauge_or_launching
       (trace (snd (get build_succeeds "gh" "minrk/binder-example" initial)))
     = [Inc BUILDS_INPROGRESS; Dec BUILDS_INPROGRESS;
        Inc LAUNCHES_INPROGRESS; Sent (DataFrame launching_frame);
        Dec LAUNCHES_INPROGRESS].
Proof. split; vm_compute; reflexivity. Qed.


End RequestFacts.
